(** * cursor10x-mcp: the retrieval and ranking core of [index.js]

    A shallow embedding of the memory server's vector utilities
    ([createEmbedding], [vectorToBuffer], [bufferToVector],
    [cosineSimilarity], [findSimilarVectors]), of the context assembler
    ([getComprehensiveContext], [scoreItemsByRelevance], [findSimilarItems],
    [groupSimilarSnippetsByFile]), of the [manageVector] tool, of the tool
    dispatcher and of [performVectorMaintenance], followed by the properties
    the specification states about them.  Beyond these it embeds the
    in-memory branch of the message, file and episode handlers, the term
    test of [isCodeRelatedQuery], the parameter conversion of [Statement],
    the line scan of [extractCodeSnippets] and the [backgroundTasks] queue,
    with properties read off the code.

    Conventions.
    - A JavaScript Number is an IEEE-754 binary64 value: Rocq's primitive
      [float].  A Float32Array element is a binary32 bit pattern stored in
      four little-endian bytes.
    - [dimensions], which the program leaves at its default everywhere, is
      a count ([nat]).  A [limit] is a Number: a caller can hand in any, and
      [slice] and [LIMIT] treat a negative or fractional one in their own
      ways.  Identifiers handed in by a caller are [Z]; the row ids that
      SQLite's AUTOINCREMENT hands out are [positive].
    - Strings are sequences of 8-bit code units (the Latin-1 range of
      JavaScript strings), so [charCodeAt] is the code of the character.
    - A table is the list of its rows in rowid order.  The store failures
      that are modelled are the missing connection ([db] is [None]) and the
      statement of the index path, which fails where the store has no
      [vector_top_k] or rejects a bound Number.  [vector_top_k] itself is
      a parameter, of which only what the specification says is assumed.
      The client hands the value of a BLOB column over as an ArrayBuffer.
    - Console output ([log], [logDebug]) is modelled for [createEmbedding]
      only; no result of any function depends on it. *)

From Stdlib Require Import ZArith Lia List Bool Floats.
From Stdlib Require Import Strings.String Strings.Ascii Strings.Byte.
From Stdlib Require Import Sorting.Sorted Sorting.Permutation.
From Stdlib Require DecimalString DecimalPos DecimalZ.
Import ListNotations.

Local Open Scope Z_scope.

(* ================================================================== *)
(** * JavaScript numbers *)
(* ================================================================== *)

(** The binary64 NaN test on the specification side. *)
Definition is_nanSF (x : spec_float) : bool :=
  match x with S754_nan => true | _ => false end.

(** A rounded result that is neither a zero nor NaN and carries sign [s]. *)
Definition signed_nonzero (s : bool) (r : spec_float) : Prop :=
  match r with
  | S754_finite s' _ _ | S754_infinity s' => s' = s
  | _ => False
  end.

(** Number of an integer of the program (array index, char code). *)
Definition number_of_Z (z : Z) : float :=
  match z with
  | Z0 => 0%float
  | Zpos _ => of_uint63 (Uint63.of_Z z)
  | Zneg p => (- of_uint63 (Uint63.of_Z (Zpos p)))%float
  end.

(** [x || null] on an optional number: [undefined], [0], [-0] and [NaN]
    are falsy. *)
Definition or_null (r : option float) : option float :=
  match r with
  | None => None
  | Some x => if (x =? 0)%float || is_nan x then None else Some x
  end.

(** [x >= y] on numbers. *)
Definition number_ge (x y : float) : bool := (y <=? x)%float.

(* ================================================================== *)
(** * JavaScript arrays *)
(* ================================================================== *)

(** Stable insertion sort: [x] is put behind every leading [y] with
    [behind x y]. *)
Fixpoint insert_by {A : Type} (behind : A -> A -> bool) (x : A) (l : list A)
    : list A :=
  match l with
  | [] => [x]
  | y :: ys =>
      if behind x y then y :: insert_by behind x ys else x :: y :: ys
  end.

Definition stable_sort {A : Type} (behind : A -> A -> bool) (l : list A)
    : list A :=
  fold_right (insert_by behind) [] l.

(** [Array.prototype.sort(comparefn)].  The sort is stable, [x] moves behind
    [y] when [comparefn(x, y) > 0], and a NaN result counts as [+0].  For a
    consistent comparator every stable sort yields the same array, so the
    insertion sort stands for the engine's algorithm. *)
Definition Array_sort {A : Type} (comparefn : A -> A -> float) (l : list A)
    : list A :=
  stable_sort (fun x y => (0 <? comparefn x y)%float) l.

(** [ToIntegerOrInfinity]: NaN and the zeros give 0, every other finite
    Number is truncated toward zero. *)
Inductive IntegerOrInfinity : Type :=
  | Integer (z : Z)
  | PlusInfinity
  | MinusInfinity.

Definition ToIntegerOrInfinity (x : float) : IntegerOrInfinity :=
  match Prim2SF x with
  | S754_nan | S754_zero _ => Integer 0
  | S754_infinity s => if s then MinusInfinity else PlusInfinity
  | S754_finite s m e =>
      let magnitude :=
        if 0 <=? e then Zpos m * 2 ^ e else Zpos m / 2 ^ (- e) in
      Integer (if s then - magnitude else magnitude)
  end.

(** The index at which [slice(0, finish)] stops in an array of [len]
    elements: a negative [finish] counts from the end of the array. *)
Definition slice_final (len : nat) (finish : float) : nat :=
  match ToIntegerOrInfinity finish with
  | MinusInfinity => 0%nat
  | PlusInfinity => len
  | Integer relativeEnd =>
      if relativeEnd <? 0 then Z.to_nat (Z.max (Z.of_nat len + relativeEnd) 0)
      else Z.to_nat (Z.min relativeEnd (Z.of_nat len))
  end.

(** [arr.slice(0, finish)] for a Number [finish]. *)
Definition Array_slice0 {A : Type} (l : list A) (finish : float) : list A :=
  firstn (slice_final (List.length l) finish) l.

(* ================================================================== *)
(** * Bytes, array buffers and typed arrays *)
(* ================================================================== *)

Definition byte_of_Z (z : Z) : byte :=
  match Byte.of_N (Z.to_N (z mod 256)) with
  | Some b => b
  | None => x00
  end.

Definition Z_of_byte (b : byte) : Z := Z.of_N (Byte.to_N b).

(** The four bytes of a 32-bit word, least significant first. *)
Definition le_bytes (w : Z) : list byte :=
  [ byte_of_Z w; byte_of_Z (Z.shiftr w 8);
    byte_of_Z (Z.shiftr w 16); byte_of_Z (Z.shiftr w 24) ].

(** The 32-bit word that starts at byte [off] of [buf] (missing bytes read
    as zero). *)
Definition le_word (buf : list byte) (off : nat) : Z :=
  let b i := Z_of_byte (nth (off + i) buf x00) in
  Z.lor (b 0%nat)
    (Z.lor (Z.shiftl (b 1%nat) 8)
       (Z.lor (Z.shiftl (b 2%nat) 16) (Z.shiftl (b 3%nat) 24))).

(** The Number denoted by a binary32 bit pattern. *)
Definition f32_of_bits (w : Z) : float :=
  let s := Z.testbit w 31 in
  let e := Z.land (Z.shiftr w 23) 255 in
  let f := Z.land w (2 ^ 23 - 1) in
  SF2Prim
    (if e =? 0 then
       if f =? 0 then S754_zero s else S754_finite s (Z.to_pos f) (-149)
     else if e =? 255 then
       if f =? 0 then S754_infinity s else S754_nan
     else S754_finite s (Z.to_pos (f + 2 ^ 23)) (e - 150)).

Definition f32_sign_bit (s : bool) : Z := if s then 2 ^ 31 else 0.

(** The binary32 bit pattern a Number is stored as in a Float32Array
    (round to nearest, ties to even; the canonical quiet NaN). *)
Definition bits_of_f32 (x : float) : Z :=
  let encode r :=
    match r with
    | S754_zero s => f32_sign_bit s
    | S754_infinity s => f32_sign_bit s + 255 * 2 ^ 23
    | S754_nan => 255 * 2 ^ 23 + 2 ^ 22
    | S754_finite s m e =>
        f32_sign_bit s +
        (if Zpos (digits2_pos m) =? 24
         then (e + 150) * 2 ^ 23 + (Zpos m - 2 ^ 23)
         else Zpos m)
    end in
  match Prim2SF x with
  | S754_finite s m e => encode (binary_round 24 128 s m e)
  | r => encode r
  end.

(** [Math.fround]. *)
Definition Math_fround (x : float) : float := f32_of_bits (bits_of_f32 x).

(** A Float32Array is a view on an array buffer. *)
Record Float32Array : Type := mkFloat32Array {
  f_buffer : list byte;
  f_byteOffset : nat;
  f_length : nat
}.

(** A Node.js Buffer is a byte view on an array buffer. *)
Record Buffer : Type := mkBuffer {
  b_buffer : list byte;
  b_byteOffset : nat;
  b_length : nat
}.

(** [new Float32Array(n)]: a fresh zero-filled buffer of [4 n] bytes. *)
Definition Float32Array_new (n : nat) : Float32Array :=
  mkFloat32Array (repeat x00 (4 * n)) 0 n.

(** The fresh Float32Array that holds the given bit patterns. *)
Definition Float32Array_of_bits (ws : list Z) : Float32Array :=
  mkFloat32Array (flat_map le_bytes ws) 0 (List.length ws).

(** [new Float32Array(numbers)]: every Number is rounded to binary32. *)
Definition Float32Array_from (xs : list float) : Float32Array :=
  Float32Array_of_bits (map bits_of_f32 xs).

(** The bit pattern and the Number at index [i]. *)
Definition Float32Array_bits (v : Float32Array) (i : nat) : Z :=
  le_word (f_buffer v) (f_byteOffset v + 4 * i).

Definition Float32Array_get (v : Float32Array) (i : nat) : float :=
  f32_of_bits (Float32Array_bits v i).

Definition Float32Array_words (v : Float32Array) : list Z :=
  map (Float32Array_bits v) (seq 0 (f_length v)).

Definition Float32Array_elements (v : Float32Array) : list float :=
  map (Float32Array_get v) (seq 0 (f_length v)).

(** The bytes a Buffer shows. *)
Definition Buffer_bytes (b : Buffer) : list byte :=
  firstn (b_length b) (skipn (b_byteOffset b) (b_buffer b)).

(** [vectorToBuffer]: [Buffer.from(vector.buffer)] is a view on the whole
    array buffer the vector lives in. *)
Definition vectorToBuffer (vector : Float32Array) : Buffer :=
  mkBuffer (f_buffer vector) 0 (List.length (f_buffer vector)).

(** [bufferToVector]:
    [new Float32Array(buffer.buffer, buffer.byteOffset, buffer.length / 4)].
    The constructor throws a RangeError ([None]) when the offset is not a
    multiple of four or the view would leave the buffer; a fractional length
    is truncated. *)
Definition bufferToVector (buffer : Buffer) : option Float32Array :=
  let len := (b_length buffer / 4)%nat in
  if negb (b_byteOffset buffer mod 4 =? 0)%nat then None
  else if (List.length (b_buffer buffer) <? b_byteOffset buffer + 4 * len)%nat
       then None
  else Some (mkFloat32Array (b_buffer buffer) (b_byteOffset buffer) len).

(** [bufferToVector(row.vector)] for the [vector] of a row read from the
    store.  The client hands a BLOB over as an ArrayBuffer, which has none
    of the properties [bufferToVector] reads: [buffer.buffer] and
    [buffer.byteOffset] are [undefined] and [buffer.length / 4] is NaN.
    The call is [new Float32Array(undefined, undefined, NaN)], which is the
    empty Float32Array, whatever the bytes of the blob are. *)
Definition bufferToVector_ArrayBuffer (blob : list byte) : Float32Array :=
  Float32Array_new 0.

(* ================================================================== *)
(** * Strings *)
(* ================================================================== *)

Definition char_code (c : ascii) : Z := Z.of_N (N_of_ascii c).

(** [String.prototype.toLowerCase] on Latin-1 code units: A-Z and the
    accented capitals U+00C0..U+00DE other than the multiplication sign
    move up by 32. *)
Definition lower_char (c : ascii) : ascii :=
  let n := char_code c in
  if ((65 <=? n) && (n <=? 90)) ||
     ((192 <=? n) && (n <=? 222) && negb (n =? 215))
  then ascii_of_N (Z.to_N (n + 32)) else c.

Fixpoint toLowerCase (s : string) : string :=
  match s with
  | EmptyString => EmptyString
  | String c r => String (lower_char c) (toLowerCase r)
  end.

(** White space and line terminators in the Latin-1 range. *)
Definition is_white_space (c : ascii) : bool :=
  let n := char_code c in
  ((9 <=? n) && (n <=? 13)) || (n =? 32) || (n =? 160).

Fixpoint trimStart (s : string) : string :=
  match s with
  | EmptyString => EmptyString
  | String c r => if is_white_space c then trimStart r else s
  end.

Fixpoint string_rev (s acc : string) : string :=
  match s with
  | EmptyString => acc
  | String c r => string_rev r (String c acc)
  end.

(** [String.prototype.trim]. *)
Definition trim (s : string) : string :=
  string_rev (trimStart (string_rev (trimStart s) ""%string)) ""%string.

Definition char_codes (s : string) : list Z :=
  map char_code (list_ascii_of_string s).

Definition string_of_Z (z : Z) : string :=
  DecimalString.NilZero.string_of_int (Z.to_int z).

Definition string_of_nat (n : nat) : string := string_of_Z (Z.of_nat n).

(** A JavaScript string is truthy when it is present and not empty. *)
Definition truthy_string (s : option string) : bool :=
  match s with
  | Some s => negb (String.eqb s "")
  | None => false
  end.

(* ================================================================== *)
(** * Completions and the console *)
(* ================================================================== *)

(** The outcome of running a block: a value, or a thrown [Error] with its
    message. *)
Inductive completion (A : Type) : Type :=
  | Normal (value : A)
  | Throw (message : string).
Arguments Normal {A} value.
Arguments Throw {A} message.

Record Console : Type := mkConsole {
  debugLogging : bool;
  console_lines : list string
}.

(** [log(message, level)]; the time stamp in front of the line is left out. *)
Definition log (message level : string) (c : Console) : Console :=
  let prefix := if String.eqb level "error" then "ERROR: "%string else ""%string in
  mkConsole (debugLogging c) (console_lines c ++ [(prefix ++ message)%string]).

(** [logDebug(message)]. *)
Definition logDebug (message : string) (c : Console) : Console :=
  if debugLogging c
  then mkConsole true (console_lines c ++ [("[DB] " ++ message)%string])
  else c.

(* ================================================================== *)
(** * Fingerprints: [createEmbedding] and [cosineSimilarity] *)
(* ================================================================== *)

(** [Math.sin], [Math.cos] and [Math.tanh] are implementation-approximated
    in ECMAScript, so the engine's functions are a parameter; what the
    language fixes exactly, [Math.tanh(+0)] being [+0], comes with them. *)
Record MathObject : Type := mkMath {
  Math_sin : float -> float;
  Math_cos : float -> float;
  Math_tanh : float -> float;
  Math_tanh_zero : Math_tanh 0%float = 0%float
}.

(** The literal [0.01], as the nearest binary64 value. *)
Definition one_hundredth : float := 0x1.47ae147ae147bp-7%float.

(** The inner loop of [createEmbedding] for dimension [i]: [value] after
    the characters [codes], the first of which has index [j]. *)
Fixpoint embedding_loop (M : MathObject) (i : nat) (codes : list Z) (j : nat)
    (value : float) : float :=
  match codes with
  | [] => value
  | charCode :: rest =>
      embedding_loop M i rest (S j)
        (value +
         Math_sin M (number_of_Z charCode * number_of_Z (Z.of_nat i + 1)
                     * one_hundredth)
         * Math_cos M (number_of_Z (Z.of_nat j) * one_hundredth))%float
  end.

(** The [try] block of [createEmbedding].  [text] is [None] for a value that
    is not a string, on which [text.toLowerCase()] throws a TypeError. *)
Definition createEmbedding_try (M : MathObject) (text : option string)
    (dimensions : nat) (c : Console) : completion Float32Array * Console :=
  match text with
  | None => (Throw "text.toLowerCase is not a function", c)
  | Some t =>
      let normalizedText := trim (toLowerCase t) in
      let vector :=
        Float32Array_from
          (map (fun i =>
                  Math_tanh M
                    (embedding_loop M i (char_codes normalizedText) 0 0%float))
               (seq 0 dimensions)) in
      (Normal vector,
       logDebug ("Generated " ++ string_of_nat dimensions
                 ++ "-d embedding for text") c)
  end.

(** [createEmbedding(text, dimensions = 128)]. *)
Definition createEmbedding (M : MathObject) (text : option string)
    (dimensions : nat) (c : Console) : completion Float32Array * Console :=
  match createEmbedding_try M text dimensions c with
  | (Normal vector, c') => (Normal vector, c')
  | (Throw message, c') =>
      (Normal (Float32Array_new dimensions),
       log ("Error creating embedding: " ++ message) "error" c')
  end.

(** The three accumulators of the loop in [cosineSimilarity]. *)
Fixpoint cosine_loop (ab : list (float * float))
    (dotProduct normA normB : float) : float * float * float :=
  match ab with
  | [] => (dotProduct, normA, normB)
  | (x, y) :: rest =>
      cosine_loop rest (dotProduct + x * y)%float (normA + x * x)%float
        (normB + y * y)%float
  end.

(** [cosineSimilarity(a, b)]. *)
Definition cosineSimilarity (a b : Float32Array) : float :=
  if negb (f_length a =? f_length b)%nat then 0%float
  else
    let '(dotProduct, normA, normB) :=
      cosine_loop (combine (Float32Array_elements a) (Float32Array_elements b))
        0%float 0%float 0%float in
    let normA := sqrt normA in
    let normB := sqrt normB in
    if (normA =? 0)%float || (normB =? 0)%float then 0%float
    else (dotProduct / (normA * normB))%float.

(* ================================================================== *)
(** * The store *)
(* ================================================================== *)

(** Rows of the tables, with the columns the modelled statements read. *)
Record VectorRow : Type := mkVectorRow {
  v_id : positive;
  v_content_id : Z;
  v_content_type : string;
  v_vector : list byte;
  v_created_at : Z;
  v_metadata : option string
}.

Record MessageRow : Type := mkMessageRow {
  m_id : positive;
  m_role : string;
  m_content : string;
  m_created_at : Z;
  m_importance : option string
}.

Record ActiveFileRow : Type := mkActiveFileRow {
  af_id : positive;
  af_filename : string;
  af_last_accessed : Z
}.

Record MilestoneRow : Type := mkMilestoneRow {
  ms_id : positive;
  ms_title : string;
  ms_description : string;
  ms_importance : option string;
  ms_created_at : Z
}.

Record DecisionRow : Type := mkDecisionRow {
  d_id : positive;
  d_title : string;
  d_content : string;
  d_reasoning : string;
  d_importance : option string;
  d_created_at : Z
}.

Record RequirementRow : Type := mkRequirementRow {
  r_id : positive;
  r_title : string;
  r_content : string;
  r_importance : option string;
  r_created_at : Z
}.

Record EpisodeRow : Type := mkEpisodeRow {
  e_id : positive;
  e_actor : string;
  e_action : string;
  e_content : string;
  e_timestamp : Z;
  e_importance : option string;
  e_context : option string
}.

Record CodeFileRow : Type := mkCodeFileRow {
  cf_id : positive;
  cf_file_path : string;
  cf_language : string;
  cf_last_indexed : Z
}.

Record CodeSnippetRow : Type := mkCodeSnippetRow {
  cs_id : positive;
  cs_file_id : Z;
  cs_start_line : Z;
  cs_end_line : Z;
  cs_content : string;
  cs_symbol_type : string
}.

(** The tables, and [vectors_sequence], the [sqlite_sequence] entry of
    [vectors]: the largest rowid an INSERT has given out so far, 0 before the
    first. *)
Record Database : Type := mkDatabase {
  messages : list MessageRow;
  active_files : list ActiveFileRow;
  milestones : list MilestoneRow;
  decisions : list DecisionRow;
  requirements : list RequirementRow;
  episodes : list EpisodeRow;
  vectors : list VectorRow;
  code_files : list CodeFileRow;
  code_snippets : list CodeSnippetRow;
  vectors_sequence : Z
}.

(** Modelled from the spec: the store's native top-K primitive
    [vector_top_k(index, query, k)], a table-valued function of the database
    server and not of this repository.  For the rows of the indexed table, a
    query and a count it yields candidates, each the rowid of a stored
    fingerprint with its [similarity].  What the spec says of the primitive
    is [top_k_spec] below; the spec gives no order among the candidates and
    no rule for ties, and the model assumes none. *)
Definition TopK : Type := list VectorRow -> Buffer -> Z -> list (Z * float).

(** The globals of the server: the connection [db] ([None] for [null]), the
    flag [useInMemory], and the [vector_top_k] of the store ([None] where the
    store has no such function). *)
Record Server : Type := mkServer {
  db : option Database;
  useInMemory : bool;
  vector_index : option TopK
}.

Definition with_vectors (d : Database) (vs : list VectorRow) : Database :=
  mkDatabase (messages d) (active_files d) (milestones d) (decisions d)
    (requirements d) (episodes d) vs (code_files d) (code_snippets d)
    (vectors_sequence d).

Definition with_sequence (d : Database) (sequence : Z) : Database :=
  mkDatabase (messages d) (active_files d) (milestones d) (decisions d)
    (requirements d) (episodes d) (vectors d) (code_files d) (code_snippets d)
    sequence.

Definition with_db (st : Server) (d : Database) : Server :=
  mkServer (Some d) (useInMemory st) (vector_index st).

(** [ORDER BY key DESC]; rows with equal keys stay in rowid order. *)
Definition order_by_desc {A : Type} (key : A -> Z) (rows : list A) : list A :=
  stable_sort (fun x y => key x <? key y) rows.

(** [LIMIT n] for a count written in the statement. *)
Definition sql_limit {A : Type} (n : nat) (rows : list A) : list A :=
  firstn n rows.

(** A Number bound to an integer parameter of a statement ([LIMIT ?], the
    count of [vector_top_k]): SQLite takes a value that converts to a 64-bit
    integer without loss, and the statement fails on any other. *)
Definition sql_integer (x : float) : option Z :=
  match Prim2SF x with
  | S754_zero _ => Some 0
  | S754_finite s m e =>
      if 0 <=? e then
        let magnitude := Zpos m * 2 ^ e in
        if magnitude <? 2 ^ 63 + (if s then 1 else 0)
        then Some (if s then - magnitude else magnitude) else None
      else if Zpos m mod 2 ^ (- e) =? 0
      then let magnitude := Zpos m / 2 ^ (- e) in
           Some (if s then - magnitude else magnitude)
      else None
  | _ => None
  end.

(** [LIMIT ?] with an integer bound to it: a negative one is no limit. *)
Definition sql_limit_integer {A : Type} (n : Z) (rows : list A) : list A :=
  if n <? 0 then rows else firstn (Z.to_nat n) rows.

(** [importance IN ('high', 'medium', 'critical')]; a NULL is in no list. *)
Definition importance_in_long_term (importance : option string) : bool :=
  match importance with
  | Some i => String.eqb i "high" || String.eqb i "medium"
              || String.eqb i "critical"
  | None => false
  end.

(** [DELETE FROM vectors WHERE id = ?]. *)
Definition delete_vector (id : Z) (vs : list VectorRow) : list VectorRow :=
  filter (fun v => negb (Zpos (v_id v) =? id)) vs.

(** [SELECT ... FROM vectors WHERE id = ?] through [get]: the first row. *)
Definition get_vector (id : Z) (vs : list VectorRow) : option VectorRow :=
  find (fun v => Zpos (v_id v) =? id) vs.

(** The largest rowid in the table, 0 for an empty one. *)
Definition max_vector_id (vs : list VectorRow) : Z :=
  fold_right (fun v acc => Z.max (Zpos (v_id v)) acc) 0 vs.

(** The rowid AUTOINCREMENT gives the next vector: one above the largest
    rowid that is or ever was in the table. *)
Definition next_vector_id (d : Database) : positive :=
  Z.to_pos (Z.max (vectors_sequence d) (max_vector_id (vectors d)) + 1).

(** [INSERT INTO vectors ...]: the row goes to the end of the table and the
    counter moves to its rowid. *)
Definition insert_vector (d : Database) (row : VectorRow) : Database :=
  with_sequence (with_vectors d (vectors d ++ [row])) (Zpos (v_id row)).

(* ================================================================== *)
(** * Similarity search: [findSimilarVectors] *)
(* ================================================================== *)

(** A result row: [id, content_id, content_type, similarity], and on the
    fallback path, where the row is [{...row, similarity}], the stored
    [vector] as well. *)
Record SimilarRow : Type := mkSimilarRow {
  s_id : positive;
  s_content_id : Z;
  s_content_type : string;
  s_vector : option (list byte);
  s_similarity : float
}.

(** The similarity of a stored row to the query as the fallback computes
    it, from what [bufferToVector] makes of the row's [vector]. *)
Definition row_similarity (queryVector : Float32Array) (row : VectorRow)
    : float :=
  cosineSimilarity queryVector (bufferToVector_ArrayBuffer (v_vector row)).

Definition content_type_is (contentType : string) (row : VectorRow) : bool :=
  String.eqb (v_content_type row) contentType.

(** [FROM vector_top_k(...) AS v JOIN vectors ON vectors.id = v.rowid]: each
    candidate with the rows of the table that have its rowid. *)
Definition join_vectors (vs : list VectorRow) (candidates : list (Z * float))
    : list (VectorRow * float) :=
  flat_map (fun c =>
              map (fun row => (row, snd c))
                (filter (fun row => Zpos (v_id row) =? fst c) vs))
    candidates.

(** The first path of [findSimilarVectors]: [vector_top_k] with [limit * 2]
    candidates, joined with [vectors], filtered and cut by [LIMIT].  [None]
    when the statement fails, which it does when a bound count is no
    integer. *)
Definition findSimilarVectors_index (K : TopK) (d : Database)
    (queryVector : Float32Array) (contentType : option string)
    (limit threshold : float) : option (list SimilarRow) :=
  let queryBuffer := vectorToBuffer queryVector in
  match sql_integer (limit * 2)%float, sql_integer limit with
  | Some k, Some n =>
      let candidates :=
        join_vectors (vectors d) (K (vectors d) queryBuffer k) in
      let selected :=
        if truthy_string contentType then
          filter (fun c => content_type_is (match contentType with
                                            | Some t => t | None => ""%string
                                            end) (fst c)
                           && number_ge (snd c) threshold) candidates
        else filter (fun c => number_ge (snd c) threshold) candidates in
      Some (map (fun c => mkSimilarRow (v_id (fst c)) (v_content_id (fst c))
                            (v_content_type (fst c)) None (snd c))
              (sql_limit_integer n selected))
  | _, _ => None
  end.

(** The second path: the full scan with [cosineSimilarity] in process. *)
Definition findSimilarVectors_scan (d : Database) (queryVector : Float32Array)
    (contentType : option string) (limit threshold : float)
    : list SimilarRow :=
  let allVectors :=
    if truthy_string contentType then
      filter (content_type_is (match contentType with
                               | Some t => t | None => ""%string end))
        (vectors d)
    else vectors d in
  let withSimilarity :=
    map (fun row =>
           mkSimilarRow (v_id row) (v_content_id row) (v_content_type row)
             (Some (v_vector row)) (row_similarity queryVector row))
      allVectors in
  Array_slice0
    (Array_sort (fun a b => (s_similarity b - s_similarity a)%float)
       (filter (fun row => number_ge (s_similarity row) threshold)
          withSimilarity))
    limit.

(** [findSimilarVectors(queryVector, contentType = null, limit = 10,
    threshold = 0.7)].  Without a connection the function throws and its
    outer [catch] returns the empty array; a failing statement of the first
    path sends it to the scan. *)
Definition findSimilarVectors (st : Server) (queryVector : Float32Array)
    (contentType : option string) (limit threshold : float)
    : list SimilarRow :=
  match db st with
  | None => []
  | Some d =>
      let indexed :=
        match vector_index st with
        | Some K =>
            findSimilarVectors_index K d queryVector contentType limit
              threshold
        | None => None
        end in
      match indexed with
      | Some results => results
      | None => findSimilarVectors_scan d queryVector contentType limit
                  threshold
      end
  end.

(* ================================================================== *)
(** * Relevance scoring: [scoreItemsByRelevance] *)
(* ================================================================== *)

(** An item with the [relevance] property the scorer adds; [None] for an
    item that went through unscored and has no such property. *)
Record Scored (A : Type) : Type := mkScored {
  item : A;
  relevance : option float
}.
Arguments mkScored {A} item relevance.
Arguments item {A} s.
Arguments relevance {A} s.

Definition unscored {A : Type} (items : list A) : list (Scored A) :=
  map (fun i => mkScored i None) items.

(** The relevance as a Number; [undefined] compares and subtracts as NaN. *)
Definition relevance_number {A : Type} (s : Scored A) : float :=
  match relevance s with
  | Some r => r
  | None => nan
  end.

(** A JavaScript [Map] with Number keys, in insertion order. *)
Fixpoint Map_set {V : Type} (m : list (Z * V)) (k : Z) (v : V)
    : list (Z * V) :=
  match m with
  | [] => [(k, v)]
  | (k', v') :: r =>
      if k =? k' then (k, v) :: r else (k', v') :: Map_set r k v
  end.

Fixpoint Map_get {V : Type} (m : list (Z * V)) (k : Z) : option V :=
  match m with
  | [] => None
  | (k', v') :: r => if k =? k' then Some v' else Map_get r k
  end.

(** The [forEach] that fills [vectorMap]. *)
Fixpoint fill_vectorMap (vs : list VectorRow)
    (vectorMap : list (Z * Float32Array)) : list (Z * Float32Array) :=
  match vs with
  | [] => vectorMap
  | v :: rest =>
      fill_vectorMap rest
        (Map_set vectorMap (v_content_id v)
           (bufferToVector_ArrayBuffer (v_vector v)))
  end.

(** [scoreItemsByRelevance(items, queryVector, primaryType,
    secondaryType = null, threshold = 0.5)] for items whose [id] is read by
    [item_id]. *)
Definition scoreItemsByRelevance {A : Type} (item_id : A -> positive)
    (st : Server) (items : list A) (queryVector : option Float32Array)
    (primaryType : string) (secondaryType : option string)
    (threshold : float) : list (Scored A) :=
  match items, queryVector with
  | [], _ => unscored items
  | _, None => unscored items
  | _, Some q =>
      match db st with
      | None => unscored items
      | Some d =>
          let selected :=
            if truthy_string secondaryType then
              filter (fun v =>
                        content_type_is primaryType v
                        || content_type_is
                             (match secondaryType with
                              | Some t => t | None => ""%string end) v)
                (vectors d)
            else filter (content_type_is primaryType) (vectors d) in
          let vectorMap := fill_vectorMap selected [] in
          let scoredItems :=
            map (fun i =>
                   mkScored i
                     (Some match Map_get vectorMap (Zpos (item_id i)) with
                           | Some itemVector => cosineSimilarity q itemVector
                           | None => 0%float
                           end)) items in
          Array_sort
            (fun a b => (relevance_number b - relevance_number a)%float)
            (filter (fun s => number_ge (relevance_number s) threshold)
               scoredItems)
      end
  end.

(* ================================================================== *)
(** * Semantic lookup: [findSimilarItems], [groupSimilarSnippetsByFile] *)
(* ================================================================== *)

(** What [findSimilarItems] adds to an item when the owning row is found. *)
Inductive ItemDetail : Type :=
  | NoDetail
  | MessageDetail (role content created_at : string)
      (importance : option string)
  | FileDetail (path language last_indexed : string)
  | SnippetDetail (content file_path lines symbol_type : string).

Record SemanticItem : Type := mkSemanticItem {
  si_id : Z;
  si_type : string;
  si_similarity : float;
  si_detail : ItemDetail
}.

Record SnippetGroup : Type := mkSnippetGroup {
  g_file_path : option string;
  g_relevance : float;
  g_snippets : list SemanticItem
}.

(** [snippet.file_path]; [None] is [undefined]. *)
Definition si_file_path (s : SemanticItem) : option string :=
  match si_detail s with
  | SnippetDetail _ file_path _ _ => Some file_path
  | _ => None
  end.

Definition same_key (a b : option string) : bool :=
  match a, b with
  | Some x, Some y => String.eqb x y
  | None, None => true
  | _, _ => false
  end.

(** One round of the [forEach] in [groupSimilarSnippetsByFile]. *)
Fixpoint group_add (fileGroups : list SnippetGroup) (snippet : SemanticItem)
    : list SnippetGroup :=
  match fileGroups with
  | [] => [mkSnippetGroup (si_file_path snippet) (si_similarity snippet)
             [snippet]]
  | g :: rest =>
      if same_key (g_file_path g) (si_file_path snippet) then
        mkSnippetGroup (g_file_path g)
          (if (g_relevance g <? si_similarity snippet)%float
           then si_similarity snippet else g_relevance g)
          (g_snippets g ++ [snippet]) :: rest
      else g :: group_add rest snippet
  end.

(** [groupSimilarSnippetsByFile(snippets)]. *)
Definition groupSimilarSnippetsByFile (snippets : list SemanticItem)
    : list SnippetGroup :=
  match snippets with
  | [] => []
  | _ =>
      Array_sort (fun a b => (g_relevance b - g_relevance a)%float)
        (fold_left group_add snippets [])
  end.

(** The detail lookup for one similar vector. *)
Definition item_detail (toISOString : Z -> string) (d : Database)
    (vector : SimilarRow) : ItemDetail :=
  let content_type := s_content_type vector in
  let content_id := s_content_id vector in
  if String.eqb content_type "user_message"
     || String.eqb content_type "assistant_message" then
    match find (fun m => Zpos (m_id m) =? content_id) (messages d) with
    | Some message =>
        MessageDetail (m_role message) (m_content message)
          (toISOString (m_created_at message)) (m_importance message)
    | None => NoDetail
    end
  else if String.eqb content_type "code_file" then
    match find (fun f => Zpos (cf_id f) =? content_id) (code_files d) with
    | Some file =>
        FileDetail (cf_file_path file) (cf_language file)
          (toISOString (cf_last_indexed file))
    | None => NoDetail
    end
  else if String.eqb content_type "code_snippet" then
    match find (fun s => Zpos (cs_id s) =? content_id) (code_snippets d) with
    | Some cs =>
        match find (fun f => Zpos (cf_id f) =? cs_file_id cs)
                (code_files d) with
        | Some cf =>
            SnippetDetail (cs_content cs) (cf_file_path cf)
              (string_of_Z (cs_start_line cs) ++ "-"
               ++ string_of_Z (cs_end_line cs))
              (cs_symbol_type cs)
        | None => NoDetail
        end
    | None => NoDetail
    end
  else NoDetail.

(** [findSimilarItems(queryVector, contentType, alternativeType = null,
    limit = 3, threshold = 0.5)]. *)
Definition findSimilarItems (toISOString : Z -> string) (st : Server)
    (queryVector : Float32Array) (contentType : string)
    (alternativeType : option string) (limit threshold : float)
    : list SemanticItem :=
  let similarVectors :=
    if truthy_string alternativeType then
      let type1Results :=
        findSimilarVectors st queryVector (Some contentType) limit
          threshold in
      let type2Results :=
        findSimilarVectors st queryVector alternativeType limit threshold in
      Array_slice0
        (Array_sort (fun a b => (s_similarity b - s_similarity a)%float)
           (type1Results ++ type2Results))
        limit
    else findSimilarVectors st queryVector (Some contentType) limit
           threshold in
  match db st with
  | None => []
  | Some d =>
      map (fun vector =>
             mkSemanticItem (s_content_id vector) (s_content_type vector)
               (s_similarity vector) (item_detail toISOString d vector))
        similarVectors
  end.

(* ================================================================== *)
(** * Context assembly: [getComprehensiveContext] *)
(* ================================================================== *)

(** An output item [{...row, <time>: ISO string, relevance}]: the row it was
    built from, the rendered time, and the relevance ([None] is [null]). *)
Record ContextItem (A : Type) : Type := mkContextItem {
  source : A;
  iso_time : string;
  ci_relevance : option float
}.
Arguments mkContextItem {A} source iso_time ci_relevance.
Arguments source {A} c.
Arguments iso_time {A} c.
Arguments ci_relevance {A} c.

Record ShortTerm : Type := mkShortTerm {
  recentMessages : list (ContextItem MessageRow);
  activeFiles : list (ContextItem ActiveFileRow)
}.

Record LongTerm : Type := mkLongTerm {
  lt_milestones : list (ContextItem MilestoneRow);
  lt_decisions : list (ContextItem DecisionRow);
  lt_requirements : list (ContextItem RequirementRow)
}.

Record Episodic : Type := mkEpisodic {
  recentEpisodes : list (ContextItem EpisodeRow)
}.

(** The [semantic] property: the initial [{}], the three lists, or
    [{ error }]. *)
Inductive Semantic : Type :=
  | SemanticEmpty
  | SemanticContent (similarMessages similarFiles : list SemanticItem)
      (similarSnippets : list SnippetGroup)
  | SemanticError (message : string).

(** The snapshot; a partition that is [None] is still the initial [{}].
    The [system] property (a constant flag and the clock) is left out. *)
Record Context : Type := mkContext {
  shortTerm : option ShortTerm;
  longTerm : option LongTerm;
  episodic : option Episodic;
  semantic : Semantic;
  context_error : option string
}.

(** The engine functions the assembler calls. *)
Record Runtime : Type := mkRuntime {
  rt_Math : MathObject;
  Date_toISOString : Z -> string
}.

(** [rows.map(row => ({...row, time: new Date(row.time).toISOString(),
    relevance: row.relevance || null}))]. *)
Definition context_items {A : Type} (rt : Runtime) (time : A -> Z)
    (rows : list (Scored A)) : list (ContextItem A) :=
  map (fun s => mkContextItem (item s) (Date_toISOString rt (time (item s)))
                  (or_null (relevance s))) rows.

(** One partition: score and take the [n] most relevant when there is a
    query vector, else take the [n] first rows. *)
Definition pick {A : Type} (item_id : A -> positive) (st : Server)
    (rows : list A) (queryVector : option Float32Array)
    (primaryType : string) (secondaryType : option string) (n : float)
    : list (Scored A) :=
  match queryVector with
  | Some _ =>
      Array_slice0
        (scoreItemsByRelevance item_id st rows queryVector primaryType
           secondaryType 0.5%float)
        n
  | None => Array_slice0 (unscored rows) n
  end.

(** The literal [0.6]. *)
Definition six_tenths : float := 0x1.3333333333333p-1%float.

(** [getComprehensiveContext(userMessage = null)].  With [db] being [null]
    the first [db.prepare] throws and the [catch] records the message. *)
Definition getComprehensiveContext (rt : Runtime) (st : Server)
    (userMessage : option string) (c : Console) : Context :=
  let queryVector :=
    if truthy_string userMessage then
      match fst (createEmbedding (rt_Math rt) userMessage 128 c) with
      | Normal v => Some v
      | Throw _ => None
      end
    else None in
  match db st with
  | None =>
      mkContext None None None SemanticEmpty
        (Some "Cannot read properties of null (reading 'prepare')"%string)
  | Some d =>
      let messages := sql_limit 15 (order_by_desc m_created_at (messages d)) in
      let scoredMessages :=
        pick m_id st messages queryVector "user_message"
          (Some "assistant_message"%string) 5%float in
      let files :=
        sql_limit 10 (order_by_desc af_last_accessed (active_files d)) in
      let scoredFiles :=
        pick af_id st files queryVector "code_file" None 5%float in
      let milestones :=
        sql_limit 10 (order_by_desc ms_created_at (milestones d)) in
      let decisions :=
        sql_limit 10
          (order_by_desc d_created_at
             (filter (fun r => importance_in_long_term (d_importance r))
                (decisions d))) in
      let requirements :=
        sql_limit 10
          (order_by_desc r_created_at
             (filter (fun r => importance_in_long_term (r_importance r))
                (requirements d))) in
      let scoredMilestones :=
        pick ms_id st milestones queryVector "milestone" None 3%float in
      let scoredDecisions :=
        pick d_id st decisions queryVector "decision" None 3%float in
      let scoredRequirements :=
        pick r_id st requirements queryVector "requirement" None 3%float in
      let episodes := sql_limit 15 (order_by_desc e_timestamp (episodes d)) in
      let scoredEpisodes :=
        pick e_id st episodes queryVector "episode" None 5%float in
      let semantic :=
        match queryVector with
        | Some q =>
            if truthy_string userMessage then
              let similarMessages :=
                findSimilarItems (Date_toISOString rt) st q "user_message"
                  (Some "assistant_message"%string) 3%float six_tenths in
              let similarFiles :=
                findSimilarItems (Date_toISOString rt) st q "code_file" None
                  2%float six_tenths in
              let similarSnippets :=
                findSimilarItems (Date_toISOString rt) st q "code_snippet"
                  None 3%float six_tenths in
              SemanticContent similarMessages similarFiles
                (groupSimilarSnippetsByFile similarSnippets)
            else SemanticEmpty
        | None => SemanticEmpty
        end in
      mkContext
        (Some (mkShortTerm (context_items rt m_created_at scoredMessages)
                 (context_items rt af_last_accessed scoredFiles)))
        (Some (mkLongTerm (context_items rt ms_created_at scoredMilestones)
                 (context_items rt d_created_at scoredDecisions)
                 (context_items rt r_created_at scoredRequirements)))
        (Some (mkEpisodic (context_items rt e_timestamp scoredEpisodes)))
        semantic None
  end.

(* ================================================================== *)
(** * The [manageVector] tool *)
(* ================================================================== *)

(** The [vector] argument: absent (or otherwise falsy), an array of Numbers,
    or some other truthy value. *)
Inductive VectorArg : Type :=
  | VectorMissing
  | VectorArray (numbers : list float)
  | VectorOther.

(** The arguments object of a tool call, with the properties the modelled
    handlers read; [None] is [undefined].  [a_metadata] is the metadata
    object in its [JSON.stringify] form. *)
Record Args : Type := mkArgs {
  a_operation : option string;
  a_contentId : option Z;
  a_contentType : option string;
  a_vector : VectorArg;
  a_metadata : option string;
  a_vectorId : option Z;
  a_limit : option float;
  a_threshold : option float;
  a_query : option string
}.

(** The JSON body of a tool result. *)
Inductive ResultBody : Type :=
  | ErrorBody (error : string)
  | StoreResult (contentId : Z) (contentType : string)
      (vectorDimensions : nat) (timestamp : Z)
  | SearchResult (results : list SimilarRow)
  | UpdateResult (vectorId contentId : Z) (contentType : string)
      (vectorDimensions : nat) (timestamp : Z)
  | DeleteResult (vectorId : Z) (deleted : bool) (timestamp : Z)
  | ContextResult (context : Context)
  | OtherResult (text : string).

Record ToolResult : Type := mkToolResult {
  body : ResultBody;
  isError : bool
}.

Definition error_result (message : string) : ToolResult :=
  mkToolResult (ErrorBody message) true.

(** A Number argument is truthy when it is present and not zero. *)
Definition truthy_number (n : option Z) : bool :=
  match n with
  | Some z => negb (z =? 0)
  | None => false
  end.

Definition vector_missing (v : VectorArg) : bool :=
  match v with VectorMissing => true | _ => false end.

Definition null_prepare : string :=
  "Cannot read properties of null (reading 'prepare')".

(** The literal [0.7]. *)
Definition seven_tenths : float := 0x1.6666666666666p-1%float.

(** [storeEmbedding(contentId, contentType, vector, metadata)]: the store
    after the INSERT, or the thrown message; [now] is its [Date.now()]. *)
Definition storeEmbedding (now : Z) (st : Server) (contentId : Z)
    (contentType : string) (vector : Float32Array) (metadata : option string)
    : completion Server :=
  match db st with
  | None => Throw "Database not initialized"
  | Some d =>
      let vectorBuffer := vectorToBuffer vector in
      Normal
        (with_db st
           (insert_vector d
              (mkVectorRow (next_vector_id d) contentId contentType
                 (Buffer_bytes vectorBuffer) now metadata)))
  end.

(** [UPDATE vectors SET vector = ?, metadata = ?, created_at = ?
    WHERE id = ?]. *)
Definition update_vector (id : Z) (blob : list byte)
    (metadata : option string) (now : Z) (vs : list VectorRow)
    : list VectorRow :=
  map (fun v =>
         if Zpos (v_id v) =? id
         then mkVectorRow (v_id v) (v_content_id v) (v_content_type v) blob
                now metadata
         else v) vs.

(** The [try] block of the [manageVector] case.  [now] is the [Date.now()]
    that dates the row ([store], [update]) or the result ([delete]); [later]
    is the second reading of the clock a [store] makes, for the [timestamp]
    of its result. *)
Definition manageVector_try (now later : Z) (st : Server) (args : Args)
    : completion (ToolResult * Server) :=
  let metadata := a_metadata args in
  let limit := match a_limit args with Some n => n | None => 10%float end in
  let threshold :=
    match a_threshold args with Some t => t | None => seven_tenths end in
  if negb (truthy_string (a_operation args)) then
    Throw "Operation is required for manageVector tool"
  else if useInMemory st then
    Throw "Vector operations not supported in in-memory mode"
  else
    let operation :=
      match a_operation args with Some o => o | None => ""%string end in
    if String.eqb operation "store" then
      if negb (truthy_number (a_contentId args))
         || negb (truthy_string (a_contentType args))
         || vector_missing (a_vector args) then
        Throw "contentId, contentType, and vector are required for store operation"
      else
        match a_vector args, a_contentId args, a_contentType args with
        | VectorArray numbers, Some contentId, Some contentType =>
            let vectorArray := Float32Array_from numbers in
            match storeEmbedding now st contentId contentType vectorArray
                    metadata with
            | Throw message => Throw message
            | Normal st' =>
                Normal
                  (mkToolResult
                     (StoreResult contentId contentType
                        (f_length vectorArray) later) false, st')
            end
        | _, _, _ => Throw "Vector must be provided as an array"
        end
    else if String.eqb operation "search" then
      if vector_missing (a_vector args) then
        Throw "Vector is required for search operation"
      else
        match a_vector args with
        | VectorArray numbers =>
            let queryVector := Float32Array_from numbers in
            let similarVectors :=
              findSimilarVectors st queryVector (a_contentType args) limit
                threshold in
            Normal (mkToolResult (SearchResult similarVectors) false, st)
        | _ => Throw "Vector must be provided as an array"
        end
    else if String.eqb operation "update" then
      if negb (truthy_number (a_vectorId args))
         || vector_missing (a_vector args) then
        Throw "vectorId and vector are required for update operation"
      else
        match a_vector args, a_vectorId args with
        | VectorArray numbers, Some vectorId =>
            let vectorArray := Float32Array_from numbers in
            match db st with
            | None => Throw null_prepare
            | Some d =>
                match get_vector vectorId (vectors d) with
                | None =>
                    Throw ("Vector with ID " ++ string_of_Z vectorId
                           ++ " not found")
                | Some existingVector =>
                    let vectorBuffer := vectorToBuffer vectorArray in
                    Normal
                      (mkToolResult
                         (UpdateResult vectorId
                            (v_content_id existingVector)
                            (v_content_type existingVector)
                            (f_length vectorArray) now) false,
                       with_db st
                         (with_vectors d
                            (update_vector vectorId
                               (Buffer_bytes vectorBuffer) metadata now
                               (vectors d))))
                end
            end
        | _, _ => Throw "Vector must be provided as an array"
        end
    else if String.eqb operation "delete" then
      if negb (truthy_number (a_vectorId args)) then
        Throw "vectorId is required for delete operation"
      else
        match a_vectorId args, db st with
        | Some vectorId, Some d =>
            match get_vector vectorId (vectors d) with
            | None =>
                Throw ("Vector with ID " ++ string_of_Z vectorId
                       ++ " not found")
            | Some _ =>
                Normal
                  (mkToolResult (DeleteResult vectorId true now) false,
                   with_db st
                     (with_vectors d (delete_vector vectorId (vectors d))))
            end
        | _, _ => Throw null_prepare
        end
    else
      Throw ("Unknown operation: " ++ operation
             ++ ". Supported operations are: store, search, update, delete").

(** The [manageVector] case with its [catch]. *)
Definition manageVector (now later : Z) (st : Server) (args : Args)
    : ToolResult * Server :=
  match manageVector_try now later st args with
  | Normal r => r
  | Throw message => (error_result message, st)
  end.

(* ================================================================== *)
(** * The tool list and the call dispatcher *)
(* ================================================================== *)

(** The keys of [MEMORY_TOOLS]. *)
Inductive Tool : Type :=
  | BANNER | HEALTH | INIT_CONVERSATION | END_CONVERSATION
  | STORE_USER_MESSAGE | STORE_ASSISTANT_MESSAGE | TRACK_ACTIVE_FILE
  | GET_RECENT_MESSAGES | GET_ACTIVE_FILES | STORE_MILESTONE | STORE_DECISION
  | STORE_REQUIREMENT | RECORD_EPISODE | GET_RECENT_EPISODES
  | GET_COMPREHENSIVE_CONTEXT | GET_MEMORY_STATS | MANAGE_VECTOR.

(** [MEMORY_TOOLS.<key>.name]. *)
Definition tool_name (t : Tool) : string :=
  match t with
  | BANNER => "generateBanner"
  | HEALTH => "checkHealth"
  | INIT_CONVERSATION => "initConversation"
  | END_CONVERSATION => "endConversation"
  | STORE_USER_MESSAGE => "storeUserMessage"
  | STORE_ASSISTANT_MESSAGE => "storeAssistantMessage"
  | TRACK_ACTIVE_FILE => "trackActiveFile"
  | GET_RECENT_MESSAGES => "getRecentMessages"
  | GET_ACTIVE_FILES => "getActiveFiles"
  | STORE_MILESTONE => "storeMilestone"
  | STORE_DECISION => "storeDecision"
  | STORE_REQUIREMENT => "storeRequirement"
  | RECORD_EPISODE => "recordEpisode"
  | GET_RECENT_EPISODES => "getRecentEpisodes"
  | GET_COMPREHENSIVE_CONTEXT => "getComprehensiveContext"
  | GET_MEMORY_STATS => "getMemoryStats"
  | MANAGE_VECTOR => "manageVector"
  end.

(** [Object.values(MEMORY_TOOLS)], in the order of the object literal. *)
Definition MEMORY_TOOLS : list Tool :=
  [ BANNER; HEALTH; INIT_CONVERSATION; END_CONVERSATION; STORE_USER_MESSAGE;
    STORE_ASSISTANT_MESSAGE; TRACK_ACTIVE_FILE; GET_RECENT_MESSAGES;
    GET_ACTIVE_FILES; STORE_MILESTONE; STORE_DECISION; STORE_REQUIREMENT;
    RECORD_EPISODE; GET_RECENT_EPISODES; GET_COMPREHENSIVE_CONTEXT;
    GET_MEMORY_STATS; MANAGE_VECTOR ].

(** The names the ListTools handler returns. *)
Definition listTools : list string := map tool_name MEMORY_TOOLS.

(** The [case] labels of the [switch (name)], in source order. *)
Definition switch_cases : list Tool :=
  [ BANNER; HEALTH; INIT_CONVERSATION; STORE_USER_MESSAGE; TRACK_ACTIVE_FILE;
    GET_RECENT_MESSAGES; GET_ACTIVE_FILES; STORE_MILESTONE; STORE_DECISION;
    STORE_REQUIREMENT; RECORD_EPISODE; GET_RECENT_EPISODES;
    GET_COMPREHENSIVE_CONTEXT; GET_MEMORY_STATS; END_CONVERSATION;
    MANAGE_VECTOR ].

Definition noArgsTools : list Tool :=
  [ BANNER; HEALTH; GET_COMPREHENSIVE_CONTEXT; GET_MEMORY_STATS ].

Definition includes_name (tools : list Tool) (name : string) : bool :=
  existsb (fun t => String.eqb (tool_name t) name) tools.

(** The first [case] whose label equals [name]. *)
Definition switch_case (name : string) : option Tool :=
  find (fun t => String.eqb (tool_name t) name) switch_cases.

(** The CallTool request handler.  [handlers] stands for the bodies of the
    cases that are not modelled here, each with its own error handling. *)
Definition callTool
    (handlers : Tool -> option Args -> Server -> ToolResult * Server)
    (rt : Runtime) (now later : Z) (c : Console) (st : Server)
    (name : string) (args : option Args) : ToolResult * Server :=
  if match args with None => true | Some _ => false end
     && negb (includes_name noArgsTools name)
  then (error_result "No arguments provided", st)
  else
    match switch_case name with
    | Some GET_COMPREHENSIVE_CONTEXT =>
        let query :=
          match args with Some a => a_query a | None => None end in
        (mkToolResult (ContextResult (getComprehensiveContext rt st query c))
           false, st)
    | Some MANAGE_VECTOR =>
        match args with
        | Some a => manageVector now later st a
        | None => (error_result "No arguments provided", st)
        end
    | Some t => handlers t args st
    | None => (error_result ("Unknown tool: " ++ name), st)
    end.

(* ================================================================== *)
(** * Maintenance: [performVectorMaintenance] *)
(* ================================================================== *)

Record MaintenanceOptions : Type := mkOptions {
  o_forceRebuild : option bool;
  o_cleanOrphans : option bool;
  o_optimizeStorage : option bool
}.

(** [performVectorMaintenance()] is called with [options = {}]. *)
Definition no_options : MaintenanceOptions := mkOptions None None None.

Record MaintenanceResults : Type := mkResults {
  indexesRebuilt : bool;
  orphansRemoved : nat;
  vectorsOptimized : nat;
  errors : list string
}.

Definition type_in (types : list string) (v : VectorRow) : bool :=
  existsb (String.eqb (v_content_type v)) types.

Definition message_types : list string :=
  [ "user_message"; "assistant_message"; "assistant_code_snippet" ]%string.

(** The three SELECTs with a LEFT JOIN and [... IS NULL]. *)
Definition orphanedMessageVectors (d : Database) (vs : list VectorRow)
    : list VectorRow :=
  filter (fun v =>
            type_in message_types v
            && negb (existsb (fun m => v_content_id v =? Zpos (m_id m))
                       (messages d))) vs.

Definition orphanedFileVectors (d : Database) (vs : list VectorRow)
    : list VectorRow :=
  filter (fun v =>
            type_in ["code_file"%string] v
            && negb (existsb (fun f => v_content_id v =? Zpos (cf_id f))
                       (code_files d))) vs.

Definition orphanedSnippetVectors (d : Database) (vs : list VectorRow)
    : list VectorRow :=
  filter (fun v =>
            type_in ["code_snippet"%string] v
            && negb (existsb (fun s => v_content_id v =? Zpos (cs_id s))
                       (code_snippets d))) vs.

(** [for (const vector of found) DELETE FROM vectors WHERE id = vector.id]. *)
Definition delete_each (found : list VectorRow) (vs : list VectorRow)
    : list VectorRow :=
  fold_left (fun acc v => delete_vector (Zpos (v_id v)) acc) found vs.

Definition content_key (v : VectorRow) : Z * string :=
  (v_content_id v, v_content_type v).

Definition content_key_dec (a b : Z * string) : {a = b} + {a <> b}.
Proof. decide equality; [apply string_dec | apply Z.eq_dec]. Defined.

Definition has_content_key (k : Z * string) (v : VectorRow) : bool :=
  if content_key_dec (content_key v) k then true else false.

(** [SELECT content_id, content_type, COUNT( * ) FROM vectors
    GROUP BY content_id, content_type HAVING COUNT( * ) > 1]. *)
Definition duplicate_keys (vs : list VectorRow) : list (Z * string) :=
  filter (fun k => (1 <? List.length (filter (has_content_key k) vs))%nat)
    (nodup content_key_dec (map content_key vs)).

(** One round of the loop over [duplicates]: the rows of the key, newest
    first, and all but the first deleted. *)
Definition collapse_duplicates (acc : list VectorRow * nat) (k : Z * string)
    : list VectorRow * nat :=
  let vs := fst acc in
  let found := order_by_desc v_created_at (filter (has_content_key k) vs) in
  (delete_each (tl found) vs, (snd acc + List.length (tl found))%nat).

Definition option_default (o : option bool) (default : bool) : bool :=
  match o with Some b => b | None => default end.

(** [performVectorMaintenance(options = {})]. *)
Definition performVectorMaintenance (st : Server)
    (options : MaintenanceOptions) : MaintenanceResults * Server :=
  let forceRebuild := option_default (o_forceRebuild options) false in
  let cleanOrphans := option_default (o_cleanOrphans options) true in
  let optimizeStorage := option_default (o_optimizeStorage options) true in
  match db st with
  | Some d =>
      if useInMemory st then
        (mkResults false 0 0
           ["Vector maintenance failed: Database not available or using in-memory storage"%string],
         st)
      else
        let indexesRebuilt := forceRebuild in
        let vs0 := vectors d in
        let '(vs1, orphansRemoved) :=
          if cleanOrphans then
            let foundMessages := orphanedMessageVectors d vs0 in
            let va := delete_each foundMessages vs0 in
            let foundFiles := orphanedFileVectors d va in
            let vb := delete_each foundFiles va in
            let foundSnippets := orphanedSnippetVectors d vb in
            let vc := delete_each foundSnippets vb in
            (vc, (List.length foundMessages + List.length foundFiles
                  + List.length foundSnippets)%nat)
          else (vs0, 0%nat) in
        let '(vs2, vectorsOptimized) :=
          if optimizeStorage then
            fold_left collapse_duplicates (duplicate_keys vs1) (vs1, 0%nat)
          else (vs1, 0%nat) in
        (mkResults indexesRebuilt orphansRemoved vectorsOptimized [],
         with_db st (with_vectors d vs2))
  | None =>
      (mkResults false 0 0
         ["Vector maintenance failed: Database not available or using in-memory storage"%string],
       st)
  end.

(* ================================================================== *)
(** * Vocabulary of the statements *)
(* ================================================================== *)

(** The rank of a binary64 value that is not NaN: sign class, then exponent
    and mantissa, both negated for negative values.  [SFcompare] is the
    lexicographic comparison of ranks. *)
Definition key (x : spec_float) : Z * Z * Z :=
  match x with
  | S754_nan => (0, 0, 0)
  | S754_zero _ => (0, 0, 0)
  | S754_infinity s => (if s then -2 else 2, 0, 0)
  | S754_finite s m e => if s then (-1, - e, - Zpos m) else (1, e, Zpos m)
  end.

Definition lex_lt (a b : Z * Z * Z) : Prop :=
  fst (fst a) < fst (fst b) \/
  (fst (fst a) = fst (fst b) /\
   (snd (fst a) < snd (fst b) \/
    (snd (fst a) = snd (fst b) /\ snd a < snd b))).

Definition lex (a b : Z * Z * Z) : comparison :=
  match fst (fst a) ?= fst (fst b) with
  | Eq => match snd (fst a) ?= snd (fst b) with
          | Eq => snd a ?= snd b
          | c => c
          end
  | c => c
  end.

Definition fkey (x : float) : Z * Z * Z := key (Prim2SF x).

(** [x] is a Number other than NaN. *)
Definition not_nan (x : float) : Prop := is_nan x = false.

(** Descending order of Numbers: [y <= x]. *)
Definition num_ge (x y : float) : Prop := (y <=? x)%float = true.

(** [x] may stay in front of [y]. *)
Definition not_behind {A : Type} (behind : A -> A -> bool) (x y : A) : Prop :=
  behind x y = false.

(** The comparator [(a, b) => key(b) - key(a)] as a test. *)
Definition behind_by {A : Type} (key : A -> float) (x y : A) : bool :=
  (0 <? key y - key x)%float.

(** Descending order of the keys of two items. *)
Definition descending {A : Type} (key : A -> float) (x y : A) : Prop :=
  num_ge (key x) (key y).

(** A 32-bit pattern. *)
Definition word32 (w : Z) : Z := w mod 2 ^ 32.

(** An engine for examples: crude stand-ins for [Math.sin] and [Math.cos]
    and a saturating [x / (1 + |x|)] for [Math.tanh]. *)
Definition sample_Math : MathObject :=
  mkMath (fun x => (x / (1 + abs x))%float)
         (fun x => (1 / (1 + x * x))%float)
         (fun x => (x / (1 + abs x))%float)
         eq_refl.

Definition sample_runtime : Runtime := mkRuntime sample_Math string_of_Z.

Definition quiet_console : Console := mkConsole false [].


(** Every item of a partition carries [relevance: null]. *)
Definition all_null {A : Type} (l : list (ContextItem A)) : Prop :=
  Forall (fun i => ci_relevance i = None) l.

(** A small store for examples: one message, a milestone of low importance,
    two decisions, and three fingerprints, of which the second has lost its
    message. *)
Definition sample_blob (xs : list float) : list byte :=
  Buffer_bytes (vectorToBuffer (Float32Array_from xs)).

Definition sample_vectors : list VectorRow :=
  [ mkVectorRow 1 10 "user_message" (sample_blob [1; 0]%float) 1000 None;
    mkVectorRow 2 11 "user_message" (sample_blob [1; 0]%float) 1001 None;
    mkVectorRow 3 12 "code_file" (sample_blob [1; 1]%float) 1002 None ].

Definition sample_db : Database :=
  mkDatabase
    [ mkMessageRow 10 "user" "hello" 1000 (Some "low"%string) ]
    []
    [ mkMilestoneRow 1 "first draft" "a draft exists" (Some "low"%string)
        1000 ]
    [ mkDecisionRow 1 "tabs" "use tabs" "habit" (Some "low"%string) 1000;
      mkDecisionRow 2 "store" "use sqlite" "simple" (Some "high"%string)
        1001 ]
    [] []
    sample_vectors
    [ mkCodeFileRow 12 "a.js" "javascript" 1000 ]
    []
    3.

(** The server in database mode on a store without [vector_top_k]. *)
Definition sample_server : Server := mkServer (Some sample_db) false None.

Definition sample_query : Float32Array := Float32Array_from [1; 0]%float.


(** Two messages to score on the sample store: the stored one, which has a
    fingerprint, and one that has none. *)
Definition unmarked_message : MessageRow :=
  mkMessageRow 13 "user" "no fingerprint yet" 1003 (Some "low"%string).

Definition two_messages : list MessageRow :=
  messages sample_db ++ [unmarked_message].

(** The row a fingerprint belongs to still exists: a message for the three
    message types, a code file for 'code_file', a snippet for
    'code_snippet'.  A fingerprint of any other type has no owner that
    maintenance looks for. *)
Definition owner_exists (d : Database) (v : VectorRow) : bool :=
  (negb (type_in message_types v)
   || existsb (fun m => v_content_id v =? Zpos (m_id m)) (messages d))
  && (negb (type_in ["code_file"%string] v)
      || existsb (fun f => v_content_id v =? Zpos (cf_id f)) (code_files d))
  && (negb (type_in ["code_snippet"%string] v)
      || existsb (fun s => v_content_id v =? Zpos (cs_id s))
           (code_snippets d)).


(** The content type of a fingerprint is one the scorer was asked for. *)
Definition requested_type (primaryType : string)
    (secondaryType : option string) (v : VectorRow) : bool :=
  content_type_is primaryType v
  || match secondaryType with
     | Some t => truthy_string secondaryType && content_type_is t v
     | None => false
     end.


(** The 32-bit floats a stored blob holds. *)
Definition stored_vector (row : VectorRow) : Float32Array :=
  mkFloat32Array (v_vector row) 0 (List.length (v_vector row) / 4).

(** The cosine similarity of a stored fingerprint to the query. *)
Definition stored_similarity (q : Float32Array) (row : VectorRow) : float :=
  cosineSimilarity q (stored_vector row).


(** The stored rows with a defined similarity, nearest first. *)
Definition ranked (q : Float32Array) (vs : list VectorRow) : list VectorRow :=
  stable_sort (behind_by (stored_similarity q))
    (filter (fun row => negb (is_nan (stored_similarity q row))) vs).

(** Modelled from the spec: one primitive that meets [top_k_spec], for
    examples.  It ranks exactly, nearest first, rows of equal similarity in
    storage order; no statement relies on that order. *)
Definition nearest_first : TopK :=
  fun vs queryBuffer k =>
    match bufferToVector queryBuffer with
    | None => []
    | Some q =>
        map (fun row => (Zpos (v_id row), stored_similarity q row))
          (firstn (Z.to_nat k) (ranked q vs))
    end.

(** The sample server on a store that has [vector_top_k]. *)
Definition sample_server_indexed : Server :=
  mkServer (Some sample_db) false (Some nearest_first).

(** The number of entries is at most [limit], as Numbers compare. *)
Definition at_most {A : Type} (limit : float) (l : list A) : Prop :=
  (number_of_Z (Z.of_nat (List.length l)) <=? limit)%float = true.

(** [l1] is an initial segment of [l2]. *)
Definition is_prefix {A : Type} (l1 l2 : list A) : Prop :=
  exists rest, l2 = l1 ++ rest.


(** Twenty messages stored one after the other, with increasing time
    stamps. *)
Definition twenty_messages : list MessageRow :=
  map (fun n => mkMessageRow (Pos.of_nat n) "user"
                  ("message " ++ string_of_nat n) (1000 + Z.of_nat n)
                  (Some "low"%string))
    (seq 1 20).

Definition twenty_db : Database :=
  mkDatabase twenty_messages [] [] [] [] [] [] [] [] 0.

(** The text has no characters left after normalisation, or is no string at
    all. *)
Definition blank_text (text : option string) : Prop :=
  match text with
  | Some t => trim (toLowerCase t) = ""%string
  | None => True
  end.

(** The snippets of one file, in the order they came in. *)
Definition snippets_of (file_path : option string)
    (snippets : list SemanticItem) : list SemanticItem :=
  filter (fun s => same_key file_path (si_file_path s)) snippets.

(** The relevance of a group after one more snippet. *)
Definition higher (relevance : float) (snippet : SemanticItem) : float :=
  if (relevance <? si_similarity snippet)%float
  then si_similarity snippet else relevance.

(** A group holds the snippets of its file out of [seen], the first of which
    opened it, and its relevance went through all of them. *)
Definition group_of (seen : list SemanticItem) (g : SnippetGroup) : Prop :=
  g_snippets g = snippets_of (g_file_path g) seen /\
  exists first rest,
    g_snippets g = first :: rest /\
    g_relevance g = fold_left higher rest (si_similarity first).

(** Three snippets of two files, for examples. *)
Definition sample_snippets : list SemanticItem :=
  [ mkSemanticItem 1 "code_snippet" 0.5%float
      (SnippetDetail "function f() {" "a.js" "1-2" "function");
    mkSemanticItem 2 "code_snippet" 0.75%float
      (SnippetDetail "function g() {" "b.js" "3-4" "function");
    mkSemanticItem 3 "code_snippet" 0.875%float
      (SnippetDetail "function h() {" "a.js" "5-6" "function") ].

(** The two databases differ at most in the vectors table and its rowid
    counter. *)
Definition same_tables (d d' : Database) : Prop :=
  d' = with_sequence (with_vectors d (vectors d')) (vectors_sequence d').

(** No two fingerprints of the connected store share an id. *)
Definition unique_ids (st : Server) : Prop :=
  match db st with
  | Some d => NoDup (map v_id (vectors d))
  | None => True
  end.

(** A partition of the context holds at most [n] items, each built from a
    row of [table], with a relevance that is [null] or at least 0.5. *)
Definition partition_within {A : Type} (n : nat) (table : list A)
    (l : list (ContextItem A)) : Prop :=
  (List.length l <= n)%nat /\
  Forall (fun i => In (source i) table /\
                   match ci_relevance i with
                   | Some r => num_ge r 0.5%float
                   | None => True
                   end) l.

(** A list of similar items holds at most [n] items, each at least 0.6
    similar to the query. *)
Definition similar_within (n : nat) (l : list SemanticItem) : Prop :=
  (List.length l <= n)%nat /\
  Forall (fun i => num_ge (si_similarity i) six_tenths) l.

(** The item carries the details of the row it points to. *)
Definition has_detail (i : SemanticItem) : Prop :=
  match si_detail i with
  | NoDetail => False
  | _ => True
  end.

(** The item points to a message or to a code file. *)
Definition message_or_file (i : SemanticItem) : Prop :=
  si_type i = "user_message"%string \/
  si_type i = "assistant_message"%string \/
  si_type i = "code_file"%string.

(** The text [createEmbedding] reads the characters of. *)
Definition normalizedText (text : string) : string := trim (toLowerCase text).

(** [trimStart] on the characters of a string. *)
Fixpoint drop_spaces (l : list ascii) : list ascii :=
  match l with
  | [] => []
  | c :: r => if is_white_space c then drop_spaces r else l
  end.

(* ================================================================== *)
(** * The in-memory store and its handlers *)
(* ================================================================== *)

(** The objects of [inMemoryStore], the fallback the handlers write to when
    [useInMemory] is set.  A time stamp is a [Date.now()]: an integer far
    below 2^53, where the subtraction in the sort comparators is exact, so
    time stamps are [Z].  [metadata] is the metadata in its JSON form,
    [None] for [null].  The database branch of these handlers is not
    modelled. *)
Record MemoryMessage : Type := mkMemoryMessage {
  mm_role : string;
  mm_content : string;
  mm_created_at : Z;
  mm_importance : string;
  mm_metadata : option string
}.

Record MemoryFile : Type := mkMemoryFile {
  mf_filename : string;
  mf_action : string;
  mf_last_accessed : Z;
  mf_metadata : option string
}.

Record MemoryMilestone : Type := mkMemoryMilestone {
  mms_title : string;
  mms_description : string;
  mms_importance : string;
  mms_created_at : Z;
  mms_metadata : option string
}.

Record MemoryDecision : Type := mkMemoryDecision {
  md_title : string;
  md_content : string;
  md_reasoning : option string;
  md_importance : string;
  md_created_at : Z;
  md_metadata : option string
}.

Record MemoryRequirement : Type := mkMemoryRequirement {
  mr_title : string;
  mr_content : string;
  mr_importance : string;
  mr_created_at : Z;
  mr_metadata : option string
}.

Record MemoryEpisode : Type := mkMemoryEpisode {
  me_actor : string;
  me_action : string;
  me_content : string;
  me_timestamp : Z;
  me_importance : string;
  me_context : option string
}.

Record InMemoryStore : Type := mkInMemoryStore {
  mem_messages : list MemoryMessage;
  mem_activeFiles : list MemoryFile;
  mem_milestones : list MemoryMilestone;
  mem_decisions : list MemoryDecision;
  mem_requirements : list MemoryRequirement;
  mem_episodes : list MemoryEpisode
}.

(** The store the server starts with. *)
Definition inMemoryStore : InMemoryStore := mkInMemoryStore [] [] [] [] [] [].

(** [arr.findIndex(p)]; [None] is [-1]. *)
Fixpoint findIndex {A : Type} (p : A -> bool) (l : list A) : option nat :=
  match l with
  | [] => None
  | x :: r =>
      if p x then Some 0%nat
      else match findIndex p r with
           | Some i => Some (S i)
           | None => None
           end
  end.

(** [arr[i] = f(arr[i])] for an index inside the array. *)
Fixpoint Array_update {A : Type} (i : nat) (f : A -> A) (l : list A)
    : list A :=
  match l, i with
  | [], _ => []
  | x :: r, O => f x :: r
  | x :: r, S j => x :: Array_update j f r
  end.

(** [arr.sort((a, b) => time(b) - time(a))] on integer time stamps. *)
Definition sort_newest_first {A : Type} (time : A -> Z) (l : list A)
    : list A :=
  stable_sort (fun x y => 0 <? time y - time x) l.

(** The [storeUserMessage] case in in-memory mode: the store after the
    [push] and the [messageId] of the result. *)
Definition storeUserMessage_inMemory (now : Z) (store : InMemoryStore)
    (content : string) (importance : option string)
    (metadata : option string) : Z * InMemoryStore :=
  let importance :=
    match importance with Some i => i | None => "low"%string end in
  let messages :=
    mem_messages store
    ++ [mkMemoryMessage "user" content now importance metadata] in
  (Z.of_nat (List.length messages),
   mkInMemoryStore messages (mem_activeFiles store) (mem_milestones store)
     (mem_decisions store) (mem_requirements store) (mem_episodes store)).

(** The [trackActiveFile] case in in-memory mode. *)
Definition trackActiveFile_inMemory (now : Z) (store : InMemoryStore)
    (filename action : string) (metadata : option string) : InMemoryStore :=
  let activeFiles :=
    match findIndex (fun f => String.eqb (mf_filename f) filename)
            (mem_activeFiles store) with
    | Some existingFileIndex =>
        Array_update existingFileIndex
          (fun f => mkMemoryFile (mf_filename f) action now metadata)
          (mem_activeFiles store)
    | None =>
        mem_activeFiles store ++ [mkMemoryFile filename action now metadata]
    end in
  mkInMemoryStore (mem_messages store) activeFiles (mem_milestones store)
    (mem_decisions store) (mem_requirements store)
    (mem_episodes store
     ++ [mkMemoryEpisode "user" action filename now "low"
           (Some "file-tracking"%string)]).

(** The [getRecentMessages] case in in-memory mode: the messages of the
    result, each with its rendered time, and the store after the call.
    Without an importance the array that is sorted is the store's own. *)
Definition getRecentMessages_inMemory (toISOString : Z -> string)
    (store : InMemoryStore) (limit : option float)
    (importance : option string)
    : list (MemoryMessage * string) * InMemoryStore :=
  let limit := match limit with Some n => n | None => 10%float end in
  let render l :=
    map (fun msg => (msg, toISOString (mm_created_at msg)))
      (Array_slice0 l limit) in
  if truthy_string importance then
    let filtered :=
      filter (fun m => same_key (Some (mm_importance m)) importance)
        (mem_messages store) in
    (render (sort_newest_first mm_created_at filtered), store)
  else
    let sorted := sort_newest_first mm_created_at (mem_messages store) in
    (render sorted,
     mkInMemoryStore sorted (mem_activeFiles store) (mem_milestones store)
       (mem_decisions store) (mem_requirements store) (mem_episodes store)).

(** The [getActiveFiles] case in in-memory mode; the sort is in place. *)
Definition getActiveFiles_inMemory (toISOString : Z -> string)
    (store : InMemoryStore) (limit : option float)
    : list (MemoryFile * string) * InMemoryStore :=
  let limit := match limit with Some n => n | None => 10%float end in
  let sorted := sort_newest_first mf_last_accessed (mem_activeFiles store) in
  (map (fun file => (file, toISOString (mf_last_accessed file)))
     (Array_slice0 sorted limit),
   mkInMemoryStore (mem_messages store) sorted (mem_milestones store)
     (mem_decisions store) (mem_requirements store) (mem_episodes store)).

(** The [getRecentEpisodes] case in in-memory mode. *)
Definition getRecentEpisodes_inMemory (toISOString : Z -> string)
    (store : InMemoryStore) (limit : option float) (context : option string)
    : list (MemoryEpisode * string) * InMemoryStore :=
  let limit := match limit with Some n => n | None => 10%float end in
  let render l :=
    map (fun ep => (ep, toISOString (me_timestamp ep)))
      (Array_slice0 l limit) in
  if truthy_string context then
    let filtered :=
      filter (fun e => same_key (me_context e) context) (mem_episodes store) in
    (render (sort_newest_first me_timestamp filtered), store)
  else
    let sorted := sort_newest_first me_timestamp (mem_episodes store) in
    (render sorted,
     mkInMemoryStore (mem_messages store) (mem_activeFiles store)
       (mem_milestones store) (mem_decisions store) (mem_requirements store)
       sorted).

(** The Number a reader cuts its answer with: the [limit] of the call, 10
    when the call has none. *)
Definition limit_or_default (limit : option float) : float :=
  match limit with Some n => n | None => 10%float end.

(** The integer part of the limit is at least 1, or the limit is
    Infinity: every limit from 1 on. *)
Definition at_least_one (limit : float) : Prop :=
  match ToIntegerOrInfinity limit with
  | Integer k => 1 <= k
  | PlusInfinity => True
  | MinusInfinity => False
  end.

(** The messages a [getRecentMessages] call asks for, and the episodes a
    [getRecentEpisodes] call asks for. *)
Definition asked_message (importance : option string) (m : MemoryMessage)
    : bool :=
  negb (truthy_string importance)
  || same_key (Some (mm_importance m)) importance.

Definition asked_episode (context : option string) (e : MemoryEpisode)
    : bool :=
  negb (truthy_string context) || same_key (me_context e) context.

(** A store for examples: two messages and two tracked files. *)
Definition sample_store : InMemoryStore :=
  mkInMemoryStore
    [ mkMemoryMessage "user" "first" 1000 "low" None;
      mkMemoryMessage "user" "second" 1001 "high" None ]
    [ mkMemoryFile "a.js" "open" 1000 None;
      mkMemoryFile "b.js" "edit" 1001 None ]
    [] [] []
    [ mkMemoryEpisode "user" "open" "a.js" 1000 "low"
        (Some "file-tracking"%string);
      mkMemoryEpisode "user" "edit" "b.js" 1001 "low"
        (Some "file-tracking"%string) ].

(* ================================================================== *)
(** * Code detection: [isCodeRelatedQuery] *)
(* ================================================================== *)

(** [s.startsWith(t)]. *)
Fixpoint startsWith (s t : string) : bool :=
  match t, s with
  | EmptyString, _ => true
  | String b t', String a s' => Ascii.eqb a b && startsWith s' t'
  | String _ _, EmptyString => false
  end.

(** [s.includes(t)]. *)
Fixpoint includes (s t : string) : bool :=
  startsWith s t
  || match s with
     | EmptyString => false
     | String _ s' => includes s' t
     end.

Definition codeTerms : list string :=
  [ "code"; "function"; "class"; "method"; "variable"; "object";
    "array"; "string"; "number"; "boolean"; "interface"; "type";
    "implement"; "extend"; "import"; "export"; "module"; "package";
    "library"; "framework"; "api"; "component"; "property"; "attribute";
    "syntax"; "compiler"; "interpreter"; "runtime"; "debug"; "error";
    "exception"; "bug"; "fix"; "issue"; "pull request"; "commit";
    "branch"; "merge"; "git"; "repository"; "algorithm";
    "data structure" ]%string.

Definition languages : list string :=
  [ "javascript"; "typescript"; "python"; "java"; "c++"; "c#"; "ruby";
    "go"; "rust"; "php"; "swift"; "kotlin"; "scala"; "perl"; "r";
    "bash"; "shell"; "sql"; "html"; "css"; "jsx"; "tsx" ]%string.

(** [isCodeRelatedQuery(query)].  The nine regular expressions of
    [codePatterns] are a parameter: [codePatterns] holds their [test]
    functions, in source order. *)
Definition isCodeRelatedQuery (codePatterns : list (string -> bool))
    (query : option string) : bool :=
  match query with
  | None => false
  | Some q =>
      if negb (truthy_string query) then false
      else
        let text := toLowerCase q in
        if existsb (fun term => includes text term) (codeTerms ++ languages)
        then true
        else existsb (fun pattern => pattern text) codePatterns
  end.

(* ================================================================== *)
(** * The statement adapter: [Statement] *)
(* ================================================================== *)

(** [s.split(sep)] for a separator of one character. *)
Fixpoint String_split (sep : ascii) (s : string) : list string :=
  match s with
  | EmptyString => [""%string]
  | String c r =>
      if Ascii.eqb c sep then ""%string :: String_split sep r
      else
        match String_split sep r with
        | piece :: rest => String c piece :: rest
        | [] => [String c ""]
        end
  end.

(** [sql.replace(/\?/g, () => `:param${++paramCount}`)]: the converted
    text and the counter after it, from the counter before it. *)
Fixpoint convert_parameters (sql : string) (paramCount : nat) : string * nat :=
  match sql with
  | EmptyString => (EmptyString, paramCount)
  | String c rest =>
      if Ascii.eqb c "?" then
        let '(converted, n) := convert_parameters rest (S paramCount) in
        ((":param" ++ string_of_nat (S paramCount) ++ converted)%string, n)
      else
        let '(converted, n) := convert_parameters rest paramCount in
        (String c converted, n)
  end.

(** The fields the constructor of [Statement] sets from [sql]. *)
Record Statement : Type := mkStatement {
  stmt_sql : string;
  convertedSql : string;
  paramCount : nat
}.

Definition Statement_new (sql : string) : Statement :=
  mkStatement sql (fst (convert_parameters sql 0))
    (snd (convert_parameters sql 0)).

(** The [namedParams] object [run], [get] and [all] build from their
    arguments, as its properties in insertion order; [i] is the loop
    counter. *)
Fixpoint namedParams_from {V : Type} (i : nat) (params : list V)
    : list (string * V) :=
  match params with
  | [] => []
  | p :: rest =>
      (("param" ++ string_of_nat (i + 1))%string, p)
      :: namedParams_from (S i) rest
  end.

Definition namedParams {V : Type} (params : list V) : list (string * V) :=
  namedParams_from 0 params.

(** The text [pieces[0] names[0] pieces[1] names[1] ... pieces[n]]. *)
Fixpoint weave (pieces names : list string) : string :=
  match pieces with
  | [] => ""%string
  | [piece] => piece
  | piece :: rest =>
      match names with
      | name :: names' => (piece ++ name ++ weave rest names')%string
      | [] => (piece ++ weave rest [])%string
      end
  end.

(** A decimal digit. *)
Definition digit_char (c : ascii) : Prop :=
  In c ["0"; "1"; "2"; "3"; "4"; "5"; "6"; "7"; "8"; "9"]%char.

(* ================================================================== *)
(** * Code snippets: the scan of [extractCodeSnippets] *)
(* ================================================================== *)

(** The keys of [langPatterns]. *)
Inductive SymbolType : Type :=
  | FunctionSymbol
  | ClassSymbol
  | VariableSymbol.

(** What the scan reads off [line.match(pattern)]: [None] when the line
    does not match, else the last capture group
    [match[match.length - 1]], which is [None] ([undefined]) when that group
    took no part in the match.  The regular expressions themselves are a
    parameter. *)
Definition LinePattern : Type := string -> option (option string).

Record LangPatterns : Type := mkLangPatterns {
  p_function : LinePattern;
  p_class : LinePattern;
  p_variable : LinePattern
}.

(** [Object.entries(langPatterns)]. *)
Definition pattern_entries (langPatterns : LangPatterns)
    : list (SymbolType * LinePattern) :=
  [ (FunctionSymbol, p_function langPatterns);
    (ClassSymbol, p_class langPatterns);
    (VariableSymbol, p_variable langPatterns) ].

Record Snippet : Type := mkSnippet {
  sn_symbol : option string;
  sn_type : option SymbolType;
  sn_start : nat;
  sn_end : nat;
  sn_content : string
}.

(** The variables of the scan. *)
Record ScanState : Type := mkScanState {
  currentSymbol : option string;
  currentStart : nat;
  currentType : option SymbolType;
  currentContent : string;
  braceCount : Z;
  found_snippets : list Snippet
}.

Definition line_feed : string := String "010"%char "".

(** [arr.join(sep)]. *)
Fixpoint String_join (sep : string) (l : list string) : string :=
  match l with
  | [] => ""%string
  | [x] => x
  | x :: r => (x ++ sep ++ String_join sep r)%string
  end.

(** The first entry whose pattern matches the line. *)
Fixpoint first_match (entries : list (SymbolType * LinePattern))
    (line : string) : option (SymbolType * option string) :=
  match entries with
  | [] => None
  | (type, pattern) :: rest =>
      match pattern line with
      | Some symbol => Some (type, symbol)
      | None => first_match rest line
      end
  end.

(** [line.match(/^\S/)] as a test. *)
Definition starts_non_space (line : string) : bool :=
  match line with
  | String c _ => negb (is_white_space c)
  | EmptyString => false
  end.

(** One round of the loop over the lines; [python] is
    [language === 'python'] and [last] is [lines.length - 1]. *)
Definition scan_line (python : bool) (langPatterns : LangPatterns)
    (last : nat) (st : ScanState) (i : nat) (line : string) : ScanState :=
  if negb (truthy_string (currentSymbol st)) then
    match first_match (pattern_entries langPatterns) line with
    | Some (type, symbol) =>
        mkScanState symbol i (Some type) line
          (if includes line "{" then 1 else braceCount st)
          (found_snippets st)
    | None => st
    end
  else
    let content := (currentContent st ++ line_feed ++ line)%string in
    let braces :=
      if includes line "{" then braceCount st + 1 else braceCount st in
    let braces := if includes line "}" then braces - 1 else braces in
    let isBlockEnd :=
      ((braces =? 0) && includes line "}")
      || (python && starts_non_space line) in
    if isBlockEnd || (i =? last)%nat then
      mkScanState None 0 None ""
        0
        (found_snippets st
         ++ [mkSnippet (currentSymbol st) (currentType st) (currentStart st)
               i content])
    else
      mkScanState (currentSymbol st) (currentStart st) (currentType st)
        content braces (found_snippets st).

Fixpoint scan_lines (python : bool) (langPatterns : LangPatterns)
    (last : nat) (st : ScanState) (i : nat) (lines : list string)
    : ScanState :=
  match lines with
  | [] => st
  | line :: rest =>
      scan_lines python langPatterns last
        (scan_line python langPatterns last st i line) (S i) rest
  end.

(** The snippets [extractCodeSnippets] finds in [content], before it
    stores them. *)
Definition extractCodeSnippets_scan (language : string)
    (langPatterns : LangPatterns) (content : string) : list Snippet :=
  let lines := String_split "010"%char content in
  found_snippets
    (scan_lines (String.eqb language "python") langPatterns
       (List.length lines - 1)
       (mkScanState None 0 None "" 0 []) 0 lines).

(** The lines [first] to [last] of a text, joined as they were. *)
Definition lines_between (lines : list string) (first last : nat) : string :=
  String_join line_feed (firstn (last - first + 1) (skipn first lines)).

(** A snippet covers at least two lines of the text and holds them. *)
Definition snippet_of (lines : list string) (s : Snippet) : Prop :=
  (sn_start s < sn_end s < List.length lines)%nat /\
  sn_content s = lines_between lines (sn_start s) (sn_end s) /\
  truthy_string (sn_symbol s) = true /\
  sn_type s <> None.

(** What holds between two rounds of the loop, in front of line [i]. *)
Definition scan_invariant (lines : list string) (i : nat) (st : ScanState)
    : Prop :=
  Forall (snippet_of lines) (found_snippets st) /\
  StronglySorted (fun a b => (sn_end a < sn_start b)%nat) (found_snippets st)
  /\
  Forall (fun s => (sn_end s < i)%nat) (found_snippets st) /\
  (truthy_string (currentSymbol st) = true ->
   (currentStart st < i)%nat /\
   Forall (fun s => (sn_end s < currentStart st)%nat) (found_snippets st) /\
   currentContent st = lines_between lines (currentStart st) (i - 1) /\
   currentType st <> None).

(** Patterns for examples: a declaration of [f], of [C], of [x]. *)
Definition sample_patterns : LangPatterns :=
  mkLangPatterns
    (fun line => if startsWith line "function f" then Some (Some "f"%string)
                 else None)
    (fun line => if startsWith line "class C" then Some (Some "C"%string)
                 else None)
    (fun line => if startsWith line "let x" then Some (Some "x"%string)
                 else None).

(** A text of four lines for examples. *)
Definition sample_text : string :=
  ("function f() {" ++ line_feed ++ "  return 1;" ++ line_feed ++ "}"
   ++ line_feed ++ "let x = 1;")%string.

(* ================================================================== *)
(** * The background queue: [backgroundTasks] *)
(* ================================================================== *)

(** The object [backgroundTasks] with what the event loop holds for it:
    the tasks whose [processQueue] call is suspended at its [await]
    ([awaited]) and the number of pending [setTimeout] callbacks
    ([timeouts]).  [added] and [started] record the tasks handed to
    [addTask] and the tasks taken off the queue, in order; no code reads
    them.  A task is a function, as every task of the program is. *)
Record TaskQueue (T : Type) : Type := mkTaskQueue {
  queue : list T;
  isProcessing : bool;
  awaited : list T;
  timeouts : nat;
  added : list T;
  started : list T
}.
Arguments mkTaskQueue {T} queue isProcessing awaited timeouts added started.
Arguments queue {T} t.
Arguments isProcessing {T} t.
Arguments awaited {T} t.
Arguments timeouts {T} t.
Arguments added {T} t.
Arguments started {T} t.

(** The object as the module creates it. *)
Definition backgroundTasks {T : Type} : TaskQueue T :=
  mkTaskQueue [] false [] 0 [] [].

(** [processQueue()] up to its [await]: the head of the queue is taken
    off and called. *)
Definition processQueue {T : Type} (q : TaskQueue T) : TaskQueue T :=
  if isProcessing q || (List.length (queue q) =? 0)%nat then q
  else
    match queue q with
    | [] => q
    | task :: rest =>
        mkTaskQueue rest true (awaited q ++ [task]) (timeouts q) (added q)
          (started q ++ [task])
    end.

(** [addTask(task, ...params)]. *)
Definition addTask {T : Type} (task : T) (q : TaskQueue T) : TaskQueue T :=
  let q1 :=
    mkTaskQueue (queue q ++ [task]) (isProcessing q) (awaited q) (timeouts q)
      (added q ++ [task]) (started q) in
  if negb (isProcessing q1) then processQueue q1 else q1.

(** The awaited task settles, by fulfilling or by throwing: the [finally]
    block of the suspended [processQueue] call runs.  Nothing happens when
    no call is suspended. *)
Definition task_settles {T : Type} (q : TaskQueue T) : TaskQueue T :=
  match awaited q with
  | [] => q
  | _ :: others =>
      mkTaskQueue (queue q) false others
        (if (0 <? List.length (queue q))%nat then S (timeouts q)
         else timeouts q)
        (added q) (started q)
  end.

(** A pending timeout fires and calls [processQueue()]. *)
Definition timeout_fires {T : Type} (q : TaskQueue T) : TaskQueue T :=
  match timeouts q with
  | O => q
  | S n =>
      processQueue
        (mkTaskQueue (queue q) (isProcessing q) (awaited q) n (added q)
           (started q))
  end.

(** What can happen to the queue. *)
Inductive QueueEvent (T : Type) : Type :=
  | AddTask (task : T)
  | TaskSettles
  | TimeoutFires.
Arguments AddTask {T} task.
Arguments TaskSettles {T}.
Arguments TimeoutFires {T}.

Definition queue_event {T : Type} (q : TaskQueue T) (e : QueueEvent T)
    : TaskQueue T :=
  match e with
  | AddTask task => addTask task q
  | TaskSettles => task_settles q
  | TimeoutFires => timeout_fires q
  end.

(** The queue after a history of events. *)
Definition queue_after {T : Type} (events : list (QueueEvent T))
    : TaskQueue T :=
  fold_left queue_event events backgroundTasks.

(** What holds of the queue between events. *)
Definition queue_invariant {T : Type} (q : TaskQueue T) : Prop :=
  (List.length (awaited q) <= 1)%nat /\
  (isProcessing q = true <-> awaited q <> []) /\
  added q = started q ++ queue q /\
  (exists earlier, started q = earlier ++ awaited q) /\
  (queue q <> [] -> isProcessing q = false -> (0 < timeouts q)%nat).

(* ================================================================== *)
(** * Properties *)
(* ================================================================== *)

(** ** Binary64 arithmetic: the sign of a difference *)

Lemma digits2_pos_bounds (m : positive) :
  2 ^ (Zpos (digits2_pos m) - 1) <= Zpos m < 2 ^ Zpos (digits2_pos m).
Proof.
  induction m as [m IH|m IH|]; cbn [digits2_pos].
  - rewrite Pos2Z.inj_succ.
    replace (Z.succ (Zpos (digits2_pos m)) - 1)
      with (Z.succ (Zpos (digits2_pos m) - 1)) by lia.
    rewrite !Z.pow_succ_r by lia. lia.
  - rewrite Pos2Z.inj_succ.
    replace (Z.succ (Zpos (digits2_pos m)) - 1)
      with (Z.succ (Zpos (digits2_pos m) - 1)) by lia.
    rewrite !Z.pow_succ_r by lia. lia.
  - simpl. lia.
Qed.

Lemma shr_1_halves (mrs : shr_record) :
  0 <= shr_m mrs -> shr_m (shr_1 mrs) = shr_m mrs / 2.
Proof.
  destruct mrs as [m r s]. cbn [shr_m]. intros Hm.
  destruct m as [|[p|p|]|p]; cbn [shr_1 shr_m]; try lia; try reflexivity.
  - apply Z.div_unique with 1; lia.
  - apply Z.div_unique with 0; lia.
Qed.

Lemma iter_pos_shr_1 (p : positive) : forall mrs,
  0 <= shr_m mrs -> shr_m (iter_pos shr_1 p mrs) = shr_m mrs / 2 ^ Zpos p.
Proof.
  induction p as [p IH|p IH|]; intros mrs Hm; cbn [iter_pos].
  - assert (H1 : 0 <= shr_m (shr_1 mrs))
      by (rewrite shr_1_halves by lia; apply Z.div_pos; lia).
    assert (H2 : 0 <= shr_m (iter_pos shr_1 p (shr_1 mrs)))
      by (rewrite IH by lia; apply Z.div_pos; lia).
    rewrite IH, IH, shr_1_halves by lia.
    rewrite !Z.div_div by lia. f_equal.
    rewrite Pos2Z.inj_xI, Z.pow_add_r, Z.pow_mul_r, Z.pow_2_r by lia.
    replace (2 ^ 2) with 4 by reflexivity. rewrite Z.pow_1_r.
    rewrite <- Z.pow_mul_l.
    rewrite <- Z.pow_2_r, <- Z.pow_mul_r by lia.
    rewrite (Z.mul_comm 2 (Zpos p)), Z.pow_mul_r by lia. lia.
  - assert (H2 : 0 <= shr_m (iter_pos shr_1 p mrs))
      by (rewrite IH by lia; apply Z.div_pos; lia).
    rewrite IH, IH by lia. rewrite Z.div_div by lia. f_equal.
    rewrite Pos2Z.inj_xO. rewrite <- Z.pow_add_r by lia. f_equal. lia.
  - rewrite shr_1_halves by lia. reflexivity.
Qed.

Lemma shr_record_of_loc_m (m : Z) (l : location) :
  shr_m (shr_record_of_loc m l) = m.
Proof. destruct l as [|[]]; reflexivity. Qed.

Lemma shr_spec (mrs : shr_record) (e n : Z) :
  0 <= shr_m mrs ->
  shr_m (fst (shr mrs e n)) = shr_m mrs / 2 ^ Z.max n 0 /\
  snd (shr mrs e n) = e + Z.max n 0.
Proof.
  intros Hm. destruct n as [|p|p]; cbn [shr fst snd].
  - rewrite Z.max_id, Z.pow_0_r, Z.div_1_r. lia.
  - rewrite iter_pos_shr_1 by lia. rewrite Z.max_l by lia. lia.
  - rewrite Z.max_r by lia. rewrite Z.pow_0_r, Z.div_1_r. lia.
Qed.

Lemma Zdigits2_bounds (m : Z) :
  0 < m -> 0 < Zdigits2 m /\ 2 ^ (Zdigits2 m - 1) <= m.
Proof.
  destruct m as [|p|p]; try lia. intros _. cbn [Zdigits2].
  split; [lia | apply digits2_pos_bounds].
Qed.

(** Shifting a positive mantissa down to its format exponent leaves it
    positive, as long as the exponent is not below [emin]. *)
Lemma shr_fexp_pos (m e : Z) (l : location) :
  0 < m -> emin <= e ->
  0 < shr_m (fst (shr_fexp prec emax m e l)) /\
  emin <= snd (shr_fexp prec emax m e l).
Proof.
  intros Hm He. unfold shr_fexp.
  destruct (Zdigits2_bounds m Hm) as [Hd Hb].
  set (n := fexp prec emax (Zdigits2 m + e) - e).
  assert (Hn : Z.max n 0 <= Zdigits2 m - 1).
  { unfold n, fexp, SpecFloat.emin, prec, emax in *. lia. }
  destruct (shr_spec (shr_record_of_loc m l) e n) as [H1 H2].
  { rewrite shr_record_of_loc_m. lia. }
  rewrite H1, H2, shr_record_of_loc_m. split; [|lia].
  apply Z.div_str_pos. split; [apply Z.pow_pos_nonneg; lia|].
  apply Z.le_trans with (2 ^ (Zdigits2 m - 1)); [|exact Hb].
  apply Z.pow_le_mono_r; lia.
Qed.

Lemma round_nearest_even_ge (m : Z) (l : location) :
  m <= round_nearest_even m l.
Proof. destruct l as [|[]]; cbn; try lia. destruct (Z.even m); lia. Qed.

Lemma binary_round_aux_signed (s : bool) (m e : Z) (l : location) :
  0 < m -> emin <= e ->
  signed_nonzero s (binary_round_aux prec emax s m e l).
Proof.
  intros Hm He. unfold binary_round_aux.
  destruct (shr_fexp_pos m e l Hm He) as [H1 H2].
  destruct (shr_fexp prec emax m e l) as [mrs' e']. cbn [fst snd] in H1, H2.
  pose proof (round_nearest_even_ge (shr_m mrs') (loc_of_shr_record mrs'))
    as Hr.
  destruct (shr_fexp_pos
              (round_nearest_even (shr_m mrs') (loc_of_shr_record mrs'))
              e' loc_Exact) as [H3 H4]; try lia.
  destruct (shr_fexp prec emax _ e' loc_Exact) as [mrs'' e''].
  cbn [fst snd] in H3, H4.
  destruct (shr_m mrs''); try lia.
  destruct (e'' <=? emax - prec); reflexivity.
Qed.

Lemma shl_align_spec (mx : positive) (ex ez : Z) :
  Zpos (fst (shl_align mx ex ez)) = Zpos mx * 2 ^ Z.max (ex - ez) 0 /\
  snd (shl_align mx ex ez) = Z.min ex ez.
Proof.
  unfold shl_align. destruct (ez - ex) as [|d|d] eqn:E; cbn [fst snd].
  - replace (Z.max (ex - ez) 0) with 0 by lia. rewrite Z.pow_0_r. lia.
  - replace (Z.max (ex - ez) 0) with 0 by lia. rewrite Z.pow_0_r. lia.
  - replace (Z.max (ex - ez) 0) with (Zpos d) by lia.
    rewrite (Pos.iter_swap_gen _ _ Zpos xO (Z.mul 2)) by reflexivity.
    change (Pos.iter (Z.mul 2) (Zpos mx) d) with (Z.shiftl (Zpos mx) (Zpos d)).
    rewrite Z.shiftl_mul_pow2 by lia. lia.
Qed.

Lemma binary_round_signed (s : bool) (m : positive) (e : Z) :
  emin <= e -> signed_nonzero s (binary_round prec emax s m e).
Proof.
  intros He. unfold binary_round.
  destruct (shl_align_spec m e (fexp prec emax (Zpos (digits2_pos m) + e)))
    as [_ H2].
  destruct (shl_align m e _) as [mz ez]. cbn [snd] in H2.
  apply binary_round_aux_signed; [lia|].
  subst ez. unfold fexp, SpecFloat.emin, prec, emax in *. lia.
Qed.

(** Rounding an exact integer multiple of [2 ^ e] keeps its sign. *)
Lemma binary_normalize_sign (m e : Z) :
  emin <= e ->
  SFltb (S754_zero false) (binary_normalize prec emax m e false) = (0 <? m).
Proof.
  intros He. destruct m as [|p|p]; cbn [binary_normalize].
  - reflexivity.
  - pose proof (binary_round_signed false p e He) as H.
    destruct (binary_round prec emax false p e); cbn in H;
      try contradiction; subst; reflexivity.
  - pose proof (binary_round_signed true p e He) as H.
    destruct (binary_round prec emax true p e); cbn in H;
      try contradiction; subst; reflexivity.
Qed.

Lemma bounded_facts (m : positive) (e : Z) :
  bounded prec emax m e = true ->
  emin <= e /\ Zpos m < 2 ^ prec /\ (emin < e -> 2 ^ (prec - 1) <= Zpos m).
Proof.
  unfold bounded, canonical_mantissa. intros H.
  apply andb_prop in H. destruct H as [H _]. apply Z.eqb_eq in H.
  pose proof (digits2_pos_bounds m) as [Hl Hu].
  assert (Hd : Zpos (digits2_pos m) <= prec).
  { unfold fexp, SpecFloat.emin, prec, emax in *. lia. }
  split; [unfold fexp, SpecFloat.emin, prec, emax in *; lia|]. split.
  - eapply Z.lt_le_trans; [exact Hu|]. apply Z.pow_le_mono_r; lia.
  - intros He. assert (Hp : Zpos (digits2_pos m) = prec).
    { unfold fexp, SpecFloat.emin, prec, emax in *. lia. }
    rewrite <- Hp. exact Hl.
Qed.

(** Canonical mantissas brought to a common exponent compare like the
    pairs (exponent, mantissa). *)
Lemma aligned_compare (mx : positive) (ex : Z) (my : positive) (ey : Z) :
  bounded prec emax mx ex = true -> bounded prec emax my ey = true ->
  (Zpos (fst (shl_align mx ex (Z.min ex ey)))
   ?= Zpos (fst (shl_align my ey (Z.min ex ey)))) =
  match ex ?= ey with
  | Eq => (mx ?= my)%positive
  | c => c
  end.
Proof.
  intros Hx Hy.
  destruct (bounded_facts _ _ Hx) as (Hx1 & Hx2 & Hx3).
  destruct (bounded_facts _ _ Hy) as (Hy1 & Hy2 & Hy3).
  destruct (shl_align_spec mx ex (Z.min ex ey)) as [-> _].
  destruct (shl_align_spec my ey (Z.min ex ey)) as [-> _].
  assert (P2 : 2 ^ prec = 2 * 2 ^ (prec - 1)) by reflexivity.
  destruct (Z.compare_spec ex ey) as [E|E|E].
  - subst ey.
    rewrite Z.min_id, Z.sub_diag, Z.max_id, Z.pow_0_r, !Z.mul_1_r.
    reflexivity.
  - rewrite Z.min_l by lia. rewrite Z.sub_diag, Z.max_id, Z.pow_0_r, Z.mul_1_r.
    rewrite Z.max_l by lia. apply Z.compare_lt_iff.
    assert (H : 2 ^ 1 <= 2 ^ (ey - ex)) by (apply Z.pow_le_mono_r; lia).
    rewrite Z.pow_1_r in H. specialize (Hy3 ltac:(lia)). nia.
  - rewrite Z.min_r by lia. rewrite Z.sub_diag, Z.max_id, Z.pow_0_r, Z.mul_1_r.
    rewrite Z.max_l by lia. apply Z.compare_gt_iff.
    assert (H : 2 ^ 1 <= 2 ^ (ex - ey)) by (apply Z.pow_le_mono_r; lia).
    rewrite Z.pow_1_r in H. specialize (Hx3 ltac:(lia)). nia.
Qed.

(** On binary64 values other than NaN, [y - x] is positive exactly when
    [x < y]. *)
Lemma SFsub_sign (x y : spec_float) :
  valid_binary x = true -> valid_binary y = true ->
  is_nanSF x = false -> is_nanSF y = false ->
  SFltb (S754_zero false) (SF64sub y x) = SFltb x y.
Proof.
  intros Vx Vy Nx Ny.
  destruct x as [sx|sx| |sx mx ex], y as [sy|sy| |sy my ey];
    try discriminate;
    try (destruct sx, sy; reflexivity); try (destruct sx; reflexivity);
    try (destruct sy; reflexivity).
  cbn [valid_binary] in Vx, Vy.
  unfold SF64sub, SFsub, cond_Zopp.
  change IntDef.Z.min with Z.min; change IntDef.Z.sub with Z.sub;
    change IntDef.Z.opp with Z.opp.
  rewrite binary_normalize_sign
    by (destruct (bounded_facts _ _ Vx), (bounded_facts _ _ Vy); lia).
  pose proof (aligned_compare mx ex my ey Vx Vy) as Hc.
  rewrite (Z.min_comm ex ey) in Hc.
  unfold SFltb, SFcompare.
  destruct sx, sy.
  - destruct (ex ?= ey) eqn:E;
      [ change (Pos.compare_cont Eq mx my) with (mx ?= my)%positive;
        destruct (mx ?= my)%positive eqn:E' | | ];
      cbn [CompOpp]; cbv beta iota.
    + apply -> Z.compare_eq_iff in Hc. apply Z.ltb_ge. lia.
    + apply -> Z.compare_lt_iff in Hc. apply Z.ltb_ge. lia.
    + apply -> Z.compare_gt_iff in Hc. apply Z.ltb_lt. lia.
    + apply -> Z.compare_lt_iff in Hc. apply Z.ltb_ge. lia.
    + apply -> Z.compare_gt_iff in Hc. apply Z.ltb_lt. lia.
  - apply Z.ltb_lt. lia.
  - apply Z.ltb_ge. lia.
  - destruct (ex ?= ey) eqn:E;
      [ change (Pos.compare_cont Eq mx my) with (mx ?= my)%positive;
        destruct (mx ?= my)%positive eqn:E' | | ];
      cbv beta iota.
    + apply -> Z.compare_eq_iff in Hc. apply Z.ltb_ge. lia.
    + apply -> Z.compare_lt_iff in Hc. apply Z.ltb_lt. lia.
    + apply -> Z.compare_gt_iff in Hc. apply Z.ltb_ge. lia.
    + apply -> Z.compare_lt_iff in Hc. apply Z.ltb_lt. lia.
    + apply -> Z.compare_gt_iff in Hc. apply Z.ltb_ge. lia.
Qed.

(** ** The order of Numbers *)

Lemma SFcompare_key (x y : spec_float) :
  SFcompare x y =
  if is_nanSF x || is_nanSF y then None else Some (lex (key x) (key y)).
Proof.
  destruct x as [sx|sx| |sx mx ex], y as [sy|sy| |sy my ey];
    try reflexivity;
    try (destruct sx; reflexivity); try (destruct sy; reflexivity);
    try (destruct sx, sy; reflexivity).
  destruct sx, sy; unfold lex; simpl; try reflexivity.
  rewrite Z.compare_opp, (Z.compare_antisym ex ey).
  destruct (ex ?= ey); reflexivity.
Qed.

Lemma lex_Lt (a b : Z * Z * Z) : lex a b = Lt <-> lex_lt a b.
Proof.
  unfold lex, lex_lt.
  destruct (Z.compare_spec (fst (fst a)) (fst (fst b)));
    destruct (Z.compare_spec (snd (fst a)) (snd (fst b)));
    destruct (Z.compare_spec (snd a) (snd b));
    split; intros; try discriminate; try reflexivity; lia.
Qed.

Lemma lex_Gt (a b : Z * Z * Z) : lex a b = Gt <-> lex_lt b a.
Proof.
  unfold lex, lex_lt.
  destruct (Z.compare_spec (fst (fst a)) (fst (fst b)));
    destruct (Z.compare_spec (snd (fst a)) (snd (fst b)));
    destruct (Z.compare_spec (snd a) (snd b));
    split; intros; try discriminate; try reflexivity; lia.
Qed.

Lemma is_nan_spec (x : float) : is_nan x = is_nanSF (Prim2SF x).
Proof.
  unfold is_nan. rewrite FloatAxioms.eqb_spec. unfold SFeqb.
  rewrite SFcompare_key, orb_diag.
  destruct (is_nanSF (Prim2SF x)); [reflexivity|].
  assert (H : lex (key (Prim2SF x)) (key (Prim2SF x)) = Eq).
  { unfold lex. rewrite !Z.compare_refl. reflexivity. }
  rewrite H. reflexivity.
Qed.

Lemma ltb_key (x y : float) :
  (x <? y)%float = true <->
  not_nan x /\ not_nan y /\ lex_lt (fkey x) (fkey y).
Proof.
  unfold not_nan, fkey. rewrite FloatAxioms.ltb_spec, !is_nan_spec. unfold SFltb.
  rewrite SFcompare_key.
  destruct (is_nanSF (Prim2SF x)), (is_nanSF (Prim2SF y)); cbn [orb];
    try (split; [discriminate | intros (? & ? & _); discriminate]).
  rewrite <- lex_Lt.
  destruct (lex (key (Prim2SF x)) (key (Prim2SF y)));
    split; try discriminate; try tauto; intros (_ & _ & H); discriminate.
Qed.

Lemma leb_key (x y : float) :
  (x <=? y)%float = true <->
  not_nan x /\ not_nan y /\ ~ lex_lt (fkey y) (fkey x).
Proof.
  unfold not_nan, fkey. rewrite FloatAxioms.leb_spec, !is_nan_spec. unfold SFleb.
  rewrite SFcompare_key.
  destruct (is_nanSF (Prim2SF x)), (is_nanSF (Prim2SF y)); cbn [orb];
    try (split; [discriminate | intros (? & ? & _); discriminate]).
  rewrite <- lex_Gt.
  destruct (lex (key (Prim2SF x)) (key (Prim2SF y)));
    split; try discriminate; try tauto;
    try (intros _; repeat split; discriminate).
Qed.

Lemma Prim2SF_zero : Prim2SF 0%float = S754_zero false.
Proof. reflexivity. Qed.

(** The comparator [b - a] is positive exactly when [a < b]. *)
Lemma sub_pos_ltb (x y : float) :
  not_nan x -> not_nan y -> (0 <? y - x)%float = (x <? y)%float.
Proof.
  unfold not_nan. intros Nx Ny. rewrite !FloatAxioms.ltb_spec, FloatAxioms.sub_spec, Prim2SF_zero.
  rewrite is_nan_spec in Nx, Ny.
  apply SFsub_sign; auto using Prim2SF_valid.
Qed.

Lemma num_ge_not_nan (x y : float) : num_ge x y -> not_nan x /\ not_nan y.
Proof. unfold num_ge. rewrite leb_key. tauto. Qed.

Lemma num_ge_trans (x y z : float) : num_ge x y -> num_ge y z -> num_ge x z.
Proof.
  unfold num_ge. rewrite !leb_key. unfold lex_lt.
  intros (? & ? & ?) (? & ? & ?). repeat split; auto. lia.
Qed.

Lemma ltb_false_ge (x y : float) :
  not_nan x -> not_nan y -> (x <? y)%float = false -> num_ge x y.
Proof.
  intros Nx Ny H. unfold num_ge. rewrite leb_key. repeat split; auto.
  intros L. assert (T : (x <? y)%float = true) by (apply ltb_key; auto).
  congruence.
Qed.

Lemma ltb_true_ge (x y : float) : (x <? y)%float = true -> num_ge y x.
Proof.
  rewrite ltb_key. unfold num_ge. rewrite leb_key. unfold lex_lt.
  intros (? & ? & ?). repeat split; auto. lia.
Qed.

Lemma num_ge_ltb_false (x y : float) : num_ge x y -> (x <? y)%float = false.
Proof.
  unfold num_ge. rewrite leb_key. intros (Ny & Nx & H).
  destruct (x <? y)%float eqn:E; [|reflexivity].
  apply ltb_key in E. tauto.
Qed.

(** ** Lists *)

Lemma StronglySorted_weaken {A : Type} (R R' : A -> A -> Prop) (l : list A) :
  (forall a b, In a l -> In b l -> R a b -> R' a b) ->
  StronglySorted R l -> StronglySorted R' l.
Proof.
  intros HR HS. induction HS as [|a l HS IH HF]; constructor.
  - apply IH. intros x y Hx Hy. apply HR; right; assumption.
  - rewrite Forall_forall in *. intros y Hy.
    apply HR; [left; reflexivity | right; assumption | apply HF, Hy].
Qed.

Lemma In_firstn {A : Type} (n : nat) (l : list A) (x : A) :
  In x (firstn n l) -> In x l.
Proof.
  revert n. induction l as [|a l IH]; intros [|n]; cbn; try tauto.
  intros [H|H]; [left; exact H | right; eapply IH, H].
Qed.

Lemma StronglySorted_firstn {A : Type} (R : A -> A -> Prop) (n : nat)
    (l : list A) : StronglySorted R l -> StronglySorted R (firstn n l).
Proof.
  intros HS. revert n. induction HS as [|a l HS IH HF]; intros [|n]; cbn;
    try constructor.
  - apply IH.
  - rewrite Forall_forall in *. intros y Hy. eapply HF, In_firstn, Hy.
Qed.

Lemma StronglySorted_map {A B : Type} (R : B -> B -> Prop) (h : A -> B)
    (l : list A) :
  StronglySorted (fun x y => R (h x) (h y)) l -> StronglySorted R (map h l).
Proof.
  intros HS. induction HS as [|a l HS IH HF]; cbn; constructor; auto.
  rewrite Forall_forall in *. intros y Hy.
  apply in_map_iff in Hy. destruct Hy as (x & <- & Hx). auto.
Qed.

(** ** Slices *)

Lemma Array_slice0_In {A : Type} (l : list A) (finish : float) (x : A) :
  In x (Array_slice0 l finish) -> In x l.
Proof.
  unfold Array_slice0. apply In_firstn.
Qed.

(** A limit whose integer part is the count [n] cuts like [firstn n]. *)
Lemma Array_slice0_count {A : Type} (n : nat) (l : list A) (finish : float) :
  ToIntegerOrInfinity finish = Integer (Z.of_nat n) ->
  Array_slice0 l finish = firstn n l.
Proof.
  intros H. unfold Array_slice0, slice_final. rewrite H.
  destruct (Z.of_nat n <? 0) eqn:E; [apply Z.ltb_lt in E; lia|].
  rewrite <- Nat2Z.inj_min, Nat2Z.id.
  destruct (Nat.le_ge_cases n (List.length l)) as [Hle|Hge].
  - rewrite Nat.min_l by exact Hle. reflexivity.
  - rewrite Nat.min_r by exact Hge.
    rewrite firstn_all, firstn_all2 by exact Hge. reflexivity.
Qed.

(** A limit whose integer part [k] is not negative keeps at most [k]
    elements. *)
Lemma Array_slice0_length {A : Type} (k : Z) (l : list A) (finish : float) :
  ToIntegerOrInfinity finish = Integer k -> 0 <= k ->
  Z.of_nat (List.length (Array_slice0 l finish)) <= k.
Proof.
  intros H Hk. rewrite <- (Z2Nat.id k) in H by exact Hk.
  rewrite (Array_slice0_count _ _ _ H).
  pose proof (firstn_le_length (Z.to_nat k) l) as Hl.
  rewrite length_firstn. lia.
Qed.

Lemma slice_final_le (len : nat) (finish : float) :
  (slice_final len finish <= len)%nat.
Proof.
  unfold slice_final. destruct (ToIntegerOrInfinity finish) as [k| |];
    cbn beta iota; [|lia..]. destruct (Z.ltb_spec k 0); lia.
Qed.

(** A limit from 1 on keeps the first element of an array that has one. *)
Lemma Array_slice0_first {A : Type} (x : A) (l : list A) (finish : float) :
  at_least_one finish ->
  exists rest, Array_slice0 (x :: l) finish = x :: rest.
Proof.
  unfold at_least_one, Array_slice0, slice_final. cbn [List.length].
  destruct (ToIntegerOrInfinity finish) as [k| |]; intros H;
    [|eexists; reflexivity|contradiction].
  destruct (Z.ltb_spec k 0); [lia|].
  destruct (Z.to_nat (Z.min k (Z.of_nat (S (List.length l))))) eqn:E; [lia|].
  eexists. reflexivity.
Qed.

Lemma integer_part_3 : ToIntegerOrInfinity 3 = Integer 3.
Proof. reflexivity. Qed.

Lemma integer_part_5 : ToIntegerOrInfinity 5 = Integer 5.
Proof. reflexivity. Qed.

Lemma integer_part_10 : ToIntegerOrInfinity 10 = Integer 10.
Proof. reflexivity. Qed.

Lemma Array_slice0_3 {A : Type} (l : list A) : Array_slice0 l 3 = firstn 3 l.
Proof. apply (Array_slice0_count 3), integer_part_3. Qed.

Lemma Array_slice0_5 {A : Type} (l : list A) : Array_slice0 l 5 = firstn 5 l.
Proof. apply (Array_slice0_count 5), integer_part_5. Qed.

Lemma Array_slice0_10 {A : Type} (l : list A) :
  Array_slice0 l 10 = firstn 10 l.
Proof. apply (Array_slice0_count 10), integer_part_10. Qed.

(** A Number that a statement takes for an integer has that integer for its
    integer part. *)
Lemma sql_integer_part (x : float) (z : Z) :
  sql_integer x = Some z -> ToIntegerOrInfinity x = Integer z.
Proof.
  unfold sql_integer, ToIntegerOrInfinity.
  destruct (Prim2SF x) as [s|s| |s m e]; try discriminate.
  - intros H. injection H as <-. reflexivity.
  - destruct (0 <=? e).
    + destruct (_ <? _); [|discriminate]. intros H. injection H as <-.
      reflexivity.
    + destruct (_ =? _); [|discriminate]. intros H. injection H as <-.
      reflexivity.
Qed.

(** ** The stable sort *)

Section StableSort.
Context {A : Type}.
Variable behind : A -> A -> bool.
Variable P : A -> Prop.
Hypothesis behind_asym :
  forall x y, P x -> P y -> behind x y = true -> behind y x = false.
Hypothesis behind_negtrans :
  forall x y z, P x -> P y -> P z ->
    behind x y = false -> behind y z = false -> behind x z = false.

Lemma insert_by_perm (x : A) (l : list A) :
  Permutation (insert_by behind x l) (x :: l).
Proof.
  induction l as [|y ys IH]; cbn; [reflexivity|].
  destruct (behind x y); [|reflexivity].
  rewrite IH. apply perm_swap.
Qed.

Lemma stable_sort_perm (l : list A) : Permutation (stable_sort behind l) l.
Proof.
  induction l as [|x l IH]; cbn; [reflexivity|].
  rewrite insert_by_perm. constructor. exact IH.
Qed.

Lemma stable_sort_In (l : list A) (x : A) :
  In x (stable_sort behind l) <-> In x l.
Proof.
  split; apply Permutation_in;
    [apply stable_sort_perm | symmetry; apply stable_sort_perm].
Qed.

Lemma stable_sort_Forall (Q : A -> Prop) (l : list A) :
  Forall Q l -> Forall Q (stable_sort behind l).
Proof.
  rewrite !Forall_forall. intros H x Hx. apply H, stable_sort_In, Hx.
Qed.

Lemma insert_by_front (x : A) (l : list A) :
  Forall (not_behind behind x) l -> insert_by behind x l = x :: l.
Proof.
  destruct l as [|y ys]; [reflexivity|]. intros H. cbn.
  inversion H as [|? ? Hy _]; subst. unfold not_behind in Hy.
  rewrite Hy. reflexivity.
Qed.

Lemma sorted_head_front (x y : A) (ys : list A) :
  P x -> Forall P (y :: ys) ->
  StronglySorted (not_behind behind) (y :: ys) ->
  behind x y = false -> Forall (not_behind behind x) (y :: ys).
Proof.
  intros Px HP HS Hxy. apply StronglySorted_inv in HS.
  destruct HS as [_ HF]. inversion HP as [|? ? Py Pys]; subst.
  constructor; [exact Hxy|].
  rewrite Forall_forall in *. intros z Hz.
  apply (behind_negtrans x y z); auto. apply HF, Hz.
Qed.

Lemma insert_by_sorted (x : A) (l : list A) :
  P x -> Forall P l -> StronglySorted (not_behind behind) l ->
  StronglySorted (not_behind behind) (insert_by behind x l).
Proof.
  intros Px. induction l as [|y ys IH]; intros HP HS; cbn.
  - repeat constructor.
  - destruct (behind x y) eqn:E.
    + inversion HP as [|? ? Py Pys]; subst.
      pose proof (StronglySorted_inv HS) as [HS' HF].
      constructor; [apply IH; assumption|].
      rewrite Forall_forall in *. intros z Hz.
      apply (Permutation_in _ (insert_by_perm x ys)) in Hz.
      destruct Hz as [<-|Hz]; [apply behind_asym; assumption|].
      apply HF, Hz.
    + constructor; [exact HS|].
      apply sorted_head_front; assumption.
Qed.

Lemma stable_sort_sorted (l : list A) :
  Forall P l -> StronglySorted (not_behind behind) (stable_sort behind l).
Proof.
  induction l as [|x l IH]; intros HP; cbn; [constructor|].
  inversion HP; subst.
  apply insert_by_sorted; auto. apply stable_sort_Forall. assumption.
Qed.

Lemma insert_by_filter (f : A -> bool) (x : A) (l : list A) :
  P x -> Forall P l -> StronglySorted (not_behind behind) l ->
  filter f (insert_by behind x l) =
  if f x then insert_by behind x (filter f l) else filter f l.
Proof.
  intros Px. induction l as [|y ys IH]; intros HP HS.
  - cbn. destruct (f x); reflexivity.
  - cbn [insert_by]. destruct (behind x y) eqn:E.
    + inversion HP as [|? ? Py Pys]; subst.
      pose proof (StronglySorted_inv HS) as [HS' HF].
      cbn [filter]. rewrite (IH Pys HS').
      destruct (f y), (f x); cbn [insert_by]; rewrite ?E; reflexivity.
    + pose proof (sorted_head_front x y ys Px HP HS E) as HF.
      cbn [filter]. destruct (f x) eqn:Ex; [|reflexivity].
      change (if f y then y :: filter f ys else filter f ys)
        with (filter f (y :: ys)).
      symmetry. apply insert_by_front.
      rewrite Forall_forall in *. intros z Hz. apply HF.
      apply filter_In in Hz. tauto.
Qed.

(** Filtering commutes with the stable sort. *)
Lemma stable_sort_filter (f : A -> bool) (l : list A) :
  Forall P l ->
  filter f (stable_sort behind l) = stable_sort behind (filter f l).
Proof.
  induction l as [|x l IH]; intros HP; [reflexivity|].
  inversion HP as [|? ? Px Pl]; subst.
  cbn [stable_sort fold_right filter].
  change (fold_right (insert_by behind) [] l) with (stable_sort behind l).
  rewrite insert_by_filter; auto using stable_sort_Forall, stable_sort_sorted.
  rewrite (IH Pl). destruct (f x); reflexivity.
Qed.
End StableSort.

(** ** The comparator of the program's sorts *)

Lemma behind_by_ltb {A : Type} (key : A -> float) (x y : A) :
  not_nan (key x) -> not_nan (key y) ->
  behind_by key x y = (key x <? key y)%float.
Proof. intros. unfold behind_by. apply sub_pos_ltb; assumption. Qed.

Lemma behind_by_asym {A : Type} (key : A -> float) (x y : A) :
  not_nan (key x) -> not_nan (key y) ->
  behind_by key x y = true -> behind_by key y x = false.
Proof.
  intros Nx Ny. rewrite !behind_by_ltb by assumption. intros H.
  apply num_ge_ltb_false, ltb_true_ge, H.
Qed.

Lemma behind_by_negtrans {A : Type} (key : A -> float) (x y z : A) :
  not_nan (key x) -> not_nan (key y) -> not_nan (key z) ->
  behind_by key x y = false -> behind_by key y z = false ->
  behind_by key x z = false.
Proof.
  intros Nx Ny Nz. rewrite !behind_by_ltb by assumption. intros H1 H2.
  apply num_ge_ltb_false.
  apply num_ge_trans with (key y); apply ltb_false_ge; assumption.
Qed.

(** Sorting by [(a, b) => key(b) - key(a)] orders keys that are not NaN
    descending. *)
Lemma sort_descending {A : Type} (key : A -> float) (l : list A) :
  Forall (fun a => not_nan (key a)) l ->
  StronglySorted (descending key) (stable_sort (behind_by key) l).
Proof.
  intros HP.
  apply StronglySorted_weaken with (R := not_behind (behind_by key)).
  - intros a b Ha Hb Hab. rewrite Forall_forall in HP.
    apply stable_sort_In in Ha, Hb. unfold not_behind in Hab.
    rewrite behind_by_ltb in Hab by auto.
    apply ltb_false_ge; auto.
  - apply stable_sort_sorted with (P := fun a => not_nan (key a)).
    + apply behind_by_asym.
    + apply behind_by_negtrans.
    + exact HP.
Qed.

(** [ORDER BY key DESC] orders the keys descending. *)
Lemma order_by_desc_sorted {A : Type} (key : A -> Z) (l : list A) :
  StronglySorted (fun x y => key y <= key x) (order_by_desc key l).
Proof.
  apply StronglySorted_weaken
    with (R := not_behind (fun x y => key x <? key y)).
  - intros a b _ _ H. unfold not_behind in H. apply Z.ltb_ge in H. exact H.
  - apply stable_sort_sorted with (P := fun _ => True).
    + intros x y _ _ H. apply Z.ltb_lt in H. apply Z.ltb_ge. lia.
    + intros x y z _ _ _ H1 H2. apply Z.ltb_ge in H1, H2. apply Z.ltb_ge. lia.
    + apply Forall_forall. trivial.
Qed.

Lemma insert_by_back {A : Type} (behind : A -> A -> bool) (x : A)
    (l : list A) :
  Forall (fun y => behind x y = true) l -> insert_by behind x l = l ++ [x].
Proof.
  induction l as [|y ys IH]; intros H; [reflexivity|].
  inversion H as [|? ? Hy Hys]; subst. cbn. rewrite Hy, IH by assumption.
  reflexivity.
Qed.

(** Rows stored with strictly increasing keys come back in reverse. *)
Lemma order_by_desc_increasing {A : Type} (key : A -> Z) (l : list A) :
  StronglySorted (fun x y => key x < key y) l -> order_by_desc key l = rev l.
Proof.
  intros HS. induction HS as [|x l HS IH HF]; [reflexivity|].
  unfold order_by_desc in *. cbn [stable_sort fold_right rev].
  change (fold_right (insert_by (fun x y => key x <? key y)) [] l)
    with (stable_sort (fun x y => key x <? key y) l).
  rewrite IH. apply insert_by_back.
  rewrite Forall_forall in *. intros y Hy. apply Z.ltb_lt, HF.
  apply in_rev, Hy.
Qed.

(** ** Bytes and words *)

Lemma Z_of_byte_of_Z (z : Z) : Z_of_byte (byte_of_Z z) = z mod 256.
Proof.
  unfold Z_of_byte, byte_of_Z.
  assert (Hr : 0 <= z mod 256 < 256) by (apply Z.mod_pos_bound; lia).
  destruct (Byte.of_N (Z.to_N (z mod 256))) as [b|] eqn:E.
  - apply Byte.to_of_N in E. rewrite E. apply Z2N.id. lia.
  - apply Byte.of_N_None_iff in E. lia.
Qed.

Ltac ltb_cases :=
  repeat match goal with
         | |- context [Z.ltb ?a ?b] => destruct (Z.ltb_spec a b); try lia
         end.

Ltac bool_simpl :=
  cbn [andb orb]; rewrite ?andb_false_r, ?orb_false_r; cbn [andb orb].

Lemma le_word_le_bytes (w : Z) (rest : list byte) :
  le_word (le_bytes w ++ rest) 0 = word32 w.
Proof.
  unfold le_word, le_bytes, word32. cbn [app nth Nat.add].
  rewrite !Z_of_byte_of_Z.
  change 256 with (2 ^ 8).
  apply Z.bits_inj'. intros n Hn.
  rewrite !Z.lor_spec, !Z.shiftl_spec by lia.
  rewrite (Z.testbit_mod_pow2 w 32), (Z.testbit_mod_pow2 w 8) by lia.
  destruct (Z.ltb_spec n 8); [|destruct (Z.ltb_spec n 16);
    [|destruct (Z.ltb_spec n 24)]].
  - rewrite (Z.testbit_neg_r _ (n - 8)), (Z.testbit_neg_r _ (n - 16)),
      (Z.testbit_neg_r _ (n - 24)) by lia.
    ltb_cases. bool_simpl. reflexivity.
  - rewrite (Z.testbit_neg_r _ (n - 16)), (Z.testbit_neg_r _ (n - 24)) by lia.
    rewrite Z.testbit_mod_pow2, Z.shiftr_spec by lia.
    replace (n - 8 + 8) with n by lia.
    ltb_cases. bool_simpl. reflexivity.
  - rewrite (Z.testbit_neg_r _ (n - 24)) by lia.
    rewrite !Z.testbit_mod_pow2, !Z.shiftr_spec by lia.
    replace (n - 16 + 16) with n by lia.
    ltb_cases. bool_simpl. reflexivity.
  - rewrite !Z.testbit_mod_pow2, !Z.shiftr_spec by lia.
    replace (n - 24 + 24) with n by lia.
    ltb_cases; bool_simpl; reflexivity.
Qed.

Lemma le_word_skip (w : Z) (buf : list byte) (off : nat) :
  le_word (le_bytes w ++ buf) (4 + off) = le_word buf off.
Proof. reflexivity. Qed.

Lemma le_word_flat_map (ws : list Z) (i : nat) :
  (i < List.length ws)%nat ->
  le_word (flat_map le_bytes ws) (4 * i) = word32 (nth i ws 0).
Proof.
  revert i. induction ws as [|w ws IH]; intros i Hi; [cbn in Hi; lia|].
  cbn [flat_map]. destruct i as [|i].
  - apply le_word_le_bytes.
  - replace (4 * S i)%nat with (4 + 4 * i)%nat by lia.
    rewrite le_word_skip. cbn [nth]. apply IH. cbn in Hi. lia.
Qed.

Lemma length_flat_map_le_bytes (ws : list Z) :
  List.length (flat_map le_bytes ws) = (4 * List.length ws)%nat.
Proof. induction ws as [|w ws IH]; cbn in *; lia. Qed.

(** The elements of a fresh Float32Array are the patterns it was built
    from. *)
Lemma Float32Array_words_of_bits (ws : list Z) :
  Float32Array_words (Float32Array_of_bits ws) = map word32 ws.
Proof.
  unfold Float32Array_words, Float32Array_of_bits, Float32Array_bits.
  cbn [f_length f_buffer f_byteOffset Nat.add].
  apply nth_ext with (d := 0) (d' := word32 0).
  - rewrite !length_map, length_seq. reflexivity.
  - rewrite length_map, length_seq. intros n Hn.
    rewrite (map_nth word32).
    rewrite (nth_indep _ 0 (le_word (flat_map le_bytes ws) (4 * 0)))
      by (rewrite length_map, length_seq; exact Hn).
    rewrite (map_nth (fun i => le_word (flat_map le_bytes ws) (4 * i))).
    rewrite seq_nth by exact Hn. cbn [Nat.add].
    apply le_word_flat_map, Hn.
Qed.

(** Decoding the buffer of a vector that fills its array buffer gives the
    vector back. *)
Lemma bufferToVector_vectorToBuffer (v : Float32Array) :
  f_byteOffset v = 0%nat ->
  List.length (f_buffer v) = (4 * f_length v)%nat ->
  bufferToVector (vectorToBuffer v) = Some v.
Proof.
  destruct v as [buf off len]. cbn [f_byteOffset f_buffer f_length].
  intros -> Hlen. unfold bufferToVector, vectorToBuffer.
  cbn [b_byteOffset b_length b_buffer f_buffer].
  rewrite Hlen. replace (4 * len / 4)%nat with len
    by (symmetry; rewrite Nat.mul_comm; apply Nat.div_mul; lia).
  cbn [Nat.modulo Nat.eqb negb Nat.add].
  change (0 mod 4 =? 0)%nat with true. cbn [negb].
  destruct (Nat.ltb_spec (4 * len) (4 * len)); [lia|]. reflexivity.
Qed.

(** ** Binary vector encoding *)

(** C7.  Encoding a vector of 32-bit floats with [vectorToBuffer] and
    decoding the buffer with [bufferToVector] gives the very same vector:
    the same length and the same elements, which are the 32-bit patterns the
    vector was built from.  The buffer holds the elements as contiguous
    little-endian words and its byte length is four times the number of
    dimensions. *)
Theorem vector_buffer_roundtrip (ws : list Z) :
  let v := Float32Array_of_bits ws in
  bufferToVector (vectorToBuffer v) = Some v /\
  Float32Array_words v = map word32 ws /\
  f_length v = List.length ws /\
  Buffer_bytes (vectorToBuffer v) = flat_map le_bytes ws /\
  b_length (vectorToBuffer v) = (4 * f_length v)%nat.
Proof.
  cbn zeta. repeat split.
  - apply bufferToVector_vectorToBuffer; [reflexivity|].
    apply length_flat_map_le_bytes.
  - apply Float32Array_words_of_bits.
  - unfold Buffer_bytes, vectorToBuffer, Float32Array_of_bits.
    cbn [b_length b_byteOffset b_buffer f_buffer skipn].
    apply firstn_all.
  - unfold vectorToBuffer, Float32Array_of_bits.
    cbn [b_length f_buffer f_length]. apply length_flat_map_le_bytes.
Qed.

(** ** The fingerprint generator *)

Lemma Float32Array_elements_words (v : Float32Array) :
  Float32Array_elements v = map f32_of_bits (Float32Array_words v).
Proof.
  unfold Float32Array_elements, Float32Array_words, Float32Array_get.
  rewrite map_map. reflexivity.
Qed.

Lemma Float32Array_from_length (xs : list float) :
  f_length (Float32Array_from xs) = List.length xs.
Proof. unfold Float32Array_from. cbn. apply length_map. Qed.

(** C6.  [createEmbedding] is deterministic: the vector it returns for a
    text and a number of dimensions does not depend on the state it runs in.
    It never throws: it always completes with a vector of the requested
    length, also for a value that is not a string.  For the empty string it
    returns a vector of the requested length whose components are all
    finite. *)
Theorem createEmbedding_deterministic_total (M : MathObject)
    (text : option string) (dimensions : nat) (c1 c2 : Console) :
  fst (createEmbedding M text dimensions c1)
  = fst (createEmbedding M text dimensions c2) /\
  (exists vector,
      fst (createEmbedding M text dimensions c1) = Normal vector /\
      f_length vector = dimensions) /\
  (exists vector,
      fst (createEmbedding M (Some ""%string) dimensions c1) = Normal vector /\
      f_length vector = dimensions /\
      Forall (fun x => is_finite x = true) (Float32Array_elements vector)).
Proof.
  split; [|split].
  - unfold createEmbedding, createEmbedding_try. destruct text; reflexivity.
  - unfold createEmbedding, createEmbedding_try.
    destruct text as [t|]; cbn [fst]; eexists; (split; [reflexivity|]).
    + rewrite Float32Array_from_length, length_map, length_seq. reflexivity.
    + reflexivity.
  - unfold createEmbedding, createEmbedding_try. cbn [fst].
    eexists. split; [reflexivity|]. split.
    + rewrite Float32Array_from_length, length_map, length_seq. reflexivity.
    + rewrite Float32Array_elements_words. unfold Float32Array_from.
      rewrite Float32Array_words_of_bits, !map_map.
      apply Forall_forall. intros x Hx. apply in_map_iff in Hx.
      destruct Hx as (i & <- & _).
      change (embedding_loop M i
                (char_codes (trim (toLowerCase ""%string))) 0 0%float)
        with 0%float.
      rewrite Math_tanh_zero. reflexivity.
Qed.

(** ** The dispatcher *)

(** C10 as stated fails: a call of [storeAssistantMessage] that carries no
    arguments object does not reach the [default] branch; the guard in front
    of the [switch] rejects it with another message. *)
Lemma storeAssistantMessage_without_arguments :
  ~ (forall args : option Args,
        fst (callTool (fun _ _ st => (error_result "", st)) sample_runtime 0 0
               quiet_console (mkServer None false None)
               "storeAssistantMessage" args)
        = error_result "Unknown tool: storeAssistantMessage").
Proof.
  intros H. specialize (H None). vm_compute in H. discriminate H.
Qed.

(** C10, amended.  The tool list advertises [storeAssistantMessage] and the
    [switch] has no case for it.  Every call that carries an arguments
    object falls through to the [default] branch and returns the error
    result "Unknown tool: storeAssistantMessage"; a call without arguments
    is rejected before the [switch] with "No arguments provided".  Either
    way the result has [isError] set and the server state, the messages
    table included, is unchanged. *)
Theorem storeAssistantMessage_unhandled
    (handlers : Tool -> option Args -> Server -> ToolResult * Server)
    (rt : Runtime) (now later : Z) (c : Console) (st : Server)
    (args : option Args) :
  In "storeAssistantMessage"%string listTools /\
  switch_case "storeAssistantMessage" = None /\
  callTool handlers rt now later c st "storeAssistantMessage" args =
    (error_result
       (match args with
        | Some _ => "Unknown tool: storeAssistantMessage"
        | None => "No arguments provided"
        end), st) /\
  isError
    (fst (callTool handlers rt now later c st "storeAssistantMessage" args))
  = true /\
  snd (callTool handlers rt now later c st "storeAssistantMessage" args) = st.
Proof.
  assert (Hcall :
    callTool handlers rt now later c st "storeAssistantMessage" args =
    (error_result
       (match args with
        | Some _ => "Unknown tool: storeAssistantMessage"
        | None => "No arguments provided"
        end), st)).
  { unfold callTool. destruct args; reflexivity. }
  split; [|split; [|split; [|split]]].
  - unfold listTools, MEMORY_TOOLS. cbn. tauto.
  - reflexivity.
  - exact Hcall.
  - rewrite Hcall. reflexivity.
  - rewrite Hcall. reflexivity.
Qed.

(** ** The [manageVector] tool *)

Lemma get_delete_unique (vectorId : Z) (row : VectorRow)
    (vs : list VectorRow) :
  NoDup (map v_id vs) -> In row vs -> Zpos (v_id row) = vectorId ->
  get_vector vectorId vs = Some row /\
  exists before after,
    vs = before ++ row :: after /\
    delete_vector vectorId vs = before ++ after.
Proof.
  intros ND Hin Hid. induction vs as [|v vs IH]; [contradiction|].
  cbn [map] in ND. inversion ND as [|? ? Hnotin ND']; subst.
  unfold get_vector, delete_vector in *. cbn [find filter].
  destruct Hin as [->|Hin].
  - rewrite Z.eqb_refl. cbn [negb]. split; [reflexivity|].
    exists [], vs. split; [reflexivity|]. cbn [app].
    apply forallb_filter_id. apply forallb_forall. intros w Hw.
    apply negb_true_iff, Z.eqb_neq. intros E. apply Hnotin.
    injection E as E. rewrite <- E. apply in_map, Hw.
  - assert (Hne : (Zpos (v_id v) =? Zpos (v_id row)) = false).
    { apply Z.eqb_neq. intros E. injection E as E. apply Hnotin.
      rewrite E. apply in_map, Hin. }
    rewrite Hne. cbn [negb].
    destruct (IH ND' Hin) as (Hg & before & after & Hvs & Hdel).
    split; [exact Hg|].
    exists (v :: before), after. cbn [app]. rewrite <- Hvs, Hdel. tauto.
Qed.

(** C9.  For a [vectorId] that has no row in the vectors table, the
    [update] and [delete] operations of [manageVector] return an error
    result with [isError] set and leave the server state, the vectors table
    included, unchanged; once the arguments pass the checks ahead of the
    lookup (database mode, a non-zero id, and for [update] a vector array)
    the error is "Vector with ID <id> not found".  For an existing
    [vectorId], [delete] in database mode removes exactly that row, leaves
    all other rows in place, and reports [deleted: true]. *)
Theorem manageVector_update_delete (now later : Z) (st : Server) (d : Database)
    (args : Args) (vectorId : Z) :
  db st = Some d ->
  a_vectorId args = Some vectorId ->
  a_operation args = Some "update"%string \/
  a_operation args = Some "delete"%string ->
  (get_vector vectorId (vectors d) = None ->
   isError (fst (manageVector now later st args)) = true /\
   snd (manageVector now later st args) = st /\
   (useInMemory st = false -> vectorId <> 0 ->
    (a_operation args = Some "update"%string ->
     exists numbers, a_vector args = VectorArray numbers) ->
    body (fst (manageVector now later st args))
    = ErrorBody ("Vector with ID " ++ string_of_Z vectorId ++ " not found")))
  /\
  (forall row,
      a_operation args = Some "delete"%string ->
      useInMemory st = false ->
      NoDup (map v_id (vectors d)) ->
      In row (vectors d) -> Zpos (v_id row) = vectorId ->
      fst (manageVector now later st args)
      = mkToolResult (DeleteResult vectorId true now) false /\
      exists before after,
        vectors d = before ++ row :: after /\
        snd (manageVector now later st args)
        = with_db st (with_vectors d (before ++ after))).
Proof.
  intros Hdb Hid Hop. split.
  - intros Hnone. unfold manageVector, manageVector_try.
    rewrite Hid, Hdb.
    destruct Hop as [Hop|Hop]; rewrite Hop; cbn [truthy_string String.eqb
      Ascii.eqb Bool.eqb negb]; destruct (useInMemory st) eqn:Hmem;
      cbn [truthy_number]; destruct (vectorId =? 0) eqn:Hz; cbn [negb orb];
      try (repeat split; try reflexivity; intros; try discriminate;
           apply Z.eqb_eq in Hz; contradiction).
    + destruct (a_vector args) as [|numbers|] eqn:Hv; cbn [vector_missing];
        try rewrite Hnone;
        (repeat split; try reflexivity; intros _ _ Hnum;
         destruct (Hnum eq_refl) as [? ?]; discriminate).
    + rewrite Hnone. repeat split; reflexivity.
  - intros row Hdel Hmem ND Hin Hrow.
    destruct (get_delete_unique vectorId row (vectors d) ND Hin Hrow)
      as (Hg & before & after & Hvs & Hdelv).
    unfold manageVector, manageVector_try.
    rewrite Hid, Hdb, Hdel, Hmem, Hg.
    assert (Hz : (vectorId =? 0) = false)
      by (apply Z.eqb_neq; rewrite <- Hrow; discriminate).
    cbn [truthy_string String.eqb Ascii.eqb Bool.eqb negb truthy_number].
    rewrite Hz. cbn [negb fst snd]. split; [reflexivity|].
    exists before, after. rewrite Hdelv. tauto.
Qed.

Lemma manageVector_update_delete_witness :
  (get_vector 7 (vectors sample_db) = None ->
   isError (fst (manageVector 5000 5001 sample_server
                   (mkArgs (Some "delete"%string) None None VectorMissing None
                      (Some 7) None None None))) = true /\
   snd (manageVector 5000 5001 sample_server
          (mkArgs (Some "delete"%string) None None VectorMissing None
             (Some 7) None None None)) = sample_server /\
   (useInMemory sample_server = false -> 7 <> 0 ->
    (Some "delete"%string = Some "update"%string ->
     exists numbers, VectorMissing = VectorArray numbers) ->
    body (fst (manageVector 5000 5001 sample_server
                 (mkArgs (Some "delete"%string) None None VectorMissing None
                    (Some 7) None None None)))
    = ErrorBody ("Vector with ID " ++ string_of_Z 7 ++ " not found")))
  /\
  (forall row,
      Some "delete"%string = Some "delete"%string ->
      useInMemory sample_server = false ->
      NoDup (map v_id (vectors sample_db)) ->
      In row (vectors sample_db) -> Zpos (v_id row) = 7 ->
      fst (manageVector 5000 5001 sample_server
             (mkArgs (Some "delete"%string) None None VectorMissing None
                (Some 7) None None None))
      = mkToolResult (DeleteResult 7 true 5000) false /\
      exists before after,
        vectors sample_db = before ++ row :: after /\
        snd (manageVector 5000 5001 sample_server
               (mkArgs (Some "delete"%string) None None VectorMissing None
                  (Some 7) None None None))
        = with_db sample_server (with_vectors sample_db (before ++ after))).
Proof.
  exact (manageVector_update_delete 5000 5001 sample_server sample_db
           (mkArgs (Some "delete"%string) None None VectorMissing None
              (Some 7) None None None) 7 eq_refl eq_refl
           (or_intror eq_refl)).
Defined.

(** ** Context assembly *)

Lemma unscored_firstn {A : Type} (n : nat) (rows : list A) :
  firstn n (unscored rows) = unscored (firstn n rows).
Proof. unfold unscored. apply firstn_map. Qed.

Lemma context_items_unscored {A : Type} (rt : Runtime) (time : A -> Z)
    (rows : list A) :
  all_null (context_items rt time (unscored rows)) /\
  map source (context_items rt time (unscored rows)) = rows.
Proof.
  unfold all_null, context_items, unscored. split.
  - apply Forall_forall. intros i Hi. rewrite map_map in Hi.
    apply in_map_iff in Hi. destruct Hi as (x & <- & _). reflexivity.
  - rewrite !map_map. cbn. apply map_id.
Qed.

Lemma sorted_firstn_skipn {A : Type} (key : A -> Z) (n : nat) (l : list A) :
  StronglySorted (fun x y => key y <= key x) l ->
  forall x y, In x (firstn n l) -> In y (skipn n l) -> key y <= key x.
Proof.
  intros HS. revert n. induction HS as [|a l HS IH HF]; intros n x y Hx Hy.
  - rewrite firstn_nil in Hx. contradiction.
  - destruct n as [|n]; [contradiction|]. cbn in Hx, Hy.
    destruct Hx as [<-|Hx].
    + rewrite Forall_forall in HF. apply HF.
      eapply (In_firstn (List.length l)). rewrite firstn_all.
      clear -Hy. revert l Hy. induction n as [|n IHn]; intros l Hy;
        [exact Hy|]. destruct l as [|b l]; [contradiction|].
      right. apply IHn, Hy.
    + eapply IH; eassumption.
Qed.

(** C2 fails on the code: the milestones query has no importance filter, so
    a milestone of importance 'low' is returned in [longTerm.milestones].
    Here the store holds one such milestone and the context is assembled
    without a query. *)
Lemma low_milestone_in_longTerm (rt : Runtime) (c : Console) :
  exists lt i,
    longTerm (getComprehensiveContext rt sample_server None c) = Some lt /\
    In i (lt_milestones lt) /\
    ms_importance (source i) = Some "low"%string /\
    importance_in_long_term (ms_importance (source i)) = false.
Proof.
  eexists. eexists. split; [reflexivity|]. split; [left; reflexivity|].
  split; reflexivity.
Qed.

Lemma scoreItemsByRelevance_items {A : Type} (item_id : A -> positive)
    (st : Server) (items : list A) (queryVector : option Float32Array)
    (primaryType : string) (secondaryType : option string)
    (threshold : float) (s : Scored A) :
  In s (scoreItemsByRelevance item_id st items queryVector primaryType
          secondaryType threshold) ->
  In (item s) items.
Proof.
  assert (Hun : In s (unscored items) -> In (item s) items).
  { unfold unscored. intros H. apply in_map_iff in H.
    destruct H as (i & <- & Hi). exact Hi. }
  unfold scoreItemsByRelevance.
  destruct items as [|i0 rest] eqn:Eitems; [contradiction|].
  rewrite <- Eitems in *.
  destruct queryVector as [q|]; [|exact Hun].
  destruct (db st) as [d|]; [|exact Hun].
  intros H. unfold Array_sort in H. apply stable_sort_In in H.
  apply filter_In in H. destruct H as [H _]. apply in_map_iff in H.
  destruct H as (i & <- & Hi). exact Hi.
Qed.

Lemma pick_items {A : Type} (item_id : A -> positive) (st : Server)
    (rows : list A) (queryVector : option Float32Array)
    (primaryType : string) (secondaryType : option string) (n : float)
    (s : Scored A) :
  In s (pick item_id st rows queryVector primaryType secondaryType n) ->
  In (item s) rows.
Proof.
  unfold pick, Array_slice0. destruct queryVector as [q|]; intros H;
    apply In_firstn in H.
  - eapply scoreItemsByRelevance_items, H.
  - unfold unscored in H. apply in_map_iff in H.
    destruct H as (x & <- & Hx). exact Hx.
Qed.

Lemma context_items_source {A : Type} (rt : Runtime) (time : A -> Z)
    (rows : list (Scored A)) (i : ContextItem A) :
  In i (context_items rt time rows) ->
  exists s, In s rows /\ source i = item s.
Proof.
  unfold context_items. intros H. apply in_map_iff in H.
  destruct H as (s & <- & Hs). exists s. split; [exact Hs | reflexivity].
Qed.

(** The sibling queries do filter: whatever the store and the query, the
    decisions and requirements of [longTerm] have importance 'medium',
    'high' or 'critical'. *)
Lemma longTerm_decisions_requirements_filtered (rt : Runtime) (st : Server)
    (userMessage : option string) (c : Console) (lt : LongTerm) :
  longTerm (getComprehensiveContext rt st userMessage c) = Some lt ->
  Forall (fun i => importance_in_long_term (d_importance (source i)) = true)
    (lt_decisions lt) /\
  Forall (fun i => importance_in_long_term (r_importance (source i)) = true)
    (lt_requirements lt).
Proof.
  unfold getComprehensiveContext.
  set (qv := if truthy_string userMessage then _ else None).
  destruct (db st) as [d|]; [|discriminate].
  intros H. apply (f_equal (fun o => match o with
                                     | Some x => x
                                     | None => lt
                                     end)) in H.
  cbv beta iota zeta in H. cbn [longTerm] in H. subst lt.
  cbn [lt_decisions lt_requirements].
  split; apply Forall_forall; intros i Hi;
    apply context_items_source in Hi; destruct Hi as (s & Hs & ->);
    apply pick_items in Hs; unfold sql_limit, order_by_desc in Hs;
    apply In_firstn in Hs; apply stable_sort_In in Hs;
    apply filter_In in Hs; tauto.
Qed.

Lemma firstn_5_15 {A : Type} (l : list A) :
  firstn 5 (sql_limit 15 l) = firstn 5 l.
Proof. unfold sql_limit. rewrite firstn_firstn. reflexivity. Qed.

(** C5 fails on the code in in-memory mode, the mode the server runs in
    without a database URL, where [db] stays [null].  There the
    [storeUserMessage] case keeps the message in the in-memory store and
    the [getRecentMessages] case, its sibling, returns it; but
    [getComprehensiveContext] has no branch for the mode, its first
    [db.prepare] throws, and the context comes back with the message of
    that exception and its partitions still the empty objects: no
    [recentMessages], although one message is stored. *)
Theorem context_misses_in_memory_messages (rt : Runtime)
    (toISOString : Z -> string) (now : Z) (content : string)
    (indexed : option TopK) (c : Console) :
  let stored := storeUserMessage_inMemory now inMemoryStore content None None in
  let ctx := getComprehensiveContext rt (mkServer None true indexed) None c in
  mem_messages (snd stored)
  = [mkMemoryMessage "user" content now "low" None] /\
  fst (getRecentMessages_inMemory toISOString (snd stored) None None)
  = [(mkMemoryMessage "user" content now "low" None, toISOString now)] /\
  shortTerm ctx = None /\ longTerm ctx = None /\ episodic ctx = None /\
  context_error ctx = Some null_prepare.
Proof.
  cbn zeta. split; [reflexivity|]. split.
  - unfold getRecentMessages_inMemory, storeUserMessage_inMemory.
    cbn [truthy_string fst snd mem_messages app inMemoryStore].
    rewrite Array_slice0_10. reflexivity.
  - unfold getComprehensiveContext. cbn [db truthy_string].
    repeat split; reflexivity.
Qed.

(** X26.  When the context is assembled on a connected store without a
    query (no message, or the empty string), every item of every partition
    has [relevance] equal to [null] and the semantic partition is the empty
    object.  [shortTerm.recentMessages] holds the first five rows of the
    messages in descending order of creation time: [min 5 total] items,
    ordered descending, none of them older than a message that was left
    out; when the messages were stored with increasing time stamps these are
    the last five stored, newest first. *)
Theorem context_without_query (rt : Runtime) (d : Database)
    (in_memory : bool) (indexed : option TopK) (userMessage : option string)
    (c : Console) :
  truthy_string userMessage = false ->
  exists st lt ep,
    let ctx :=
      getComprehensiveContext rt (mkServer (Some d) in_memory indexed)
        userMessage c in
    shortTerm ctx = Some st /\ longTerm ctx = Some lt /\
    episodic ctx = Some ep /\ semantic ctx = SemanticEmpty /\
    (all_null (recentMessages st) /\ all_null (activeFiles st) /\
     all_null (lt_milestones lt) /\ all_null (lt_decisions lt) /\
     all_null (lt_requirements lt) /\ all_null (recentEpisodes ep)) /\
    map source (recentMessages st)
    = firstn 5 (order_by_desc m_created_at (messages d)) /\
    List.length (recentMessages st) = Nat.min 5 (List.length (messages d)) /\
    StronglySorted (fun x y => m_created_at y <= m_created_at x)
      (map source (recentMessages st)) /\
    (exists older,
        Permutation (messages d) (map source (recentMessages st) ++ older) /\
        forall x y, In x (map source (recentMessages st)) -> In y older ->
                    m_created_at y <= m_created_at x) /\
    (StronglySorted (fun x y => m_created_at x < m_created_at y)
       (messages d) ->
     map source (recentMessages st) = firstn 5 (rev (messages d))).
Proof.
  intros Hq. unfold getComprehensiveContext. rewrite Hq.
  cbn [db]. unfold pick. rewrite !Array_slice0_5, !Array_slice0_3.
  rewrite !unscored_firstn.
  do 3 eexists. cbn zeta.
  cbn [shortTerm longTerm episodic semantic recentMessages activeFiles
       lt_milestones lt_decisions lt_requirements recentEpisodes].
  split; [reflexivity|]. split; [reflexivity|]. split; [reflexivity|].
  split; [reflexivity|].
  split; [repeat split; apply context_items_unscored|].
  assert (Hsrc :
    map source
      (context_items rt m_created_at
         (unscored
            (firstn 5 (sql_limit 15 (order_by_desc m_created_at (messages d))))))
    = firstn 5 (order_by_desc m_created_at (messages d))).
  { rewrite (proj2 (context_items_unscored rt m_created_at _)).
    apply firstn_5_15. }
  cbn [recentMessages]. rewrite Hsrc.
  split; [reflexivity|]. split; [|split; [|split]].
  - rewrite <- (length_map source), Hsrc, length_firstn.
    f_equal. apply Permutation_length. unfold order_by_desc.
    apply stable_sort_perm.
  - apply StronglySorted_firstn, order_by_desc_sorted.
  - exists (skipn 5 (order_by_desc m_created_at (messages d))). split.
    + rewrite firstn_skipn. symmetry. unfold order_by_desc.
      apply stable_sort_perm.
    + apply sorted_firstn_skipn, order_by_desc_sorted.
  - intros Hinc. rewrite (order_by_desc_increasing _ _ Hinc). reflexivity.
Qed.

Lemma context_without_query_witness :
  exists st lt ep,
    let ctx := getComprehensiveContext sample_runtime
                 (mkServer (Some twenty_db) false None) None quiet_console in
    shortTerm ctx = Some st /\ longTerm ctx = Some lt /\
    episodic ctx = Some ep /\ semantic ctx = SemanticEmpty /\
    (all_null (recentMessages st) /\ all_null (activeFiles st) /\
     all_null (lt_milestones lt) /\ all_null (lt_decisions lt) /\
     all_null (lt_requirements lt) /\ all_null (recentEpisodes ep)) /\
    map source (recentMessages st)
    = firstn 5 (order_by_desc m_created_at (messages twenty_db)) /\
    List.length (recentMessages st)
    = Nat.min 5 (List.length (messages twenty_db)) /\
    StronglySorted (fun x y => m_created_at y <= m_created_at x)
      (map source (recentMessages st)) /\
    (exists older,
        Permutation (messages twenty_db)
          (map source (recentMessages st) ++ older) /\
        forall x y, In x (map source (recentMessages st)) -> In y older ->
                    m_created_at y <= m_created_at x) /\
    (StronglySorted (fun x y => m_created_at x < m_created_at y)
       (messages twenty_db) ->
     map source (recentMessages st) = firstn 5 (rev (messages twenty_db))).
Proof.
  exact (context_without_query sample_runtime twenty_db false None None
           quiet_console eq_refl).
Defined.

(** ** Maintenance *)

Lemma NoDup_map_injective {A B : Type} (g : A -> B) (l : list A) (a b : A) :
  NoDup (map g l) -> In a l -> In b l -> g a = g b -> a = b.
Proof.
  induction l as [|x l IH]; intros ND Ha Hb E; [contradiction|].
  cbn [map] in ND. inversion ND as [|? ? Hx ND']; subst.
  destruct Ha as [->|Ha], Hb as [->|Hb]; auto.
  - exfalso. apply Hx. rewrite E. apply in_map, Hb.
  - exfalso. apply Hx. rewrite <- E. apply in_map, Ha.
Qed.

Lemma NoDup_map_filter {A B : Type} (g : A -> B) (f : A -> bool)
    (l : list A) :
  NoDup (map g l) -> NoDup (map g (filter f l)).
Proof.
  induction l as [|x l IH]; intros ND; [constructor|].
  cbn [map] in ND. inversion ND as [|? ? Hx ND']; subst.
  cbn [filter]. destruct (f x); [|auto].
  cbn [map]. constructor; [|auto].
  intros Hin. apply Hx. apply in_map_iff in Hin.
  destruct Hin as (y & <- & Hy). apply in_map.
  apply filter_In in Hy. tauto.
Qed.

Lemma filter_filter {A : Type} (f g : A -> bool) (l : list A) :
  filter f (filter g l) = filter (fun x => g x && f x) l.
Proof.
  induction l as [|x l IH]; [reflexivity|]. cbn [filter].
  destruct (g x); cbn [filter andb]; [destruct (f x)|]; rewrite IH;
    reflexivity.
Qed.

(** Deleting the found rows one by one keeps the rows whose id was not
    found. *)
Lemma delete_each_filter (found vs : list VectorRow) :
  delete_each found vs =
  filter (fun w => negb (existsb (fun v => (v_id v =? v_id w)%positive) found))
    vs.
Proof.
  unfold delete_each. revert vs.
  induction found as [|v found IH]; intros vs; cbn [fold_left existsb].
  - symmetry. apply forallb_filter_id, forallb_forall. reflexivity.
  - rewrite IH. unfold delete_vector. rewrite filter_filter.
    apply filter_ext. intros w. rewrite negb_orb. f_equal.
    cbn [Z.eqb]. rewrite Pos.eqb_sym. reflexivity.
Qed.

Lemma delete_each_found (f : VectorRow -> bool) (vs : list VectorRow) :
  NoDup (map v_id vs) ->
  delete_each (filter f vs) vs = filter (fun v => negb (f v)) vs.
Proof.
  intros ND. rewrite delete_each_filter. apply filter_ext_in. intros w Hw.
  f_equal. destruct (f w) eqn:Ef.
  - apply existsb_exists. exists w. split; [|apply Pos.eqb_refl].
    apply filter_In. tauto.
  - destruct (existsb _ (filter f vs)) eqn:Ex; [|reflexivity].
    apply existsb_exists in Ex. destruct Ex as (v & Hv & Eid).
    apply filter_In in Hv. destruct Hv as [Hv Efv].
    apply Pos.eqb_eq in Eid.
    rewrite (NoDup_map_injective v_id vs v w ND Hv Hw Eid) in Efv.
    congruence.
Qed.

Lemma unique_key_count (k : Z * string) (vs : list VectorRow) :
  NoDup (map content_key vs) ->
  (List.length (filter (has_content_key k) vs) <= 1)%nat.
Proof.
  induction vs as [|v vs IH]; intros ND; [cbn; lia|].
  cbn [map] in ND. inversion ND as [|? ? Hv ND']; subst.
  cbn [filter]. unfold has_content_key at 1.
  destruct (content_key_dec (content_key v) k) as [E|E]; [|auto].
  cbn [List.length].
  assert (Hnil : filter (has_content_key k) vs = []).
  { destruct (filter (has_content_key k) vs) as [|w ws] eqn:Ew;
      [reflexivity|].
    exfalso. apply Hv.
    assert (Hw : In w (filter (has_content_key k) vs))
      by (rewrite Ew; left; reflexivity).
    apply filter_In in Hw. destruct Hw as [Hw Hk].
    unfold has_content_key in Hk.
    destruct (content_key_dec (content_key w) k) as [E'|]; [|discriminate].
    rewrite E, <- E'. apply in_map, Hw. }
  rewrite Hnil. cbn. lia.
Qed.

(** With one fingerprint per content there is nothing to collapse. *)
Lemma duplicate_keys_unique (vs : list VectorRow) :
  NoDup (map content_key vs) -> duplicate_keys vs = [].
Proof.
  intros ND. unfold duplicate_keys.
  induction (nodup content_key_dec (map content_key vs)) as [|k ks IH];
    [reflexivity|].
  cbn [filter]. pose proof (unique_key_count k vs ND) as Hc.
  destruct (Nat.ltb_spec 1 (List.length (filter (has_content_key k) vs)));
    [lia | exact IH].
Qed.

Lemma filter_owner_exists (d : Database) (vs : list VectorRow) :
  filter (fun v => negb (type_in ["code_snippet"%string] v
                         && negb (existsb (fun s => v_content_id v =? Zpos (cs_id s))
                                    (code_snippets d))))
    (filter (fun v => negb (type_in ["code_file"%string] v
                            && negb (existsb (fun f => v_content_id v =? Zpos (cf_id f))
                                       (code_files d))))
       (filter (fun v => negb (type_in message_types v
                               && negb (existsb (fun m => v_content_id v =? Zpos (m_id m))
                                          (messages d))))
          vs))
  = filter (owner_exists d) vs.
Proof.
  rewrite !filter_filter. apply filter_ext. intros v. unfold owner_exists.
  rewrite !negb_andb, !negb_involutive. apply andb_assoc.
Qed.

(** The three rounds of orphan removal keep the rows whose owner exists. *)
Lemma clean_orphans (d : Database) (vs : list VectorRow) :
  NoDup (map v_id vs) ->
  delete_each
    (orphanedSnippetVectors d
       (delete_each
          (orphanedFileVectors d
             (delete_each (orphanedMessageVectors d vs) vs))
          (delete_each (orphanedMessageVectors d vs) vs)))
    (delete_each
       (orphanedFileVectors d (delete_each (orphanedMessageVectors d vs) vs))
       (delete_each (orphanedMessageVectors d vs) vs))
  = filter (owner_exists d) vs.
Proof.
  intros ND.
  unfold orphanedMessageVectors, orphanedFileVectors, orphanedSnippetVectors.
  rewrite !(delete_each_found _ vs ND).
  rewrite !(delete_each_found _ _ (NoDup_map_filter v_id _ vs ND)).
  rewrite !(delete_each_found _ _
              (NoDup_map_filter v_id _ _ (NoDup_map_filter v_id _ vs ND))).
  apply filter_owner_exists.
Qed.

(** C8.  On a vectors table with at most one fingerprint per
    (content_id, content_type), [performVectorMaintenance] with default
    options in database mode leaves exactly the fingerprints whose owning
    row exists, unchanged and in order: every fingerprint of type
    'user_message' or 'assistant_message' whose message is gone is deleted,
    and every fingerprint whose owner exists, or whose type has no owner
    table, is still there.  Nothing is collapsed and no error is
    recorded. *)
Theorem maintenance_removes_orphans (st : Server) (d : Database) :
  db st = Some d -> useInMemory st = false ->
  NoDup (map v_id (vectors d)) ->
  NoDup (map content_key (vectors d)) ->
  exists vs',
    snd (performVectorMaintenance st no_options)
    = with_db st (with_vectors d vs') /\
    vs' = filter (owner_exists d) (vectors d) /\
    (forall v, In v (vectors d) ->
       v_content_type v = "user_message"%string \/
       v_content_type v = "assistant_message"%string ->
       (forall m, In m (messages d) -> Zpos (m_id m) <> v_content_id v) ->
       ~ In v vs') /\
    (forall v, In v (vectors d) -> owner_exists d v = true -> In v vs') /\
    (forall v, In v vs' -> In v (vectors d)) /\
    vectorsOptimized (fst (performVectorMaintenance st no_options)) = 0%nat /\
    errors (fst (performVectorMaintenance st no_options)) = [].
Proof.
  intros Hdb Hmem NDid NDkey.
  exists (filter (owner_exists d) (vectors d)).
  assert (Hrun : exists n,
    performVectorMaintenance st no_options =
    (mkResults false n 0 [],
     with_db st (with_vectors d (filter (owner_exists d) (vectors d))))).
  { unfold performVectorMaintenance. rewrite Hdb, Hmem.
    cbn [no_options o_forceRebuild o_cleanOrphans o_optimizeStorage
         option_default].
    rewrite !clean_orphans by exact NDid.
    rewrite duplicate_keys_unique by (apply NoDup_map_filter, NDkey).
    cbn [fold_left]. eexists. reflexivity. }
  destruct Hrun as [n Hrun].
  rewrite Hrun. cbn [fst snd vectorsOptimized errors].
  repeat split; try reflexivity.
  - intros v Hv Htype Hgone Hin. apply filter_In in Hin.
    destruct Hin as [_ Hown]. unfold owner_exists in Hown.
    apply andb_prop in Hown. destruct Hown as [Hown _].
    apply andb_prop in Hown. destruct Hown as [Hown _].
    apply orb_prop in Hown. destruct Hown as [Hown|Hown].
    + unfold type_in, message_types in Hown. cbn [existsb] in Hown.
      destruct Htype as [E|E]; rewrite E in Hown; discriminate Hown.
    + apply existsb_exists in Hown. destruct Hown as (m & Hm & E).
      apply Z.eqb_eq in E. apply (Hgone m Hm). congruence.
  - intros v Hv Hown. apply filter_In. tauto.
  - intros v Hv. apply filter_In in Hv. tauto.
Qed.

Lemma maintenance_removes_orphans_witness :
  exists vs',
    snd (performVectorMaintenance sample_server no_options)
    = with_db sample_server (with_vectors sample_db vs') /\
    vs' = filter (owner_exists sample_db) (vectors sample_db) /\
    (forall v, In v (vectors sample_db) ->
       v_content_type v = "user_message"%string \/
       v_content_type v = "assistant_message"%string ->
       (forall m, In m (messages sample_db) ->
                  Zpos (m_id m) <> v_content_id v) ->
       ~ In v vs') /\
    (forall v, In v (vectors sample_db) -> owner_exists sample_db v = true ->
               In v vs') /\
    (forall v, In v vs' -> In v (vectors sample_db)) /\
    vectorsOptimized (fst (performVectorMaintenance sample_server no_options))
    = 0%nat /\
    errors (fst (performVectorMaintenance sample_server no_options)) = [].
Proof.
  apply (maintenance_removes_orphans sample_server sample_db).
  - reflexivity.
  - reflexivity.
  - change (NoDup [1; 2; 3]%positive).
    repeat (constructor; [cbn [In]; intuition discriminate|]). constructor.
  - change (NoDup [(10, "user_message"%string); (11, "user_message"%string);
                   (12, "code_file"%string)]).
    repeat (constructor; [cbn [In]; intuition discriminate|]). constructor.
Defined.

(** ** Similarity search *)

Lemma join_vectors_In (vs : list VectorRow) (candidates : list (Z * float))
    (row : VectorRow) (s : float) :
  In (row, s) (join_vectors vs candidates) <->
  In row vs /\ In (Zpos (v_id row), s) candidates.
Proof.
  unfold join_vectors. rewrite in_flat_map. split.
  - intros ([id s'] & Hc & Hin). apply in_map_iff in Hin.
    destruct Hin as (r & E & Hr). injection E as -> ->.
    apply filter_In in Hr. destruct Hr as [Hr Hid].
    apply Z.eqb_eq in Hid. cbn [fst snd] in *. rewrite Hid.
    split; [exact Hr | exact Hc].
  - intros [Hr Hc]. exists (Zpos (v_id row), s). split; [exact Hc|].
    apply in_map_iff. exists row. split; [reflexivity|].
    apply filter_In. split; [exact Hr | apply Z.eqb_refl].
Qed.

Lemma sql_limit_integer_length {A : Type} (n : Z) (rows : list A) :
  0 <= n -> Z.of_nat (List.length (sql_limit_integer n rows)) <= n.
Proof.
  intros Hn. unfold sql_limit_integer.
  destruct (Z.ltb_spec n 0); [lia|].
  pose proof (firstn_le_length (Z.to_nat n) rows). lia.
Qed.

Lemma sql_limit_integer_In {A : Type} (n : Z) (rows : list A) (x : A) :
  In x (sql_limit_integer n rows) -> In x rows.
Proof.
  unfold sql_limit_integer. destruct (n <? 0); [tauto | apply In_firstn].
Qed.

(** The rows of the index path: each is a row of the table with the
    similarity of a candidate, of the content type asked for and at or above
    the threshold. *)
Lemma findSimilarVectors_index_rows (K : TopK) (d : Database)
    (q : Float32Array) (contentType : option string)
    (limit threshold : float) (r : list SimilarRow) :
  findSimilarVectors_index K d q contentType limit threshold = Some r ->
  exists k n,
    sql_integer (limit * 2) = Some k /\ sql_integer limit = Some n /\
    (0 <= n -> Z.of_nat (List.length r) <= n) /\
    Forall (fun row =>
              exists v, In v (vectors d) /\
                In (Zpos (v_id v), s_similarity row)
                  (K (vectors d) (vectorToBuffer q) k) /\
                row = mkSimilarRow (v_id v) (v_content_id v)
                        (v_content_type v) None (s_similarity row) /\
                (truthy_string contentType = true ->
                 contentType = Some (v_content_type v)) /\
                number_ge (s_similarity row) threshold = true) r.
Proof.
  unfold findSimilarVectors_index.
  destruct (sql_integer (limit * 2)) as [k|]; [|discriminate].
  destruct (sql_integer limit) as [n|]; [|discriminate].
  intros H. injection H as <-. exists k, n.
  split; [reflexivity|]. split; [reflexivity|]. split.
  - intros Hn. rewrite length_map. apply sql_limit_integer_length, Hn.
  - apply Forall_forall. intros row Hrow. apply in_map_iff in Hrow.
    destruct Hrow as ([v s] & <- & Hc). apply sql_limit_integer_In in Hc.
    cbn [fst snd s_similarity]. exists v.
    destruct (truthy_string contentType) eqn:Ht; apply filter_In in Hc;
      destruct Hc as [Hc Hf]; apply join_vectors_In in Hc;
      cbn [fst snd] in Hf.
    + apply andb_prop in Hf. destruct Hf as [Hty Hge].
      repeat split; try tauto. intros _.
      destruct contentType as [t|]; [|discriminate].
      unfold content_type_is in Hty. apply String.eqb_eq in Hty.
      rewrite Hty. reflexivity.
    + repeat split; try tauto. discriminate.
Qed.

(** The rows of the scan: the rows of the content type asked for whose
    similarity reaches the threshold, in descending order, cut by
    [slice]. *)
Lemma findSimilarVectors_scan_sorted (d : Database) (q : Float32Array)
    (contentType : option string) (limit threshold : float) :
  let r := findSimilarVectors_scan d q contentType limit threshold in
  Forall (fun row => number_ge (s_similarity row) threshold = true) r /\
  StronglySorted (descending s_similarity) r.
Proof.
  cbn zeta. unfold findSimilarVectors_scan, Array_slice0, Array_sort.
  change (fun x y : SimilarRow => (0 <? s_similarity y - s_similarity x)%float)
    with (behind_by s_similarity).
  match goal with
  | |- context [filter ?f ?l] => set (kept := filter f l)
  end.
  assert (Hk : Forall (fun row => number_ge (s_similarity row) threshold = true)
                 kept).
  { apply Forall_forall. intros row Hrow. apply filter_In in Hrow. tauto. }
  split.
  - apply Forall_forall. intros row Hrow. apply In_firstn in Hrow.
    apply stable_sort_In in Hrow. rewrite Forall_forall in Hk. auto.
  - apply StronglySorted_firstn, sort_descending.
    eapply Forall_impl; [|exact Hk]. intros row Hrow.
    apply (num_ge_not_nan _ _ Hrow).
Qed.

(** What the scan returns are rows of the table with the similarity the
    scan gives them, of the content type asked for. *)
Lemma findSimilarVectors_scan_rows (d : Database) (q : Float32Array)
    (contentType : option string) (limit threshold : float) :
  Forall (fun row =>
            exists v, In v (vectors d) /\
              row = mkSimilarRow (v_id v) (v_content_id v) (v_content_type v)
                      (Some (v_vector v)) (row_similarity q v) /\
              (truthy_string contentType = true ->
               contentType = Some (v_content_type v)))
    (findSimilarVectors_scan d q contentType limit threshold).
Proof.
  unfold findSimilarVectors_scan, Array_sort. apply Forall_forall.
  intros row Hrow.
  apply Array_slice0_In, stable_sort_In, filter_In in Hrow.
  destruct Hrow as [Hrow _]. apply in_map_iff in Hrow.
  destruct Hrow as (v & <- & Hv). exists v.
  destruct (truthy_string contentType) eqn:Ht.
  - apply filter_In in Hv. destruct Hv as [Hv Hty].
    split; [exact Hv|]. split; [reflexivity|]. intros _.
    destruct contentType as [t|]; [|discriminate].
    unfold content_type_is in Hty. apply String.eqb_eq in Hty.
    rewrite Hty. reflexivity.
  - split; [exact Hv|]. split; [reflexivity | discriminate].
Qed.

(** Whatever the limit, every row found reaches the threshold. *)
Lemma findSimilarVectors_reaches (st : Server) (q : Float32Array)
    (contentType : option string) (limit threshold : float) :
  Forall (fun row => number_ge (s_similarity row) threshold = true)
    (findSimilarVectors st q contentType limit threshold).
Proof.
  unfold findSimilarVectors. destruct (db st) as [d|]; [|constructor].
  pose proof (proj1 (findSimilarVectors_scan_sorted d q contentType limit
                       threshold)) as Hscan.
  destruct (vector_index st) as [K|]; [|exact Hscan].
  destruct (findSimilarVectors_index K d q contentType limit threshold)
    as [r|] eqn:E; [|exact Hscan].
  destruct (findSimilarVectors_index_rows _ _ _ _ _ _ _ E)
    as (k & n & _ & _ & _ & Hrows).
  eapply Forall_impl; [|exact Hrows]. cbn beta.
  intros row (v & _ & _ & _ & _ & Hge). exact Hge.
Qed.

(** A limit whose integer part [k] is not negative lets at most [k] rows
    through, on both paths. *)
Lemma findSimilarVectors_count (st : Server) (q : Float32Array)
    (contentType : option string) (limit threshold : float) (k : Z) :
  ToIntegerOrInfinity limit = Integer k -> 0 <= k ->
  Z.of_nat (List.length (findSimilarVectors st q contentType limit threshold))
  <= k.
Proof.
  intros Hk Hpos. unfold findSimilarVectors.
  destruct (db st) as [d|]; [|exact Hpos].
  assert (Hscan :
    Z.of_nat (List.length (findSimilarVectors_scan d q contentType limit
                             threshold)) <= k).
  { unfold findSimilarVectors_scan. apply Array_slice0_length; assumption. }
  destruct (vector_index st) as [K|]; [|exact Hscan].
  destruct (findSimilarVectors_index K d q contentType limit threshold)
    as [r|] eqn:E; [|exact Hscan].
  destruct (findSimilarVectors_index_rows _ _ _ _ _ _ _ E)
    as (k2 & n & _ & Hn & Hlen & _).
  apply sql_integer_part in Hn. rewrite Hk in Hn. injection Hn as <-.
  apply Hlen, Hpos.
Qed.

(** On a store without [vector_top_k] the rows come from the scan, in
    descending order. *)
Lemma findSimilarVectors_scan_order (st : Server) (q : Float32Array)
    (contentType : option string) (limit threshold : float) :
  vector_index st = None ->
  StronglySorted (descending s_similarity)
    (findSimilarVectors st q contentType limit threshold).
Proof.
  intros Hnone. unfold findSimilarVectors. rewrite Hnone.
  destruct (db st) as [d|]; [|constructor].
  apply findSimilarVectors_scan_sorted.
Qed.

(** C3 as stated fails: a caller of [manageVector] can hand in any Number
    as [limit], and with [limit = -1] the [slice(0, limit)] of the scan
    drops the last row and keeps the rest.  On the sample store, whose three
    rows all reach the threshold 0, two rows come back: more than [limit]. *)
Lemma findSimilarVectors_negative_limit :
  let r := findSimilarVectors sample_server sample_query None (-1) 0 in
  List.length r = 2%nat /\ ~ at_most (-1) r.
Proof.
  cbn zeta. split; [vm_compute; reflexivity|].
  unfold at_most. vm_compute. discriminate.
Qed.

(** C3, amended.  For every query vector, content-type filter and
    threshold, and every limit whose integer part [k] is not negative (every
    finite limit from 0 on, whose integer part is at most the limit), the
    list [findSimilarVectors] returns has at most [k] entries and every
    entry has [similarity >= threshold]; the entries of the scan, which is
    what a store without [vector_top_k] runs, are in descending order of
    similarity.  The statement of the index path has no ORDER BY, so the
    order of its rows is the store's. *)
Theorem findSimilarVectors_bounds (st : Server) (queryVector : Float32Array)
    (contentType : option string) (limit threshold : float) (k : Z) :
  ToIntegerOrInfinity limit = Integer k -> 0 <= k ->
  let r := findSimilarVectors st queryVector contentType limit threshold in
  Z.of_nat (List.length r) <= k /\
  Forall (fun row => number_ge (s_similarity row) threshold = true) r /\
  (vector_index st = None -> StronglySorted (descending s_similarity) r).
Proof.
  intros Hk Hpos. cbn zeta. split; [|split].
  - apply findSimilarVectors_count; assumption.
  - apply findSimilarVectors_reaches.
  - apply findSimilarVectors_scan_order.
Qed.

Lemma findSimilarVectors_bounds_witness :
  let r := findSimilarVectors sample_server_indexed sample_query None 2 0 in
  Z.of_nat (List.length r) <= 2 /\
  Forall (fun row => number_ge (s_similarity row) 0 = true) r /\
  (vector_index sample_server_indexed = None ->
   StronglySorted (descending s_similarity) r).
Proof.
  apply (findSimilarVectors_bounds sample_server_indexed sample_query None
           2 0 2); [reflexivity | lia].
Defined.

(** ** Relevance scoring *)

Lemma ltb_not_ge (x y : float) :
  (x <? y)%float = true -> number_ge x y = false.
Proof.
  intros H. unfold number_ge. destruct (y <=? x)%float eqn:E; [|reflexivity].
  apply ltb_key in H. apply leb_key in E. tauto.
Qed.

Lemma Map_get_set {V : Type} (m : list (Z * V)) (k k' : Z) (v : V) :
  Map_get (Map_set m k v) k' = if k' =? k then Some v else Map_get m k'.
Proof.
  induction m as [|[k0 v0] m IH]; cbn [Map_set Map_get].
  - reflexivity.
  - destruct (Z.eqb_spec k k0) as [->|Hk]; cbn [Map_get].
    + destruct (k' =? k0); reflexivity.
    + rewrite IH. destruct (Z.eqb_spec k' k0) as [->|Hk'].
      * destruct (Z.eqb_spec k0 k); [congruence | reflexivity].
      * reflexivity.
Qed.

(** A key is absent from the filled map exactly when it was absent before
    and no row has it. *)
Lemma fill_vectorMap_get (vs : list VectorRow) :
  forall vectorMap k,
    Map_get (fill_vectorMap vs vectorMap) k = None <->
    Map_get vectorMap k = None /\
    forall v, In v vs -> v_content_id v <> k.
Proof.
  induction vs as [|v vs IH]; intros vectorMap k; cbn [fill_vectorMap].
  - cbn [In]. tauto.
  - rewrite IH, Map_get_set.
    cbn [In]. destruct (Z.eqb_spec k (v_content_id v)) as [->|Hk].
    + split; [intros [H _]; discriminate H|].
      intros [_ H]. exfalso. apply (H v); auto.
    + split.
      * intros [H1 H2]. split; [exact H1|].
        intros w [<-|Hw]; [congruence | apply H2, Hw].
      * intros [H1 H2]. split; [exact H1|]. intros w Hw. apply H2. auto.
Qed.

Lemma selected_requested (primaryType : string)
    (secondaryType : option string) (vs : list VectorRow) :
  (if truthy_string secondaryType
   then filter (fun v =>
                  content_type_is primaryType v
                  || content_type_is
                       (match secondaryType with
                        | Some t => t | None => ""%string end) v) vs
   else filter (content_type_is primaryType) vs)
  = filter (requested_type primaryType secondaryType) vs.
Proof.
  unfold requested_type.
  destruct secondaryType as [t|]; cbn [truthy_string];
    [destruct (negb (String.eqb t ""))|]; apply filter_ext; intros v;
    cbn [andb]; rewrite ?orb_false_r; reflexivity.
Qed.

(** C4.  For a non-empty item list and a query vector, on a connected
    store, [scoreItemsByRelevance] returns only input items, each with a
    relevance that is [>= threshold], in descending order of relevance.  An
    item whose id has no stored fingerprint of the requested content types
    is given relevance 0: it is returned with that relevance when the
    threshold allows 0, and it is left out whenever [threshold > 0].  The
    function completes with this list; it does not fall back to the
    unscored items. *)
Theorem scoreItemsByRelevance_filtered_sorted {A : Type}
    (item_id : A -> positive) (d : Database) (in_memory : bool)
    (indexed : option TopK) (items : list A) (queryVector : Float32Array)
    (primaryType : string) (secondaryType : option string)
    (threshold : float) :
  items <> [] ->
  let out :=
    scoreItemsByRelevance item_id (mkServer (Some d) in_memory indexed) items
      (Some queryVector) primaryType secondaryType threshold in
  Forall (fun s => In (item s) items /\
                   exists r, relevance s = Some r /\
                             number_ge r threshold = true) out /\
  StronglySorted (descending relevance_number) out /\
  (forall i, In i items ->
     (forall v, In v (vectors d) ->
                requested_type primaryType secondaryType v = true ->
                v_content_id v <> Zpos (item_id i)) ->
     (forall s, In s out -> item s = i -> relevance s = Some 0%float) /\
     (number_ge 0 threshold = true -> In (mkScored i (Some 0%float)) out) /\
     ((0 <? threshold)%float = true -> forall s, In s out -> item s <> i)).
Proof.
  intros Hne. cbn zeta. unfold scoreItemsByRelevance.
  destruct items as [|i0 rest] eqn:Eitems; [contradiction|].
  rewrite <- Eitems in *. clear Hne. cbn [db].
  rewrite selected_requested.
  pose proof (fill_vectorMap_get
                (filter (requested_type primaryType secondaryType)
                   (vectors d)) []) as Hget.
  set (vectorMap := fill_vectorMap _ _) in *.
  unfold Array_sort.
  change (fun x y : Scored A =>
            (0 <? relevance_number y - relevance_number x)%float)
    with (behind_by (@relevance_number A)).
  set (score := fun i =>
         mkScored i
           (Some match Map_get vectorMap (Zpos (item_id i)) with
                 | Some itemVector => cosineSimilarity queryVector itemVector
                 | None => 0%float
                 end)).
  set (kept := filter (fun s => number_ge (relevance_number s) threshold)
                 (map score items)).
  assert (Hkept : forall s, In s kept <->
            (exists i, In i items /\ s = score i) /\
            number_ge (relevance_number s) threshold = true).
  { intros s. unfold kept. rewrite filter_In, in_map_iff.
    split; intros [(i & H1 & H2) H3]; (split; [exists i|]); auto. }
  assert (Hzero : forall i, In i items ->
            (forall v, In v (vectors d) ->
                       requested_type primaryType secondaryType v = true ->
                       v_content_id v <> Zpos (item_id i)) ->
            score i = mkScored i (Some 0%float)).
  { intros i _ Hno. unfold score. f_equal.
    assert (Hn : Map_get vectorMap (Zpos (item_id i)) = None).
    { apply Hget. split; [reflexivity|]. intros v Hv.
      apply filter_In in Hv. destruct Hv as [Hv Hr]. apply Hno; assumption. }
    rewrite Hn. reflexivity. }
  split; [|split].
  - apply Forall_forall. intros s Hs. apply stable_sort_In in Hs.
    apply Hkept in Hs. destruct Hs as [(i & Hi & ->) Hge].
    split; [exact Hi|]. eexists. split; [reflexivity|]. exact Hge.
  - apply sort_descending. apply Forall_forall. intros s Hs.
    apply Hkept in Hs. destruct Hs as [_ Hge].
    apply (num_ge_not_nan _ _ Hge).
  - intros i Hi Hno. specialize (Hzero i Hi Hno).
    assert (Hrel : forall s, In s (stable_sort (behind_by relevance_number)
                                     kept) ->
                             item s = i -> relevance s = Some 0%float).
    { intros s Hs Hitem. apply stable_sort_In in Hs. apply Hkept in Hs.
      destruct Hs as [(i' & Hi' & ->) _].
      assert (Ei : i' = i) by exact Hitem. subst i'.
      rewrite Hzero. reflexivity. }
    split; [exact Hrel|]. split.
    + intros Hge. apply stable_sort_In, Hkept. split.
      * exists i. split; [exact Hi | symmetry; exact Hzero].
      * exact Hge.
    + intros Hpos s Hs Hitem. pose proof (Hrel s Hs Hitem) as Hr.
      apply stable_sort_In in Hs. apply Hkept in Hs. destruct Hs as [_ Hge].
      unfold relevance_number in Hge. rewrite Hr in Hge.
      rewrite (ltb_not_ge _ _ Hpos) in Hge. discriminate Hge.
Qed.

Lemma scoreItemsByRelevance_filtered_sorted_witness :
  let out :=
    scoreItemsByRelevance m_id sample_server two_messages
      (Some sample_query) "user_message" (Some "assistant_message"%string)
      0.5%float in
  Forall (fun s => In (item s) two_messages /\
                   exists r, relevance s = Some r /\
                             number_ge r 0.5%float = true) out /\
  StronglySorted (descending relevance_number) out /\
  (forall s, In s out -> item s <> unmarked_message).
Proof.
  destruct (scoreItemsByRelevance_filtered_sorted m_id sample_db false None
              two_messages sample_query "user_message"
              (Some "assistant_message"%string) 0.5%float)
    as (Hitems & Hsorted & Hzero); [discriminate|].
  split; [exact Hitems|]. split; [exact Hsorted|].
  destruct (Hzero unmarked_message) as (_ & _ & Hout).
  - right. left. reflexivity.
  - intros v Hv _ E. change (In v sample_vectors) in Hv.
    unfold sample_vectors in Hv. cbn [In] in Hv.
    destruct Hv as [<-|[<-|[<-|[]]]]; cbn [v_content_id] in E;
      discriminate E.
  - apply Hout. reflexivity.
Defined.

(** ** The two paths of the similarity search *)








(** ** Cosine similarity *)

Lemma float_mul_comm (x y : float) : (x * y)%float = (y * x)%float.
Proof.
  apply Prim2SF_inj. rewrite !mul_spec. unfold SF64mul, SFmul.
  destruct (Prim2SF x) as [sx|sx| |sx mx ex], (Prim2SF y) as [sy|sy| |sy my ey];
    try reflexivity; rewrite (xorb_comm sx sy); try reflexivity.
  rewrite (Pos.mul_comm mx my), (Z.add_comm ex ey). reflexivity.
Qed.

Lemma cosine_loop_swap (ab : list (float * float)) :
  forall dotProduct normA normB,
    cosine_loop (map (fun p => (snd p, fst p)) ab) dotProduct normB normA
    = let '(d, nA, nB) := cosine_loop ab dotProduct normA normB in
      (d, nB, nA).
Proof.
  induction ab as [|[x y] ab IH]; intros d nA nB; [reflexivity|].
  cbn [map cosine_loop fst snd]. rewrite (float_mul_comm y x). apply IH.
Qed.

Lemma combine_swap {A B : Type} (l : list A) (l' : list B) :
  combine l' l = map (fun p => (snd p, fst p)) (combine l l').
Proof.
  revert l'. induction l as [|x l IH]; intros [|y l']; try reflexivity.
  cbn [combine map fst snd]. rewrite IH. reflexivity.
Qed.

(** X1.  [cosineSimilarity] is symmetric: the similarity of [a] to [b] is
    the similarity of [b] to [a], bit for bit, for all vectors, those of
    different lengths and those with infinite or NaN components included. *)
Theorem cosineSimilarity_symmetric (a b : Float32Array) :
  cosineSimilarity a b = cosineSimilarity b a.
Proof.
  unfold cosineSimilarity. rewrite (Nat.eqb_sym (f_length b) (f_length a)).
  destruct (f_length a =? f_length b)%nat; [|reflexivity]. cbn [negb].
  rewrite (combine_swap (Float32Array_elements a) (Float32Array_elements b)).
  rewrite cosine_loop_swap.
  destruct (cosine_loop _ 0%float 0%float 0%float) as [[d nA] nB].
  rewrite (orb_comm (sqrt nB =? 0)%float), (float_mul_comm (sqrt nB)).
  reflexivity.
Qed.

Lemma le_word_zero (n off : nat) : le_word (repeat x00 n) off = 0.
Proof.
  unfold le_word. rewrite !nth_repeat. reflexivity.
Qed.

Lemma Float32Array_new_elements (n : nat) :
  Float32Array_elements (Float32Array_new n) = repeat 0%float n.
Proof.
  unfold Float32Array_elements, Float32Array_new, Float32Array_get,
    Float32Array_bits. cbn [f_length f_buffer f_byteOffset].
  assert (H : forall l : list nat,
             map (fun i => f32_of_bits (le_word (repeat x00 (4 * n))
                                          (0 + 4 * i))) l
             = repeat 0%float (List.length l)).
  { induction l as [|i l IH]; [reflexivity|].
    cbn [map List.length repeat]. rewrite le_word_zero, IH. reflexivity. }
  rewrite H, length_seq. reflexivity.
Qed.

Lemma Float32Array_from_zeros (n : nat) :
  Float32Array_from (repeat 0%float n) = Float32Array_new n.
Proof.
  unfold Float32Array_from, Float32Array_of_bits, Float32Array_new.
  rewrite length_map, repeat_length. f_equal.
  induction n as [|n IH]; [reflexivity|].
  replace (4 * S n)%nat with (4 + 4 * n)%nat by lia.
  cbn [repeat map flat_map Nat.add app]. rewrite IH. reflexivity.
Qed.

Lemma cosine_loop_zero_right (xs : list float) (n : nat) :
  forall dotProduct normA,
    snd (cosine_loop (combine xs (repeat 0%float n)) dotProduct normA 0%float)
    = 0%float.
Proof.
  revert n. induction xs as [|x xs IH]; intros [|n] d nA; try reflexivity.
  cbn [repeat combine cosine_loop].
  change (0 + 0 * 0)%float with 0%float. apply IH.
Qed.

Lemma cosine_loop_zero_left (xs : list float) (n : nat) :
  forall dotProduct normB,
    snd (fst (cosine_loop (combine (repeat 0%float n) xs) dotProduct 0%float
                normB))
    = 0%float.
Proof.
  revert n. induction xs as [|x xs IH]; intros [|n] d nB; try reflexivity.
  cbn [repeat combine cosine_loop].
  change (0 + 0 * 0)%float with 0%float. apply IH.
Qed.

Lemma cosineSimilarity_zero_right (q : Float32Array) (n : nat) :
  cosineSimilarity q (Float32Array_new n) = 0%float.
Proof.
  unfold cosineSimilarity.
  destruct (negb (f_length q =? f_length (Float32Array_new n))%nat);
    [reflexivity|].
  rewrite Float32Array_new_elements.
  pose proof (cosine_loop_zero_right (Float32Array_elements q) n 0%float
                0%float) as H.
  destruct (cosine_loop _ 0%float 0%float 0%float) as [[d nA] nB].
  cbn [snd] in H. subst nB.
  change (sqrt 0 =? 0)%float with true. rewrite orb_true_r. reflexivity.
Qed.

Lemma cosineSimilarity_zero_left (q : Float32Array) (n : nat) :
  cosineSimilarity (Float32Array_new n) q = 0%float.
Proof.
  unfold cosineSimilarity.
  destruct (negb (f_length (Float32Array_new n) =? f_length q)%nat);
    [reflexivity|].
  rewrite Float32Array_new_elements.
  pose proof (cosine_loop_zero_left (Float32Array_elements q) n 0%float
                0%float) as H.
  destruct (cosine_loop _ 0%float 0%float 0%float) as [[d nA] nB].
  cbn [snd fst] in H. subst nA.
  change (sqrt 0 =? 0)%float with true. reflexivity.
Qed.

Lemma createEmbedding_blank (M : MathObject) (text : option string)
    (dimensions : nat) (c : Console) :
  blank_text text ->
  fst (createEmbedding M text dimensions c)
  = Normal (Float32Array_new dimensions).
Proof.
  unfold createEmbedding, createEmbedding_try, blank_text.
  destruct text as [t|]; [|reflexivity]. intros ->. cbn [fst]. f_equal.
  rewrite <- Float32Array_from_zeros. f_equal.
  assert (H : forall l : list nat,
             map (fun i => Math_tanh M
                             (embedding_loop M i (char_codes ""%string) 0
                                0%float)) l
             = repeat 0%float (List.length l)).
  { induction l as [|i l IH]; [reflexivity|].
    cbn [map List.length repeat]. rewrite IH. f_equal.
    change (embedding_loop M i (char_codes ""%string) 0 0%float) with 0%float.
    apply Math_tanh_zero. }
  rewrite H, length_seq. reflexivity.
Qed.

(** X2.  A text that is no string, is empty or consists of white space only
    is embedded as the zero vector of the requested length, whatever the
    engine's [Math] functions are, and the zero vector has similarity [0] to
    every vector, in both argument orders. *)
Theorem blank_text_matches_nothing (M : MathObject) (text : option string)
    (dimensions : nat) (c : Console) (q : Float32Array) :
  blank_text text ->
  exists vector,
    fst (createEmbedding M text dimensions c) = Normal vector /\
    Float32Array_elements vector = repeat 0%float dimensions /\
    cosineSimilarity q vector = 0%float /\
    cosineSimilarity vector q = 0%float.
Proof.
  intros Hblank. exists (Float32Array_new dimensions).
  split; [apply createEmbedding_blank, Hblank|].
  split; [apply Float32Array_new_elements|].
  split; [apply cosineSimilarity_zero_right|].
  apply cosineSimilarity_zero_left.
Qed.

Lemma blank_text_matches_nothing_witness :
  exists vector,
    fst (createEmbedding sample_Math (Some "  "%string) 4 quiet_console)
    = Normal vector /\
    Float32Array_elements vector = repeat 0%float 4 /\
    cosineSimilarity sample_query vector = 0%float /\
    cosineSimilarity vector sample_query = 0%float.
Proof.
  exact (blank_text_matches_nothing sample_Math (Some "  "%string) 4
           quiet_console sample_query eq_refl).
Defined.

(** ** Fingerprints read back from the store *)





(** ** Grouping snippets by file *)

Lemma same_key_eq (a b : option string) : same_key a b = true <-> a = b.
Proof.
  destruct a as [x|], b as [y|]; cbn; try (split; congruence).
  rewrite String.eqb_eq. split; congruence.
Qed.

Lemma same_key_refl (a : option string) : same_key a a = true.
Proof. apply same_key_eq. reflexivity. Qed.

Lemma same_key_neq (a b : option string) : a <> b -> same_key a b = false.
Proof.
  intros H. destruct (same_key a b) eqn:E; [|reflexivity].
  apply same_key_eq in E. contradiction.
Qed.

Lemma snippets_of_app (p : option string) (l1 l2 : list SemanticItem) :
  snippets_of p (l1 ++ l2) = snippets_of p l1 ++ snippets_of p l2.
Proof. apply filter_app. Qed.

Lemma group_add_paths (G : list SnippetGroup) (s : SemanticItem)
    (p : option string) :
  In p (map g_file_path (group_add G s)) <->
  In p (map g_file_path G) \/ p = si_file_path s.
Proof.
  induction G as [|g G IH]; cbn [group_add].
  - cbn. intuition congruence.
  - destruct (same_key (g_file_path g) (si_file_path s)) eqn:E.
    + apply same_key_eq in E. cbn [map g_file_path In]. intuition congruence.
    + cbn [map In]. rewrite IH. tauto.
Qed.

Lemma group_add_perm (G : list SnippetGroup) (s : SemanticItem) :
  Permutation (flat_map g_snippets (group_add G s))
    (s :: flat_map g_snippets G).
Proof.
  induction G as [|g G IH]; cbn [group_add].
  - cbn. constructor. constructor.
  - destruct (same_key (g_file_path g) (si_file_path s)).
    + cbn [flat_map g_snippets]. rewrite <- app_assoc. cbn [app].
      apply Permutation_sym, Permutation_middle.
    + cbn [flat_map]. rewrite IH. apply Permutation_sym, Permutation_middle.
Qed.

Lemma group_of_other (seen : list SemanticItem) (s : SemanticItem)
    (g : SnippetGroup) :
  g_file_path g <> si_file_path s ->
  group_of seen g -> group_of (seen ++ [s]) g.
Proof.
  intros Hne [Hs Hr]. split; [|exact Hr].
  rewrite snippets_of_app. unfold snippets_of at 2. cbn [filter].
  rewrite (same_key_neq _ _ Hne), app_nil_r. exact Hs.
Qed.

(** One round of the loop keeps the groups in step with the snippets seen
    so far. *)
Lemma group_add_invariant (seen : list SemanticItem) (s : SemanticItem)
    (G : list SnippetGroup) :
  NoDup (map g_file_path G) ->
  Forall (group_of seen) G ->
  (forall x, In x seen -> In (si_file_path x) (map g_file_path G)) ->
  NoDup (map g_file_path (group_add G s)) /\
  Forall (group_of (seen ++ [s])) (group_add G s).
Proof.
  intros ND HG Hseen.
  assert (Hnew : ~ In (si_file_path s) (map g_file_path G) ->
                 snippets_of (si_file_path s) seen = []).
  { intros Hnot. unfold snippets_of.
    destruct (filter _ seen) as [|x xs] eqn:E; [reflexivity|].
    exfalso. assert (Hx : In x (filter (fun s0 => same_key (si_file_path s)
                                          (si_file_path s0)) seen))
      by (rewrite E; left; reflexivity).
    apply filter_In in Hx. destruct Hx as [Hx Hk]. apply same_key_eq in Hk.
    apply Hnot. rewrite Hk. apply Hseen, Hx. }
  clear Hseen. induction G as [|g G IH]; cbn [group_add].
  - split; [repeat constructor; intros []|].
    constructor; [|constructor]. split.
    + cbn [g_snippets g_file_path]. rewrite snippets_of_app.
      rewrite Hnew by (intros []). unfold snippets_of. cbn [filter app].
      rewrite same_key_refl. reflexivity.
    + exists s, []. split; reflexivity.
  - cbn [map] in ND. inversion ND as [|? ? Hg ND']; subst.
    inversion HG as [|? ? Hgo HG']; subst.
    destruct (same_key (g_file_path g) (si_file_path s)) eqn:E.
    + apply same_key_eq in E. split; [exact ND|].
      constructor.
      * destruct Hgo as [Hs (first & rest & Hfr & Hrel)]. split.
        -- cbn [g_snippets g_file_path]. rewrite snippets_of_app, <- Hs.
           unfold snippets_of. cbn [filter]. rewrite E, same_key_refl.
           reflexivity.
        -- exists first, (rest ++ [s]). cbn [g_snippets g_relevance].
           rewrite Hfr, fold_left_app, <- Hrel. split; reflexivity.
      * rewrite Forall_forall in *. intros g' Hg'.
        apply group_of_other; [|apply HG', Hg'].
        intros E'. apply Hg. rewrite E, <- E'. apply in_map, Hg'.
    + assert (Hne : g_file_path g <> si_file_path s).
      { intros E'. apply same_key_eq in E'. congruence. }
      destruct (IH ND' HG') as [IH1 IH2].
      { intros Hnot. apply Hnew. intros [H|H]; [congruence | auto]. }
      split.
      * cbn [map]. constructor; [|exact IH1].
        intros Hin. apply group_add_paths in Hin.
        destruct Hin as [Hin|Hin]; [auto | congruence].
      * constructor; [apply group_of_other; assumption | exact IH2].
Qed.

Lemma fold_group_add (rest : list SemanticItem) :
  forall (seen : list SemanticItem) (G : list SnippetGroup),
    NoDup (map g_file_path G) ->
    Forall (group_of seen) G ->
    (forall x, In x seen -> In (si_file_path x) (map g_file_path G)) ->
    Permutation (flat_map g_snippets G) seen ->
    let G' := fold_left group_add rest G in
    NoDup (map g_file_path G') /\
    Forall (group_of (seen ++ rest)) G' /\
    (forall x, In x (seen ++ rest) ->
               In (si_file_path x) (map g_file_path G')) /\
    Permutation (flat_map g_snippets G') (seen ++ rest).
Proof.
  induction rest as [|s rest IH]; intros seen G ND HG Hseen Hperm; cbn zeta.
  - cbn [fold_left]. rewrite app_nil_r. auto.
  - cbn [fold_left].
    destruct (group_add_invariant seen s G ND HG Hseen) as [ND' HG'].
    replace (seen ++ s :: rest) with ((seen ++ [s]) ++ rest)
      by (rewrite <- app_assoc; reflexivity).
    apply IH; auto.
    + intros x Hx. apply group_add_paths. apply in_app_or in Hx.
      destruct Hx as [Hx|[<-|[]]]; auto.
    + rewrite group_add_perm, Hperm. apply Permutation_cons_append.
Qed.

Lemma groups_of_snippets (snippets : list SemanticItem) :
  exists G,
    Permutation (groupSimilarSnippetsByFile snippets) G /\
    NoDup (map g_file_path G) /\
    Forall (group_of snippets) G /\
    (forall x, In x snippets -> In (si_file_path x) (map g_file_path G)) /\
    Permutation (flat_map g_snippets G) snippets.
Proof.
  destruct snippets as [|s snippets].
  - exists []. cbn. repeat split; auto; constructor.
  - exists (fold_left group_add (s :: snippets) []).
    split; [apply stable_sort_perm|].
    apply (fold_group_add (s :: snippets) [] []); try constructor.
    intros x [].
Qed.

Lemma Permutation_flat_map {A B : Type} (f : A -> list B) (l l' : list A) :
  Permutation l l' -> Permutation (flat_map f l) (flat_map f l').
Proof.
  induction 1 as [|x l l' _ IH|x y l|l l' l'' _ IH1 _ IH2]; cbn [flat_map].
  - constructor.
  - apply Permutation_app_head, IH.
  - rewrite !app_assoc. apply Permutation_app_tail, Permutation_app_comm.
  - etransitivity; eassumption.
Qed.

(** X3.  [groupSimilarSnippetsByFile] partitions the snippets by file path:
    no two groups have the same [file_path]; a group holds exactly the
    snippets of its file, in the order they came in, and at least one; every
    snippet's file has a group; and the groups taken together are the input
    snippets, none lost and none repeated. *)
Theorem groups_partition_snippets (snippets : list SemanticItem) :
  let groups := groupSimilarSnippetsByFile snippets in
  NoDup (map g_file_path groups) /\
  Forall (fun g => g_snippets g = snippets_of (g_file_path g) snippets /\
                   g_snippets g <> []) groups /\
  Forall (fun s => exists g, In g groups /\
                             g_file_path g = si_file_path s /\
                             In s (g_snippets g)) snippets /\
  Permutation (flat_map g_snippets groups) snippets.
Proof.
  cbn zeta.
  destruct (groups_of_snippets snippets) as (G & HP & ND & HG & Hall & Hperm).
  split; [|split; [|split]].
  - apply Permutation_NoDup with (map g_file_path G); [|exact ND].
    apply Permutation_map, Permutation_sym, HP.
  - apply Forall_forall. intros g Hg.
    apply (Permutation_in _ HP) in Hg. rewrite Forall_forall in HG.
    destruct (HG g Hg) as [Hs (first & rest & Hfr & _)].
    split; [exact Hs | rewrite Hfr; discriminate].
  - apply Forall_forall. intros s Hs.
    pose proof (Hall s Hs) as Hin. apply in_map_iff in Hin.
    destruct Hin as (g & Hpath & Hg). exists g.
    split; [apply (Permutation_in _ (Permutation_sym HP)), Hg|].
    split; [exact Hpath|].
    rewrite Forall_forall in HG. destruct (HG g Hg) as [Hsn _].
    rewrite Hsn. apply filter_In. split; [exact Hs|].
    apply same_key_eq, Hpath.
  - rewrite (Permutation_flat_map g_snippets _ _ HP). exact Hperm.
Qed.

Lemma ltb_irrefl (x : float) : (x <? x)%float = false.
Proof.
  destruct (x <? x)%float eqn:E; [|reflexivity].
  pose proof (num_ge_ltb_false _ _ (ltb_true_ge _ _ E)). congruence.
Qed.

Lemma num_ge_refl (x : float) : not_nan x -> num_ge x x.
Proof. intros N. apply ltb_false_ge; auto. apply ltb_irrefl. Qed.

Lemma higher_fold (rest : list SemanticItem) :
  forall r : float,
    (fold_left higher rest r = r \/
     exists s, In s rest /\ fold_left higher rest r = si_similarity s) /\
    (not_nan r -> Forall (fun s => not_nan (si_similarity s)) rest ->
     not_nan (fold_left higher rest r) /\
     num_ge (fold_left higher rest r) r /\
     Forall (fun s => num_ge (fold_left higher rest r) (si_similarity s))
       rest).
Proof.
  induction rest as [|s rest IH]; intros r; cbn [fold_left].
  - split; [left; reflexivity|]. intros Hr _. split; [exact Hr|].
    split; [|constructor]. apply num_ge_refl, Hr.
  - destruct (IH (higher r s)) as [IH1 IH2]. split.
    + destruct IH1 as [E|(s' & Hs' & E)].
      * rewrite E. unfold higher.
        destruct (r <? si_similarity s)%float; [right; exists s|left];
          cbn [In]; auto.
      * right. exists s'. cbn [In]. auto.
    + intros Hr HF. inversion HF as [|? ? Hs HF']; subst.
      assert (Hh : not_nan (higher r s) /\ num_ge (higher r s) r /\
                   num_ge (higher r s) (si_similarity s)).
      { unfold higher. destruct (r <? si_similarity s)%float eqn:E.
        - split; [exact Hs|]. split; [apply ltb_true_ge, E|].
          apply num_ge_refl, Hs.
        - split; [exact Hr|]. split; [|apply ltb_false_ge; auto].
          apply num_ge_refl, Hr. }
      destruct Hh as (Hn & Hge & Hges).
      destruct (IH2 Hn HF') as (N & G1 & G2).
      split; [exact N|]. split; [eapply num_ge_trans; eassumption|].
      constructor; [eapply num_ge_trans; eassumption | exact G2].
Qed.

(** X4.  When no similarity is NaN, the [relevance] of every group is the
    similarity of one of its snippets and the highest similarity in the
    group, and the groups come in descending order of relevance. *)
Theorem group_relevance_is_highest (snippets : list SemanticItem) :
  Forall (fun s => not_nan (si_similarity s)) snippets ->
  let groups := groupSimilarSnippetsByFile snippets in
  Forall (fun g => (exists s, In s (g_snippets g) /\
                              g_relevance g = si_similarity s) /\
                   Forall (fun s => num_ge (g_relevance g) (si_similarity s))
                     (g_snippets g)) groups /\
  StronglySorted (descending g_relevance) groups.
Proof.
  intros Hnan. cbn zeta.
  destruct (groups_of_snippets snippets) as (G & HP & ND & HG & Hall & Hperm).
  rewrite Forall_forall in HG.
  assert (Hgroup : forall g, In g G ->
            not_nan (g_relevance g) /\
            (exists s, In s (g_snippets g) /\
                       g_relevance g = si_similarity s) /\
            Forall (fun s => num_ge (g_relevance g) (si_similarity s))
              (g_snippets g)).
  { intros g Hg. destruct (HG g Hg) as [Hs (first & rest & Hfr & Hrel)].
    assert (Hin : Forall (fun s => not_nan (si_similarity s))
                    (first :: rest)).
    { rewrite <- Hfr, Hs. apply Forall_forall. intros s Hsin.
      apply filter_In in Hsin. rewrite Forall_forall in Hnan.
      apply Hnan, Hsin. }
    inversion Hin as [|? ? Hf Hr]; subst.
    destruct (higher_fold rest (si_similarity first)) as [Hone H].
    destruct (H Hf Hr) as (N & G1 & G2).
    rewrite Hfr, Hrel. split; [exact N|]. split.
    - destruct Hone as [E|(s & Hs' & E)].
      + exists first. cbn [In]. auto.
      + exists s. cbn [In]. auto.
    - constructor; assumption. }
  split.
  - apply Forall_forall. intros g Hg. apply (Permutation_in _ HP) in Hg.
    apply Hgroup, Hg.
  - destruct snippets as [|s snippets]; [constructor|].
    unfold groupSimilarSnippetsByFile, Array_sort.
    apply (sort_descending g_relevance).
    apply Forall_forall. intros g Hg. apply Hgroup.
    apply (Permutation_in _ HP). unfold groupSimilarSnippetsByFile.
    apply stable_sort_In, Hg.
Qed.

Lemma group_relevance_is_highest_witness :
  let groups := groupSimilarSnippetsByFile sample_snippets in
  Forall (fun g => (exists s, In s (g_snippets g) /\
                              g_relevance g = si_similarity s) /\
                   Forall (fun s => num_ge (g_relevance g) (si_similarity s))
                     (g_snippets g)) groups /\
  StronglySorted (descending g_relevance) groups.
Proof.
  apply (group_relevance_is_highest sample_snippets).
  repeat constructor.
Defined.

(** ** Semantic lookup *)

(** With a content type asked for, every row found has that type. *)
Lemma findSimilarVectors_type (st : Server) (q : Float32Array)
    (contentType : string) (limit threshold : float) :
  contentType <> ""%string ->
  Forall (fun row => s_content_type row = contentType)
    (findSimilarVectors st q (Some contentType) limit threshold).
Proof.
  intros Hne.
  assert (Ht : truthy_string (Some contentType) = true).
  { cbn. destruct (String.eqb_spec contentType ""); [contradiction|].
    reflexivity. }
  unfold findSimilarVectors. destruct (db st) as [d|]; [|constructor].
  assert (Hscan :
    Forall (fun row => s_content_type row = contentType)
      (findSimilarVectors_scan d q (Some contentType) limit threshold)).
  { eapply Forall_impl;
      [|apply (findSimilarVectors_scan_rows d q (Some contentType))].
    cbn beta. intros row (v & _ & -> & Hty). cbn [s_content_type].
    specialize (Hty Ht). injection Hty as ->. reflexivity. }
  destruct (vector_index st) as [K|]; [|exact Hscan].
  destruct (findSimilarVectors_index K d q (Some contentType) limit threshold)
    as [r|] eqn:E; [|exact Hscan].
  destruct (findSimilarVectors_index_rows _ _ _ _ _ _ _ E)
    as (k & n & _ & _ & _ & Hrows).
  eapply Forall_impl; [|exact Hrows]. cbn beta.
  intros row (v & _ & _ & Hrow & Hty & _). rewrite Hrow.
  cbn [s_content_type]. specialize (Hty Ht). injection Hty as ->.
  reflexivity.
Qed.

(** The vectors [findSimilarItems] looks the details up for. *)
Lemma similarVectors_above (st : Server) (q : Float32Array)
    (contentType : string) (alternativeType : option string)
    (limit threshold : float) :
  let similarVectors :=
    if truthy_string alternativeType then
      Array_slice0
        (Array_sort (fun a b => (s_similarity b - s_similarity a)%float)
           (findSimilarVectors st q (Some contentType) limit threshold
            ++ findSimilarVectors st q alternativeType limit threshold))
        limit
    else findSimilarVectors st q (Some contentType) limit threshold in
  (forall k, ToIntegerOrInfinity limit = Integer k -> 0 <= k ->
             Z.of_nat (List.length similarVectors) <= k) /\
  Forall (fun row => num_ge (s_similarity row) threshold) similarVectors /\
  (truthy_string alternativeType = true \/ vector_index st = None ->
   StronglySorted (descending s_similarity) similarVectors) /\
  (contentType <> ""%string ->
   Forall (fun row => s_content_type row = contentType \/
                      alternativeType = Some (s_content_type row))
     similarVectors).
Proof.
  cbn zeta.
  pose proof (findSimilarVectors_reaches st q (Some contentType) limit
                threshold) as A1.
  destruct (truthy_string alternativeType) eqn:Ealt.
  - pose proof (findSimilarVectors_reaches st q alternativeType limit
                  threshold) as A2.
    set (both := findSimilarVectors st q (Some contentType) limit threshold
                 ++ findSimilarVectors st q alternativeType limit threshold).
    assert (A : Forall (fun row => num_ge (s_similarity row) threshold) both)
      by (apply Forall_app; auto).
    split; [|split; [|split]].
    + intros k Hk Hpos. apply Array_slice0_length; assumption.
    + apply Forall_forall. intros row Hrow. unfold Array_sort in Hrow.
      apply Array_slice0_In, stable_sort_In in Hrow.
      rewrite Forall_forall in A. auto.
    + intros _. unfold Array_slice0, Array_sort.
      change (fun x y : SimilarRow =>
                (0 <? s_similarity y - s_similarity x)%float)
        with (behind_by s_similarity).
      apply StronglySorted_firstn, sort_descending.
      eapply Forall_impl; [|exact A]. intros row Hrow.
      apply (num_ge_not_nan _ _ Hrow).
    + intros Hne. apply Forall_forall. intros row Hrow.
      unfold Array_sort in Hrow.
      apply Array_slice0_In, stable_sort_In in Hrow. apply in_app_or in Hrow.
      destruct Hrow as [Hrow|Hrow].
      * left. pose proof (findSimilarVectors_type st q contentType limit
                            threshold Hne) as HT.
        rewrite Forall_forall in HT. auto.
      * right. destruct alternativeType as [t|]; [|discriminate].
        assert (Hnt : t <> ""%string).
        { intros ->. discriminate. }
        pose proof (findSimilarVectors_type st q t limit threshold Hnt) as HT.
        rewrite Forall_forall in HT. rewrite (HT row Hrow). reflexivity.
  - split; [|split; [|split]].
    + intros k Hk Hpos. apply findSimilarVectors_count; assumption.
    + exact A1.
    + intros [H|H]; [discriminate H|].
      apply findSimilarVectors_scan_order, H.
    + intros Hne. eapply Forall_impl;
        [|apply (findSimilarVectors_type st q contentType limit threshold
                   Hne)].
      cbn beta. auto.
Qed.

(** X5.  For a limit whose integer part [k] is not negative,
    [findSimilarItems] returns at most [k] items, every one with a
    similarity of at least [threshold], never NaN, and of the content type
    or the alternative type asked for.  The items are in descending order
    of similarity when two content types are merged, which the function
    sorts itself, and on a store without [vector_top_k]; without a
    connection the result is empty. *)
Theorem findSimilarItems_bounds (toISOString : Z -> string) (st : Server)
    (queryVector : Float32Array) (contentType : string)
    (alternativeType : option string) (limit threshold : float) (k : Z) :
  contentType <> ""%string ->
  ToIntegerOrInfinity limit = Integer k -> 0 <= k ->
  let items :=
    findSimilarItems toISOString st queryVector contentType alternativeType
      limit threshold in
  Z.of_nat (List.length items) <= k /\
  Forall (fun i => num_ge (si_similarity i) threshold /\
                   not_nan (si_similarity i) /\
                   (si_type i = contentType \/
                    alternativeType = Some (si_type i))) items /\
  (truthy_string alternativeType = true \/ vector_index st = None ->
   StronglySorted (descending si_similarity) items) /\
  (db st = None -> items = []).
Proof.
  intros Hne Hk Hpos. cbn zeta. unfold findSimilarItems.
  destruct (similarVectors_above st queryVector contentType alternativeType
              limit threshold) as (L & A & S & T).
  specialize (T Hne). specialize (L k Hk Hpos).
  destruct (db st) as [d|];
    [|cbn; repeat split; try constructor; try exact Hpos; reflexivity].
  split; [rewrite length_map; exact L|]. split; [|split].
  - apply Forall_forall. intros i Hi. apply in_map_iff in Hi.
    destruct Hi as (row & <- & Hrow). cbn [si_similarity si_type].
    rewrite Forall_forall in A, T. split; [auto|].
    split; [apply (num_ge_not_nan _ _ (A row Hrow)) | auto].
  - intros H. apply StronglySorted_map. cbn [si_similarity]. exact (S H).
  - discriminate.
Qed.

Lemma findSimilarItems_bounds_witness :
  let items :=
    findSimilarItems string_of_Z sample_server sample_query "user_message"
      (Some "code_file"%string) 2 0 in
  Z.of_nat (List.length items) <= 2 /\
  Forall (fun i => num_ge (si_similarity i) 0 /\
                   not_nan (si_similarity i) /\
                   (si_type i = "user_message"%string \/
                    Some "code_file"%string = Some (si_type i))) items /\
  (truthy_string (Some "code_file"%string) = true \/
   vector_index sample_server = None ->
   StronglySorted (descending si_similarity) items) /\
  (db sample_server = None -> items = []).
Proof.
  apply (findSimilarItems_bounds string_of_Z sample_server sample_query
           "user_message" (Some "code_file"%string) 2 0 2);
    [discriminate | reflexivity | lia].
Defined.

(** ** The [manageVector] tool: what a call changes *)

Lemma with_vectors_same (d : Database) : with_vectors d (vectors d) = d.
Proof. destruct d; reflexivity. Qed.

Lemma with_sequence_same (d : Database) :
  with_sequence d (vectors_sequence d) = d.
Proof. destruct d; reflexivity. Qed.

(** The ways a [manageVector] call can end: with an error and the state it
    started in; with search results and the state it started in; or, in
    database mode, with a vectors table that has one row more, rewritten
    rows, or rows less. *)
Lemma manageVector_outcome (now later : Z) (st : Server) (args : Args) :
  (exists message,
      manageVector now later st args = (error_result message, st)) \/
  (exists results,
      a_operation args = Some "search"%string /\ useInMemory st = false /\
      manageVector now later st args
      = (mkToolResult (SearchResult results) false, st)) \/
  (exists d result d',
      db st = Some d /\ useInMemory st = false /\
      a_operation args <> Some "search"%string /\
      manageVector now later st args
      = (mkToolResult result false, with_db st d') /\
      ((exists row, d' = insert_vector d row /\
                    v_id row = next_vector_id d) \/
       (exists id blob metadata,
           d' = with_vectors d
                  (update_vector id blob metadata now (vectors d))) \/
       (exists id, d' = with_vectors d (delete_vector id (vectors d))))).
Proof.
  unfold manageVector, manageVector_try.
  destruct (a_operation args) as [operation|]; [|left; cbn; eauto].
  destruct (negb (truthy_string (Some operation))); [left; eauto|].
  destruct (useInMemory st) eqn:Hmem; [left; eauto|].
  destruct (String.eqb_spec operation "store") as [->|Hstore].
  { destruct (_ || _ || _); [left; eauto|].
    destruct (a_vector args) as [|numbers|]; try (left; eauto; fail).
    destruct (a_contentId args) as [contentId|]; [|left; eauto].
    destruct (a_contentType args) as [contentType|]; [|left; eauto].
    unfold storeEmbedding. destruct (db st) as [d|] eqn:Hdb; [|left; eauto].
    right. right. do 3 eexists. split; [reflexivity|].
    split; [reflexivity|]. split; [discriminate|].
    split; [reflexivity|]. left. eexists. split; reflexivity. }
  destruct (String.eqb_spec operation "search") as [->|Hsearch].
  { destruct (vector_missing (a_vector args)); [left; eauto|].
    destruct (a_vector args) as [|numbers|]; try (left; eauto; fail).
    right. left. eauto. }
  destruct (String.eqb_spec operation "update") as [->|Hupdate].
  { destruct (_ || _); [left; eauto|].
    destruct (a_vector args) as [|numbers|]; try (left; eauto; fail).
    destruct (a_vectorId args) as [vectorId|]; [|left; eauto].
    destruct (db st) as [d|] eqn:Hdb; [|left; eauto].
    destruct (get_vector vectorId (vectors d)); [|left; eauto].
    right. right. do 3 eexists. split; [reflexivity|].
    split; [reflexivity|]. split; [discriminate|].
    split; [reflexivity|]. right. left. eauto. }
  destruct (String.eqb_spec operation "delete") as [->|Hdelete].
  { destruct (negb _); [left; eauto|].
    destruct (a_vectorId args) as [vectorId|]; [|left; eauto].
    destruct (db st) as [d|] eqn:Hdb; [|left; eauto].
    destruct (get_vector vectorId (vectors d)); [|left; eauto].
    right. right. do 3 eexists. split; [reflexivity|].
    split; [reflexivity|]. split; [discriminate|].
    split; [reflexivity|]. right. right. eauto. }
  left. eauto.
Qed.

(** X6.  A [manageVector] call never changes the flags of the server nor
    any table other than [vectors] (with its rowid counter); a [search]
    changes nothing at all; a
    call that reports an error leaves the whole state as it was; and in
    in-memory mode every call reports an error. *)
Theorem manageVector_frame (now later : Z) (st : Server) (args : Args) :
  let r := manageVector now later st args in
  useInMemory (snd r) = useInMemory st /\
  vector_index (snd r) = vector_index st /\
  match db st, db (snd r) with
  | Some d, Some d' => same_tables d d'
  | None, None => True
  | _, _ => False
  end /\
  (a_operation args = Some "search"%string -> snd r = st) /\
  (isError (fst r) = true -> snd r = st) /\
  (useInMemory st = true -> isError (fst r) = true).
Proof.
  cbn zeta.
  assert (Hsame : match db st, db st with
                  | Some d, Some d' => same_tables d d'
                  | None, None => True
                  | _, _ => False
                  end).
  { destruct (db st) as [d|]; [|exact I]. unfold same_tables.
    rewrite with_vectors_same, with_sequence_same. reflexivity. }
  destruct (manageVector_outcome now later st args)
    as [(message & ->)|[(results & Hop & Hmem & ->)
                       |(d & result & d' & Hdb & Hmem & Hop & -> & Hd')]];
    cbn [fst snd isError error_result].
  - repeat split; auto.
  - repeat split; auto; congruence.
  - cbn [with_db useInMemory vector_index db]. rewrite Hdb.
    assert (Hframe : same_tables d d').
    { unfold same_tables.
      destruct Hd' as [(row & -> & _)|[(id & blob & metadata & ->)
                                      |(id & ->)]];
        reflexivity. }
    repeat split; try discriminate; try congruence; exact Hframe.
Qed.

Lemma max_vector_id_ge (vs : list VectorRow) (v : VectorRow) :
  In v vs -> Zpos (v_id v) <= max_vector_id vs.
Proof.
  unfold max_vector_id. induction vs as [|w vs IH]; [contradiction|].
  cbn [fold_right]. intros [->|H]; [lia|]. specialize (IH H). lia.
Qed.

Lemma max_vector_id_nonneg (vs : list VectorRow) : 0 <= max_vector_id vs.
Proof.
  unfold max_vector_id. induction vs as [|w vs IH]; cbn [fold_right]; lia.
Qed.

(** The next rowid is above the counter and above every rowid in the
    table. *)
Lemma next_vector_id_above (d : Database) :
  Zpos (next_vector_id d)
  = Z.max (vectors_sequence d) (max_vector_id (vectors d)) + 1.
Proof.
  unfold next_vector_id. pose proof (max_vector_id_nonneg (vectors d)).
  apply Z2Pos.id. lia.
Qed.

Lemma next_vector_id_fresh (d : Database) :
  Forall (fun v => (v_id v < next_vector_id d)%positive) (vectors d).
Proof.
  apply Forall_forall. intros v Hv.
  pose proof (max_vector_id_ge _ _ Hv) as Hle.
  pose proof (next_vector_id_above d) as Hnext. lia.
Qed.

Lemma update_vector_ids (id : Z) (blob : list byte) (metadata : option string)
    (now : Z) (vs : list VectorRow) :
  map v_id (update_vector id blob metadata now vs) = map v_id vs.
Proof.
  unfold update_vector. rewrite map_map. apply map_ext. intros v.
  destruct (Zpos (v_id v) =? id); reflexivity.
Qed.

Lemma append_fresh_ids (d : Database) (row : VectorRow) :
  v_id row = next_vector_id d ->
  NoDup (map v_id (vectors d)) -> NoDup (map v_id (vectors d ++ [row])).
Proof.
  intros Hid ND. rewrite map_app. cbn [map].
  apply NoDup_app; [exact ND | repeat constructor; intros [] |].
  intros i Hi [<-|[]]. apply in_map_iff in Hi. destruct Hi as (v & E & Hv).
  pose proof (next_vector_id_fresh d) as HF. rewrite Forall_forall in HF.
  specialize (HF v Hv). rewrite Hid in E. lia.
Qed.

Lemma f32_of_bits_word32 (w : Z) : f32_of_bits (word32 w) = f32_of_bits w.
Proof.
  unfold f32_of_bits, word32.
  assert (H31 : Z.testbit (w mod 2 ^ 32) 31 = Z.testbit w 31).
  { rewrite Z.testbit_mod_pow2 by lia. reflexivity. }
  assert (He : Z.land (Z.shiftr (w mod 2 ^ 32) 23) 255
               = Z.land (Z.shiftr w 23) 255).
  { apply Z.bits_inj'. intros n Hn. rewrite !Z.land_spec, !Z.shiftr_spec by lia.
    rewrite Z.testbit_mod_pow2 by lia.
    destruct (Z.ltb_spec (n + 23) 32); [reflexivity|].
    change 255 with (Z.ones 8). rewrite Z.testbit_ones by lia.
    destruct (Z.ltb_spec n 8); [lia|].
    rewrite andb_false_r, !andb_false_r. reflexivity. }
  assert (Hf : Z.land (w mod 2 ^ 32) (2 ^ 23 - 1) = Z.land w (2 ^ 23 - 1)).
  { apply Z.bits_inj'. intros n Hn. rewrite !Z.land_spec.
    rewrite Z.testbit_mod_pow2 by lia.
    destruct (Z.ltb_spec n 32); [reflexivity|].
    change (2 ^ 23 - 1) with (Z.ones 23). rewrite Z.testbit_ones by lia.
    destruct (Z.ltb_spec n 23); [lia|].
    rewrite andb_false_r, !andb_false_r. reflexivity. }
  rewrite H31, He, Hf. reflexivity.
Qed.

(** Reading a fresh Float32Array gives the Numbers it was built from, each
    rounded to binary32. *)
Lemma Float32Array_from_elements (xs : list float) :
  Float32Array_elements (Float32Array_from xs) = map Math_fround xs.
Proof.
  rewrite Float32Array_elements_words. unfold Float32Array_from.
  rewrite Float32Array_words_of_bits, !map_map. apply map_ext.
  intros x. apply f32_of_bits_word32.
Qed.

Lemma vectorToBuffer_from (xs : list float) :
  Buffer_bytes (vectorToBuffer (Float32Array_from xs))
  = flat_map le_bytes (map bits_of_f32 xs).
Proof.
  unfold Buffer_bytes, vectorToBuffer, Float32Array_from, Float32Array_of_bits.
  cbn [b_length b_byteOffset b_buffer f_buffer skipn]. apply firstn_all.
Qed.

(** The 32-bit floats in the blob of a stored vector are the Numbers it was
    built from, each rounded to binary32. *)
Lemma blob_from (xs : list float) (row : VectorRow) :
  v_vector row = Buffer_bytes (vectorToBuffer (Float32Array_from xs)) ->
  stored_vector row = Float32Array_from xs.
Proof.
  intros H. unfold stored_vector. rewrite H, vectorToBuffer_from.
  rewrite length_flat_map_le_bytes, length_map.
  replace (4 * List.length xs / 4)%nat with (List.length xs)
    by (symmetry; rewrite Nat.mul_comm; apply Nat.div_mul; lia).
  unfold Float32Array_from, Float32Array_of_bits. rewrite length_map.
  reflexivity.
Qed.

(** X7.  A [store] call in database mode with a non-zero content id, a
    non-empty content type and a vector array appends exactly one row to
    the vectors table and changes no other row.  The new row has the next
    rowid, which no row of the table has and which lies above every rowid
    given out before; it has the content id, content type and metadata of
    the call and the time [storeEmbedding] read off the clock.  Its blob is
    the little-endian binary32 encoding of the vector, four bytes per
    component, and holds the components rounded to binary32.  The call
    reports the content id, the content type, the number of components and
    a time stamp of its own, read off the clock after the row was stored. *)
Theorem manageVector_store (now later : Z) (st : Server) (d : Database)
    (args : Args) (contentId : Z) (contentType : string)
    (numbers : list float) :
  db st = Some d -> useInMemory st = false ->
  a_operation args = Some "store"%string ->
  a_contentId args = Some contentId -> contentId <> 0 ->
  a_contentType args = Some contentType -> contentType <> ""%string ->
  a_vector args = VectorArray numbers ->
  exists row,
    manageVector now later st args
    = (mkToolResult
         (StoreResult contentId contentType (List.length numbers) later)
         false,
       with_db st (insert_vector d row)) /\
    vectors (insert_vector d row) = vectors d ++ [row] /\
    v_id row = next_vector_id d /\
    ~ In (v_id row) (map v_id (vectors d)) /\
    vectors_sequence d < Zpos (v_id row) /\
    v_content_id row = contentId /\
    v_content_type row = contentType /\
    v_created_at row = now /\
    v_metadata row = a_metadata args /\
    v_vector row = flat_map le_bytes (map bits_of_f32 numbers) /\
    List.length (v_vector row) = (4 * List.length numbers)%nat /\
    Float32Array_elements (stored_vector row) = map Math_fround numbers.
Proof.
  intros Hdb Hmem Hop Hid Hnz Htype Hne Hvec.
  eexists. split.
  - unfold manageVector, manageVector_try, storeEmbedding.
    rewrite Hop, Hmem, Hid, Htype, Hvec, Hdb.
    cbn [truthy_string truthy_number vector_missing negb orb String.eqb
         Ascii.eqb Bool.eqb].
    destruct (String.eqb_spec contentType ""); [contradiction|].
    destruct (Z.eqb_spec contentId 0); [contradiction|].
    cbn [negb orb]. rewrite Float32Array_from_length. reflexivity.
  - cbn [v_id v_content_id v_content_type v_created_at v_metadata v_vector].
    split; [reflexivity|]. split; [reflexivity|]. split.
    { intros Hin. apply in_map_iff in Hin. destruct Hin as (v & E & Hv).
      pose proof (next_vector_id_fresh d) as HF.
      rewrite Forall_forall in HF. specialize (HF v Hv). lia. }
    split; [rewrite next_vector_id_above; lia|].
    repeat (split; [reflexivity|]).
    split; [apply vectorToBuffer_from|].
    split.
    { rewrite vectorToBuffer_from, length_flat_map_le_bytes, length_map.
      reflexivity. }
    rewrite (blob_from numbers) by reflexivity.
    apply Float32Array_from_elements.
Qed.

Lemma manageVector_store_witness :
  exists row,
    manageVector 5000 5001 sample_server
      (mkArgs (Some "store"%string) (Some 10) (Some "user_message"%string)
         (VectorArray [1; 0]%float) None None None None None)
    = (mkToolResult (StoreResult 10 "user_message" 2 5001) false,
       with_db sample_server (insert_vector sample_db row)) /\
    vectors (insert_vector sample_db row) = vectors sample_db ++ [row] /\
    v_id row = next_vector_id sample_db /\
    ~ In (v_id row) (map v_id (vectors sample_db)) /\
    vectors_sequence sample_db < Zpos (v_id row) /\
    v_content_id row = 10 /\
    v_content_type row = "user_message"%string /\
    v_created_at row = 5000 /\
    v_metadata row = None /\
    v_vector row = flat_map le_bytes (map bits_of_f32 [1; 0]%float) /\
    List.length (v_vector row) = 8%nat /\
    Float32Array_elements (stored_vector row) = map Math_fround [1; 0]%float.
Proof.
  apply (manageVector_store 5000 5001 sample_server sample_db
           (mkArgs (Some "store"%string) (Some 10)
              (Some "user_message"%string) (VectorArray [1; 0]%float) None
              None None None None) 10 "user_message" [1; 0]%float);
    try reflexivity; discriminate.
Defined.

Lemma update_vector_unique (vectorId : Z) (row : VectorRow)
    (blob : list byte) (metadata : option string) (now : Z)
    (before after : list VectorRow) :
  NoDup (map v_id (before ++ row :: after)) -> Zpos (v_id row) = vectorId ->
  update_vector vectorId blob metadata now (before ++ row :: after)
  = before
    ++ mkVectorRow (v_id row) (v_content_id row) (v_content_type row) blob now
         metadata
    :: after.
Proof.
  intros ND Hid.
  assert (Hother : forall v, In v before \/ In v after ->
                             (Zpos (v_id v) =? vectorId) = false).
  { intros v Hv. apply Z.eqb_neq. rewrite <- Hid. intros E. injection E as E.
    rewrite map_app in ND. cbn [map] in ND.
    apply NoDup_remove_2 in ND. apply ND. rewrite <- E.
    apply in_or_app. destruct Hv as [Hv|Hv]; [left|right]; apply in_map, Hv. }
  unfold update_vector. rewrite map_app. cbn [map].
  rewrite <- Hid, Z.eqb_refl. f_equal; [|f_equal].
  - rewrite <- (map_id before) at 2. apply map_ext_in. intros v Hv.
    rewrite Hid, Hother by auto. reflexivity.
  - rewrite <- (map_id after) at 2. apply map_ext_in. intros v Hv.
    rewrite Hid, Hother by auto. reflexivity.
Qed.

(** X8.  An [update] call in database mode for the id of an existing row
    rewrites that row only: the blob becomes the encoding of the new vector,
    the metadata and the time stamp become those of the call, and the id,
    the content id and the content type stay.  Every other row and the order
    of the rows stay as they were, and the call reports the content id and
    content type of the row. *)
Theorem manageVector_update (now later : Z) (st : Server) (d : Database)
    (args : Args) (vectorId : Z) (numbers : list float) (row : VectorRow) :
  db st = Some d -> useInMemory st = false ->
  a_operation args = Some "update"%string ->
  a_vectorId args = Some vectorId ->
  a_vector args = VectorArray numbers ->
  NoDup (map v_id (vectors d)) ->
  In row (vectors d) -> Zpos (v_id row) = vectorId ->
  exists before after,
    vectors d = before ++ row :: after /\
    manageVector now later st args
    = (mkToolResult
         (UpdateResult vectorId (v_content_id row) (v_content_type row)
            (List.length numbers) now) false,
       with_db st
         (with_vectors d
            (before
             ++ mkVectorRow (v_id row) (v_content_id row) (v_content_type row)
                  (flat_map le_bytes (map bits_of_f32 numbers)) now
                  (a_metadata args)
             :: after))).
Proof.
  intros Hdb Hmem Hop Hid Hvec ND Hin Hrow.
  destruct (get_delete_unique vectorId row (vectors d) ND Hin Hrow)
    as (Hg & before & after & Hvs & _).
  exists before, after. split; [exact Hvs|].
  unfold manageVector, manageVector_try.
  rewrite Hop, Hmem, Hid, Hvec, Hdb, Hg.
  assert (Hz : (vectorId =? 0) = false)
    by (apply Z.eqb_neq; rewrite <- Hrow; discriminate).
  cbn [truthy_string truthy_number vector_missing negb orb String.eqb
       Ascii.eqb Bool.eqb].
  rewrite Hz. cbn [negb orb].
  rewrite Float32Array_from_length, vectorToBuffer_from.
  rewrite Hvs in ND |- *. rewrite update_vector_unique by assumption.
  reflexivity.
Qed.

Lemma manageVector_update_witness :
  exists before after,
    vectors sample_db
    = before ++ mkVectorRow 2 11 "user_message" (sample_blob [1; 0]%float)
                  1001 None :: after /\
    manageVector 5000 5001 sample_server
      (mkArgs (Some "update"%string) None None (VectorArray [0; 1]%float)
         None (Some 2) None None None)
    = (mkToolResult (UpdateResult 2 11 "user_message" 2 5000) false,
       with_db sample_server
         (with_vectors sample_db
            (before
             ++ mkVectorRow 2 11 "user_message"
                  (flat_map le_bytes (map bits_of_f32 [0; 1]%float)) 5000 None
             :: after))).
Proof.
  apply (manageVector_update 5000 5001 sample_server sample_db
           (mkArgs (Some "update"%string) None None
              (VectorArray [0; 1]%float) None (Some 2) None None None)
           2 [0; 1]%float
           (mkVectorRow 2 11 "user_message" (sample_blob [1; 0]%float) 1001
              None)); try reflexivity.
  - change (NoDup [1; 2; 3]%positive).
    repeat (constructor; [cbn [In]; intuition discriminate|]). constructor.
  - right. left. reflexivity.
Defined.

(** ** Maintenance: collapsing duplicates *)

Lemma has_content_key_true (k : Z * string) (v : VectorRow) :
  has_content_key k v = true <-> content_key v = k.
Proof.
  unfold has_content_key. destruct (content_key_dec (content_key v) k);
    split; congruence.
Qed.

Lemma NoDup_all_equal {A : Type} (h : A) (l : list A) :
  NoDup l -> (forall x, In x l -> x = h) -> (List.length l <= 1)%nat.
Proof.
  intros ND Hall. destruct l as [|x [|y l]]; cbn; try lia.
  exfalso. inversion ND as [|? ? Hx _]; subst. apply Hx.
  rewrite (Hall x), (Hall y); cbn; auto.
Qed.

Lemma NoDup_rows (vs : list VectorRow) : NoDup (map v_id vs) -> NoDup vs.
Proof. apply NoDup_map_inv. Qed.

(** Among rows with distinct ids, the id test of [delete_each] is
    membership. *)
Lemma id_in_rows (vs found : list VectorRow) (w : VectorRow) :
  NoDup (map v_id vs) -> incl found vs -> In w vs ->
  existsb (fun v => (v_id v =? v_id w)%positive) found = true <-> In w found.
Proof.
  intros ND Hincl Hw. rewrite existsb_exists. split.
  - intros (v & Hv & E). apply Pos.eqb_eq in E.
    rewrite <- (NoDup_map_injective v_id vs v w ND (Hincl v Hv) Hw E).
    exact Hv.
  - intros Hin. exists w. split; [exact Hin | apply Pos.eqb_refl].
Qed.

Lemma filter_length_partition {A : Type} (f : A -> bool) (l : list A) :
  (List.length (filter f l) + List.length (filter (fun x => negb (f x)) l)
   = List.length l)%nat.
Proof.
  induction l as [|x l IH]; [reflexivity|]. cbn [filter].
  destruct (f x); cbn [negb List.length]; lia.
Qed.

(** Deleting rows that are in the table shortens it by their number. *)
Lemma delete_each_length (found vs : list VectorRow) :
  NoDup (map v_id vs) -> NoDup found -> incl found vs ->
  (List.length (delete_each found vs) + List.length found
   = List.length vs)%nat.
Proof.
  intros ND NDf Hincl. rewrite delete_each_filter.
  rewrite <- (filter_length_partition
                (fun w => existsb (fun v => (v_id v =? v_id w)%positive) found)
                vs).
  rewrite Nat.add_comm. f_equal.
  apply Permutation_length, NoDup_Permutation.
  - exact NDf.
  - apply NoDup_filter, NoDup_rows, ND.
  - intros w. rewrite filter_In. split.
    + intros Hw. split; [auto|]. apply (id_in_rows vs); auto.
    + intros [Hw E]. apply (id_in_rows vs found w ND Hincl Hw), E.
Qed.

Lemma delete_each_In (found vs : list VectorRow) (w : VectorRow) :
  NoDup (map v_id vs) -> incl found vs ->
  In w (delete_each found vs) <-> In w vs /\ ~ In w found.
Proof.
  intros ND Hincl. rewrite delete_each_filter, filter_In.
  split; intros [Hw H]; (split; [exact Hw|]).
  - intros Hin. apply (id_in_rows vs found w ND Hincl Hw) in Hin.
    rewrite Hin in H. discriminate.
  - destruct (existsb _ found) eqn:E; [|reflexivity].
    apply (id_in_rows vs found w ND Hincl Hw) in E. contradiction.
Qed.

Lemma delete_each_ids (found vs : list VectorRow) :
  NoDup (map v_id vs) -> NoDup (map v_id (delete_each found vs)).
Proof. intros ND. rewrite delete_each_filter. apply NoDup_map_filter, ND. Qed.

(** One round of the loop over the duplicated keys. *)
Lemma collapse_duplicates_step (vs : list VectorRow) (n : nat)
    (k : Z * string) :
  NoDup (map v_id vs) ->
  let vs' := fst (collapse_duplicates (vs, n) k) in
  let n' := snd (collapse_duplicates (vs, n) k) in
  NoDup (map v_id vs') /\
  (forall w, In w vs' -> In w vs) /\
  (forall w, In w vs -> content_key w <> k -> In w vs') /\
  (List.length (filter (has_content_key k) vs') <= 1)%nat /\
  (n' + List.length vs' = n + List.length vs)%nat /\
  (forall v, In v vs -> content_key v = k ->
             exists v', In v' vs' /\ content_key v' = k /\
                        v_created_at v <= v_created_at v').
Proof.
  intros ND. cbn zeta. unfold collapse_duplicates. cbn [fst snd].
  set (F := filter (has_content_key k) vs).
  set (found := order_by_desc v_created_at F).
  assert (Hperm : Permutation found F) by apply stable_sort_perm.
  assert (HF : forall w, In w found <-> In w vs /\ content_key w = k).
  { intros w. unfold found, order_by_desc. rewrite stable_sort_In.
    unfold F. rewrite filter_In, has_content_key_true. tauto. }
  assert (NDfound : NoDup found).
  { apply (Permutation_NoDup (Permutation_sym Hperm)).
    apply NoDup_filter, NoDup_rows, ND. }
  assert (Hsorted : StronglySorted
                      (fun x y => v_created_at y <= v_created_at x) found)
    by apply order_by_desc_sorted.
  assert (Htl : incl (tl found) vs).
  { intros w Hw. apply HF. destruct found; [contradiction|]. right. exact Hw. }
  assert (NDtl : NoDup (tl found)).
  { destruct found; [constructor|]. inversion NDfound; assumption. }
  split; [apply delete_each_ids, ND|].
  split; [intros w Hw; apply (delete_each_In _ _ _ ND Htl) in Hw; tauto|].
  split.
  { intros w Hw Hk. apply (delete_each_In _ _ _ ND Htl). split; [exact Hw|].
    intros Hin. apply Hk. apply HF. destruct found; [contradiction|].
    right. exact Hin. }
  split.
  { destruct found as [|h t] eqn:Efound.
    - cbn [tl delete_each fold_left]. fold F.
      rewrite <- (Permutation_length Hperm). cbn. lia.
    - apply (NoDup_all_equal h).
      + apply NoDup_filter, NoDup_rows, delete_each_ids, ND.
      + intros w Hw. apply filter_In in Hw. destruct Hw as [Hw Hk].
        apply (delete_each_In _ _ _ ND Htl) in Hw. destruct Hw as [Hw Hnot].
        apply has_content_key_true in Hk.
        assert (Hin : In w (h :: t)) by (apply HF; auto).
        destruct Hin as [<-|Hin]; [reflexivity | contradiction]. }
  split.
  { pose proof (delete_each_length (tl found) vs ND NDtl Htl). lia. }
  intros v Hv Hk.
  assert (Hin : In v found) by (apply HF; auto).
  destruct found as [|h t] eqn:Efound; [contradiction|].
  exists h. cbn [tl] in *.
  assert (Hh : In h vs /\ content_key h = k) by (apply HF; left; reflexivity).
  split; [|split; [tauto|]].
  - apply (delete_each_In _ _ _ ND Htl). split; [tauto|].
    inversion NDfound; assumption.
  - destruct Hin as [<-|Hin]; [lia|].
    inversion Hsorted as [|? ? _ Hall]; subst.
    rewrite Forall_forall in Hall. apply Hall, Hin.
Qed.

Lemma filter_key_unchanged (vs vs' : list VectorRow) (k k' : Z * string) :
  NoDup (map v_id vs) -> NoDup (map v_id vs') ->
  (forall w, In w vs' -> In w vs) ->
  (forall w, In w vs -> content_key w <> k -> In w vs') ->
  k' <> k ->
  Permutation (filter (has_content_key k') vs')
    (filter (has_content_key k') vs).
Proof.
  intros ND ND' Hsub Hkeep Hne. apply NoDup_Permutation.
  - apply NoDup_filter, NoDup_rows, ND'.
  - apply NoDup_filter, NoDup_rows, ND.
  - intros w. rewrite !filter_In, !has_content_key_true. split.
    + intros [Hw Hk]. auto.
    + intros [Hw Hk]. split; [|exact Hk]. apply Hkeep; congruence.
Qed.

(** The loop over the duplicated keys. *)
Lemma collapse_duplicates_fold (vs0 : list VectorRow) (keys : list (Z * string)) :
  forall (done : list (Z * string)) (vs : list VectorRow) (n : nat),
    NoDup (map v_id vs0) -> NoDup (map v_id vs) ->
    (forall w, In w vs -> In w vs0) ->
    (forall k, In k done ->
               (List.length (filter (has_content_key k) vs) <= 1)%nat) ->
    (forall k, ~ In k done ->
               Permutation (filter (has_content_key k) vs)
                 (filter (has_content_key k) vs0)) ->
    (n + List.length vs = List.length vs0)%nat ->
    (forall v, In v vs0 ->
               exists v', In v' vs /\ content_key v' = content_key v /\
                          v_created_at v <= v_created_at v') ->
    let vs' := fst (fold_left collapse_duplicates keys (vs, n)) in
    let n' := snd (fold_left collapse_duplicates keys (vs, n)) in
    NoDup (map v_id vs') /\
    (forall w, In w vs' -> In w vs0) /\
    (forall k, In k (done ++ keys) ->
               (List.length (filter (has_content_key k) vs') <= 1)%nat) /\
    (forall k, ~ In k (done ++ keys) ->
               Permutation (filter (has_content_key k) vs')
                 (filter (has_content_key k) vs0)) /\
    (n' + List.length vs' = List.length vs0)%nat /\
    (forall v, In v vs0 ->
               exists v', In v' vs' /\ content_key v' = content_key v /\
                          v_created_at v <= v_created_at v').
Proof.
  induction keys as [|k keys IH]; intros done vs n ND0 ND Hsub Hdone Hrest Hn
    Hnew; cbn zeta.
  - cbn [fold_left fst snd]. rewrite app_nil_r. auto 10.
  - cbn [fold_left].
    destruct (collapse_duplicates_step vs n k ND)
      as (ND' & Hsub' & Hkeep & Hcount & Hn' & Hnewest).
    destruct (collapse_duplicates (vs, n) k) as [vs' n'] eqn:E.
    cbn [fst snd] in *.
    replace (done ++ k :: keys) with ((done ++ [k]) ++ keys)
      by (rewrite <- app_assoc; reflexivity).
    apply IH; auto.
    + intros k' Hk'. apply in_app_or in Hk'.
      destruct (content_key_dec k' k) as [->|Hne]; [exact Hcount|].
      destruct Hk' as [Hk'|[Hk'|[]]]; [|congruence].
      rewrite (Permutation_length
                 (filter_key_unchanged vs vs' k k' ND ND' Hsub' Hkeep Hne)).
      apply Hdone, Hk'.
    + intros k' Hk'.
      assert (Hne : k' <> k).
      { intros ->. apply Hk'. apply in_or_app. right. left. reflexivity. }
      rewrite (filter_key_unchanged vs vs' k k' ND ND' Hsub' Hkeep Hne).
      apply Hrest. intros Hin. apply Hk'. apply in_or_app. auto.
    + lia.
    + intros v Hv. destruct (Hnew v Hv) as (v1 & Hv1 & Hk1 & Hc1).
      destruct (content_key_dec (content_key v1) k) as [Ek|Ek].
      * destruct (Hnewest v1 Hv1 Ek) as (v2 & Hv2 & Hk2 & Hc2).
        exists v2. split; [exact Hv2|]. split; [congruence | lia].
      * exists v1. auto.
Qed.

Lemma key_counts_unique (vs : list VectorRow) :
  (forall k, (List.length (filter (has_content_key k) vs) <= 1)%nat) ->
  NoDup (map content_key vs).
Proof.
  induction vs as [|v vs IH]; intros H; [constructor|].
  cbn [map]. constructor.
  - intros Hin. apply in_map_iff in Hin. destruct Hin as (w & E & Hw).
    specialize (H (content_key v)). cbn [filter] in H.
    assert (Hv : has_content_key (content_key v) v = true)
      by (apply has_content_key_true; reflexivity).
    rewrite Hv in H. cbn [List.length] in H.
    assert (Hwin : In w (filter (has_content_key (content_key v)) vs))
      by (apply filter_In; split; [exact Hw | apply has_content_key_true, E]).
    destruct (filter (has_content_key (content_key v)) vs);
      [contradiction | cbn in H; lia].
  - apply IH. intros k. specialize (H k). cbn [filter] in H.
    destruct (has_content_key k v); cbn [List.length] in H; lia.
Qed.

Lemma duplicate_keys_In (vs : list VectorRow) (k : Z * string) :
  In k (duplicate_keys vs) <->
  (1 < List.length (filter (has_content_key k) vs))%nat.
Proof.
  unfold duplicate_keys. rewrite filter_In, nodup_In, Nat.ltb_lt. split.
  - tauto.
  - intros H. split; [|exact H].
    destruct (filter (has_content_key k) vs) as [|w ws] eqn:E;
      [cbn in H; lia|].
    assert (Hw : In w (filter (has_content_key k) vs))
      by (rewrite E; left; reflexivity).
    apply filter_In in Hw. destruct Hw as [Hw Hk].
    apply has_content_key_true in Hk. rewrite <- Hk. apply in_map, Hw.
Qed.

(** The storage optimisation as a whole. *)
Lemma collapse_all_duplicates (vs : list VectorRow) :
  NoDup (map v_id vs) ->
  let vs' := fst (fold_left collapse_duplicates (duplicate_keys vs) (vs, 0%nat)) in
  let n' := snd (fold_left collapse_duplicates (duplicate_keys vs) (vs, 0%nat)) in
  NoDup (map v_id vs') /\
  NoDup (map content_key vs') /\
  (forall w, In w vs' -> In w vs) /\
  (n' + List.length vs' = List.length vs)%nat /\
  (forall v, In v vs ->
             exists v', In v' vs' /\ content_key v' = content_key v /\
                        v_created_at v <= v_created_at v').
Proof.
  intros ND. cbn zeta.
  destruct (collapse_duplicates_fold vs (duplicate_keys vs) [] vs 0%nat)
    as (ND' & Hsub & Hdone & Hrest & Hn & Hnew); auto.
  - intros k [].
  - intros v Hv. exists v. split; [exact Hv|]. split; [reflexivity | lia].
  - split; [exact ND'|]. split; [|auto].
    apply key_counts_unique. intros k. cbn [app] in *.
    destruct (in_dec content_key_dec k (duplicate_keys vs)) as [Hin|Hnot].
    + apply Hdone, Hin.
    + rewrite (Permutation_length (Hrest k Hnot)).
      rewrite duplicate_keys_In in Hnot. lia.
Qed.

Lemma orphans_found (f : VectorRow -> bool) (vs : list VectorRow) :
  NoDup (map v_id vs) ->
  NoDup (map v_id (delete_each (filter f vs) vs)) /\
  (List.length (filter f vs) + List.length (delete_each (filter f vs) vs)
   = List.length vs)%nat.
Proof.
  intros ND. split; [apply delete_each_ids, ND|].
  rewrite Nat.add_comm. apply delete_each_length; [exact ND | |].
  - apply NoDup_filter, NoDup_rows, ND.
  - intros w Hw. apply filter_In in Hw. tauto.
Qed.

(** The three rounds of orphan removal account for every row they
    delete. *)
Lemma orphan_count (d : Database) (vs : list VectorRow) :
  NoDup (map v_id vs) ->
  let foundMessages := orphanedMessageVectors d vs in
  let va := delete_each foundMessages vs in
  let foundFiles := orphanedFileVectors d va in
  let vb := delete_each foundFiles va in
  let foundSnippets := orphanedSnippetVectors d vb in
  let vc := delete_each foundSnippets vb in
  NoDup (map v_id vc) /\
  (List.length foundMessages + List.length foundFiles
   + List.length foundSnippets + List.length vc = List.length vs)%nat.
Proof.
  intros ND. cbn zeta.
  unfold orphanedMessageVectors, orphanedFileVectors, orphanedSnippetVectors.
  destruct (orphans_found
              (fun v => type_in message_types v
                        && negb (existsb (fun m => v_content_id v =? Zpos (m_id m))
                                   (messages d))) vs ND) as [NDa La].
  destruct (orphans_found
              (fun v => type_in ["code_file"%string] v
                        && negb (existsb (fun f => v_content_id v =? Zpos (cf_id f))
                                   (code_files d))) _ NDa) as [NDb Lb].
  destruct (orphans_found
              (fun v => type_in ["code_snippet"%string] v
                        && negb (existsb (fun s => v_content_id v =? Zpos (cs_id s))
                                   (code_snippets d))) _ NDb) as [NDc Lc].
  split; [exact NDc | lia].
Qed.

(** A run with default options in database mode: the rows whose owner
    exists are kept, then the duplicates among them are collapsed; the two
    counters are the numbers of rows deleted in the two phases. *)
Lemma maintenance_default_run (st : Server) (d : Database) :
  db st = Some d -> useInMemory st = false ->
  NoDup (map v_id (vectors d)) ->
  let vs1 := filter (owner_exists d) (vectors d) in
  exists n1 n2 vs2,
    performVectorMaintenance st no_options
    = (mkResults false n1 n2 [], with_db st (with_vectors d vs2)) /\
    fold_left collapse_duplicates (duplicate_keys vs1) (vs1, 0%nat)
    = (vs2, n2) /\
    (n1 + List.length vs1 = List.length (vectors d))%nat.
Proof.
  intros Hdb Hmem ND. cbn zeta.
  destruct (orphan_count d (vectors d) ND) as [_ Hcount]. cbn zeta in Hcount.
  unfold performVectorMaintenance. rewrite Hdb, Hmem.
  cbn [no_options o_forceRebuild o_cleanOrphans o_optimizeStorage
       option_default].
  rewrite !clean_orphans in * by exact ND.
  destruct (fold_left collapse_duplicates _ _) as [vs2 n2].
  do 3 eexists. split; [reflexivity|]. split; [reflexivity|]. exact Hcount.
Qed.

(** X10.  With default options in database mode, on a table with distinct
    ids, [performVectorMaintenance] leaves at most one fingerprint for each
    (content_id, content_type).  Every row that is left was there before,
    unchanged, and its owner exists; for every row whose owner exists a row
    of the same content is left that is at least as new; and the counters
    [orphansRemoved] and [vectorsOptimized] add up to the number of rows
    deleted.  No error is recorded. *)
Theorem maintenance_collapses_duplicates (st : Server) (d : Database) :
  db st = Some d -> useInMemory st = false ->
  NoDup (map v_id (vectors d)) ->
  exists vs',
    snd (performVectorMaintenance st no_options)
    = with_db st (with_vectors d vs') /\
    NoDup (map content_key vs') /\
    NoDup (map v_id vs') /\
    (forall v, In v vs' -> In v (vectors d) /\ owner_exists d v = true) /\
    (forall v, In v (vectors d) -> owner_exists d v = true ->
               exists v', In v' vs' /\ content_key v' = content_key v /\
                          v_created_at v <= v_created_at v') /\
    (List.length vs'
     + orphansRemoved (fst (performVectorMaintenance st no_options))
     + vectorsOptimized (fst (performVectorMaintenance st no_options))
     = List.length (vectors d))%nat /\
    errors (fst (performVectorMaintenance st no_options)) = [].
Proof.
  intros Hdb Hmem ND.
  destruct (maintenance_default_run st d Hdb Hmem ND)
    as (n1 & n2 & vs2 & Hrun & Hfold & Hn1).
  assert (ND1 : NoDup (map v_id (filter (owner_exists d) (vectors d))))
    by apply NoDup_map_filter, ND.
  destruct (collapse_all_duplicates _ ND1) as (ND2 & NDk & Hsub & Hn2 & Hnew).
  rewrite Hfold in ND2, NDk, Hsub, Hn2, Hnew. cbn [fst snd] in *.
  exists vs2. rewrite Hrun. cbn [fst snd orphansRemoved vectorsOptimized errors].
  repeat split; auto.
  - apply Hsub in H. apply filter_In in H. tauto.
  - apply Hsub in H. apply filter_In in H. tauto.
  - intros v Hv Hown. apply Hnew. apply filter_In. auto.
  - lia.
Qed.

Lemma unique_sample_ids : NoDup (map v_id (vectors sample_db)).
Proof.
  change (NoDup [1; 2; 3]%positive).
  repeat (constructor; [cbn [In]; intuition discriminate|]). constructor.
Defined.

Lemma maintenance_collapses_duplicates_witness :
  exists vs',
    snd (performVectorMaintenance sample_server no_options)
    = with_db sample_server (with_vectors sample_db vs') /\
    NoDup (map content_key vs') /\
    NoDup (map v_id vs') /\
    (forall v, In v vs' ->
               In v (vectors sample_db) /\ owner_exists sample_db v = true) /\
    (forall v, In v (vectors sample_db) -> owner_exists sample_db v = true ->
               exists v', In v' vs' /\ content_key v' = content_key v /\
                          v_created_at v <= v_created_at v') /\
    (List.length vs'
     + orphansRemoved (fst (performVectorMaintenance sample_server no_options))
     + vectorsOptimized
         (fst (performVectorMaintenance sample_server no_options))
     = List.length (vectors sample_db))%nat /\
    errors (fst (performVectorMaintenance sample_server no_options)) = [].
Proof.
  exact (maintenance_collapses_duplicates sample_server sample_db eq_refl
           eq_refl unique_sample_ids).
Defined.

Lemma owner_exists_with_vectors (d : Database) (vs : list VectorRow)
    (v : VectorRow) :
  owner_exists (with_vectors d vs) v = owner_exists d v.
Proof. reflexivity. Qed.

(** X11.  Maintenance is idempotent: in database mode, on a table with
    distinct ids, a second run with default options right after the first
    deletes nothing, reports zero for both counters and no error, and leaves
    the state the first run produced. *)
Theorem maintenance_idempotent (st : Server) (d : Database) :
  db st = Some d -> useInMemory st = false ->
  NoDup (map v_id (vectors d)) ->
  performVectorMaintenance (snd (performVectorMaintenance st no_options))
    no_options
  = (mkResults false 0 0 [], snd (performVectorMaintenance st no_options)).
Proof.
  intros Hdb Hmem ND.
  destruct (maintenance_default_run st d Hdb Hmem ND)
    as (n1 & n2 & vs2 & Hrun & Hfold & Hn1).
  assert (ND1 : NoDup (map v_id (filter (owner_exists d) (vectors d))))
    by apply NoDup_map_filter, ND.
  destruct (collapse_all_duplicates _ ND1) as (ND2 & NDk & Hsub & _).
  rewrite Hfold in ND2, NDk, Hsub. cbn [fst] in *.
  rewrite Hrun. cbn [snd].
  set (st' := with_db st (with_vectors d vs2)).
  destruct (maintenance_default_run st' (with_vectors d vs2) eq_refl Hmem ND2)
    as (m1 & m2 & vs3 & Hrun' & Hfold' & Hm1).
  cbn [vectors with_vectors] in Hfold', Hm1.
  assert (Hkeep : filter (owner_exists (with_vectors d vs2)) vs2 = vs2).
  { apply forallb_filter_id, forallb_forall. intros v Hv.
    rewrite owner_exists_with_vectors. apply Hsub, filter_In in Hv. tauto. }
  rewrite Hkeep in Hfold', Hm1.
  rewrite (duplicate_keys_unique vs2 NDk) in Hfold'. cbn [fold_left] in Hfold'.
  injection Hfold' as <- <-.
  assert (m1 = 0%nat) by lia. subst m1.
  rewrite Hrun'. reflexivity.
Qed.

Lemma maintenance_idempotent_witness :
  performVectorMaintenance
    (snd (performVectorMaintenance sample_server no_options)) no_options
  = (mkResults false 0 0 [],
     snd (performVectorMaintenance sample_server no_options)).
Proof.
  exact (maintenance_idempotent sample_server sample_db eq_refl eq_refl
           unique_sample_ids).
Defined.

Lemma collapse_duplicates_ids (keys : list (Z * string)) :
  forall (vs : list VectorRow) (n : nat),
    NoDup (map v_id vs) ->
    NoDup (map v_id (fst (fold_left collapse_duplicates keys (vs, n)))).
Proof.
  induction keys as [|k keys IH]; intros vs n ND; [exact ND|].
  cbn [fold_left]. unfold collapse_duplicates at 2. cbn [fst snd].
  apply IH, delete_each_ids, ND.
Qed.

(** X9.  The ids of the vectors table stay distinct: if no two fingerprints
    share an id before a [manageVector] call or a maintenance run, whatever
    the arguments and options, none do after it. *)
Theorem unique_ids_preserved (now later : Z) (st : Server) (args : Args)
    (options : MaintenanceOptions) :
  unique_ids st ->
  unique_ids (snd (manageVector now later st args)) /\
  unique_ids (snd (performVectorMaintenance st options)).
Proof.
  intros Hu. split.
  - destruct (manageVector_outcome now later st args)
      as [(message & ->)|[(results & _ & _ & ->)
                         |(d & result & d' & Hdb & _ & _ & -> & Hvs)]];
      cbn [snd]; try exact Hu.
    unfold unique_ids in *. rewrite Hdb in Hu. cbn [with_db db].
    destruct Hvs as [(row & -> & Hid)|[(id & blob & metadata & ->)|(id & ->)]];
      cbn [insert_vector with_sequence with_vectors vectors].
    + apply append_fresh_ids; assumption.
    + rewrite update_vector_ids. exact Hu.
    + apply NoDup_map_filter, Hu.
  - unfold performVectorMaintenance, unique_ids in *.
    destruct (db st) as [d|] eqn:Hdb; cbn [snd]; [|rewrite Hdb; exact I].
    destruct (useInMemory st); cbn [snd]; [rewrite Hdb; exact Hu|].
    destruct (option_default (o_cleanOrphans options) true),
      (option_default (o_optimizeStorage options) true);
      cbn beta iota zeta;
      try match goal with
          | |- context [fold_left collapse_duplicates (duplicate_keys ?v)
                          (?v, 0%nat)] =>
              assert (H2 : NoDup (map v_id
                             (fst (fold_left collapse_duplicates
                                     (duplicate_keys v) (v, 0%nat)))))
                by (apply collapse_duplicates_ids;
                    repeat apply delete_each_ids; exact Hu);
              destruct (fold_left collapse_duplicates (duplicate_keys v)
                          (v, 0%nat)) as [vs2 n2]
          end;
      cbn [fst snd with_db db with_vectors vectors] in *;
      repeat apply delete_each_ids; assumption.
Qed.

Lemma unique_ids_preserved_witness :
  unique_ids
    (snd (manageVector 5000 5001 sample_server
            (mkArgs (Some "store"%string) (Some 10)
               (Some "user_message"%string) (VectorArray [1; 0]%float) None
               None None None None))) /\
  unique_ids (snd (performVectorMaintenance sample_server no_options)).
Proof.
  exact (unique_ids_preserved 5000 5001 sample_server
           (mkArgs (Some "store"%string) (Some 10)
              (Some "user_message"%string) (VectorArray [1; 0]%float) None
              None None None None) no_options unique_sample_ids).
Defined.

(** ** The size of the context *)

Lemma scoreItemsByRelevance_relevance {A : Type} (item_id : A -> positive)
    (st : Server) (items : list A) (queryVector : option Float32Array)
    (primaryType : string) (secondaryType : option string)
    (threshold : float) (s : Scored A) :
  In s (scoreItemsByRelevance item_id st items queryVector primaryType
          secondaryType threshold) ->
  match relevance s with
  | Some r => num_ge r threshold
  | None => True
  end.
Proof.
  assert (Hun : In s (unscored items) ->
                match relevance s with
                | Some r => num_ge r threshold
                | None => True
                end).
  { unfold unscored. intros H. apply in_map_iff in H.
    destruct H as (i & <- & Hi). exact I. }
  unfold scoreItemsByRelevance.
  destruct items as [|i0 rest] eqn:Eitems; [contradiction|].
  rewrite <- Eitems in *.
  destruct queryVector as [q|]; [|exact Hun].
  destruct (db st) as [d|]; [|exact Hun].
  intros H. unfold Array_sort in H. apply stable_sort_In in H.
  apply filter_In in H. destruct H as [H Hge]. apply in_map_iff in H.
  destruct H as (i & <- & Hi). exact Hge.
Qed.

Lemma or_null_above (r : option float) (threshold : float) :
  match r with Some x => num_ge x threshold | None => True end ->
  match or_null r with Some x => num_ge x threshold | None => True end.
Proof.
  destruct r as [x|]; [|trivial]. intros H. unfold or_null.
  destruct ((x =? 0)%float || is_nan x); [exact I | exact H].
Qed.

(** One partition of the context. *)
Lemma pick_within {A : Type} (rt : Runtime) (time : A -> Z)
    (item_id : A -> positive) (st : Server) (table rows : list A)
    (queryVector : option Float32Array) (primaryType : string)
    (secondaryType : option string) (n : nat) (limit : float) :
  ToIntegerOrInfinity limit = Integer (Z.of_nat n) ->
  incl rows table ->
  partition_within n table
    (context_items rt time
       (pick item_id st rows queryVector primaryType secondaryType limit)).
Proof.
  intros Hn Hincl. unfold partition_within, context_items. split.
  - rewrite length_map. unfold pick.
    destruct queryVector; rewrite (Array_slice0_count n _ _ Hn);
      apply firstn_le_length.
  - apply Forall_forall. intros i Hi. apply in_map_iff in Hi.
    destruct Hi as (s & <- & Hs). cbn [source ci_relevance]. split.
    + apply Hincl. eapply pick_items, Hs.
    + apply or_null_above. unfold pick in Hs.
      destruct queryVector as [q|]; apply Array_slice0_In in Hs.
      * eapply scoreItemsByRelevance_relevance, Hs.
      * unfold unscored in Hs. apply in_map_iff in Hs.
        destruct Hs as (x & <- & _). exact I.
Qed.

Lemma limit_order_incl {A : Type} (key : A -> Z) (n : nat) (rows : list A) :
  incl (sql_limit n (order_by_desc key rows)) rows.
Proof.
  intros x Hx. unfold sql_limit, order_by_desc in Hx.
  apply In_firstn, stable_sort_In in Hx. exact Hx.
Qed.

Lemma findSimilarItems_within (toISOString : Z -> string) (st : Server)
    (q : Float32Array) (contentType : string)
    (alternativeType : option string) (n : nat) (limit : float) :
  ToIntegerOrInfinity limit = Integer (Z.of_nat n) ->
  similar_within n
    (findSimilarItems toISOString st q contentType alternativeType limit
       six_tenths).
Proof.
  intros Hn. unfold similar_within, findSimilarItems.
  destruct (similarVectors_above st q contentType alternativeType limit
              six_tenths) as (L & A & _).
  specialize (L _ Hn (Nat2Z.is_nonneg n)).
  destruct (db st) as [d|]; [|split; [cbn; lia | constructor]].
  split; [rewrite length_map; lia|].
  apply Forall_forall. intros i Hi. apply in_map_iff in Hi.
  destruct Hi as (row & <- & Hrow). cbn [si_similarity].
  rewrite Forall_forall in A. auto.
Qed.

(** X12.  On a connected store the context is bounded whatever the store
    holds and whatever the query is: at most 5 recent messages, 5 active
    files, 3 milestones, 3 decisions, 3 requirements and 5 episodes, each
    built from a row of its table and with a relevance that is [null] or at
    least 0.5, and no error.  With a query the semantic partition holds at
    most 3 similar messages, 2 similar files and 3 snippets in all groups
    together, each at least 0.6 similar to the query; without one it is the
    empty object. *)
Theorem context_is_bounded (rt : Runtime) (st : Server) (d : Database)
    (userMessage : option string) (c : Console) :
  db st = Some d ->
  exists short long ep,
    let ctx := getComprehensiveContext rt st userMessage c in
    shortTerm ctx = Some short /\ longTerm ctx = Some long /\
    episodic ctx = Some ep /\ context_error ctx = None /\
    partition_within 5 (messages d) (recentMessages short) /\
    partition_within 5 (active_files d) (activeFiles short) /\
    partition_within 3 (milestones d) (lt_milestones long) /\
    partition_within 3 (decisions d) (lt_decisions long) /\
    partition_within 3 (requirements d) (lt_requirements long) /\
    partition_within 5 (episodes d) (recentEpisodes ep) /\
    match semantic ctx with
    | SemanticContent similarMessages similarFiles similarSnippets =>
        truthy_string userMessage = true /\
        similar_within 3 similarMessages /\
        similar_within 2 similarFiles /\
        similar_within 3 (flat_map g_snippets similarSnippets)
    | SemanticEmpty => truthy_string userMessage = false
    | SemanticError _ => False
    end.
Proof.
  intros Hdb. unfold getComprehensiveContext. rewrite Hdb.
  set (qv := if truthy_string userMessage then _ else None).
  do 3 eexists. cbn zeta.
  cbn [shortTerm longTerm episodic semantic context_error recentMessages
       activeFiles lt_milestones lt_decisions lt_requirements recentEpisodes].
  split; [reflexivity|]. split; [reflexivity|]. split; [reflexivity|].
  split; [reflexivity|].
  split; [apply pick_within; [reflexivity | apply limit_order_incl]|].
  split; [apply pick_within; [reflexivity | apply limit_order_incl]|].
  split; [apply pick_within; [reflexivity | apply limit_order_incl]|].
  split.
  { apply pick_within; [reflexivity|]. intros x Hx.
    apply limit_order_incl in Hx. apply filter_In in Hx. tauto. }
  split.
  { apply pick_within; [reflexivity|]. intros x Hx.
    apply limit_order_incl in Hx. apply filter_In in Hx. tauto. }
  split; [apply pick_within; [reflexivity | apply limit_order_incl]|].
  subst qv. destruct (truthy_string userMessage) eqn:Hq; [|reflexivity].
  unfold createEmbedding, createEmbedding_try.
  destruct userMessage as [t|]; [|discriminate]. cbn [fst].
  split; [reflexivity|].
  split; [apply findSimilarItems_within; reflexivity|].
  split; [apply findSimilarItems_within; reflexivity|].
  match goal with
  | |- similar_within 3 (flat_map g_snippets
                           (groupSimilarSnippetsByFile ?l)) =>
      destruct (groups_of_snippets l) as (G & HP & _ & _ & _ & Hperm);
      pose proof (findSimilarItems_within (Date_toISOString rt) st
                    (Float32Array_from
                       (map (fun i => Math_tanh (rt_Math rt)
                                        (embedding_loop (rt_Math rt) i
                                           (char_codes (trim (toLowerCase t)))
                                           0 0%float)) (seq 0 128)))
                    "code_snippet" None 3%nat 3%float eq_refl) as [HL HA];
      assert (HPall : Permutation
                        (flat_map g_snippets (groupSimilarSnippetsByFile l)) l)
        by (rewrite (Permutation_flat_map g_snippets _ _ HP); exact Hperm)
  end.
  split.
  - rewrite (Permutation_length HPall). exact HL.
  - apply (Permutation_Forall (Permutation_sym HPall)). exact HA.
Qed.

Lemma context_is_bounded_witness :
  exists short long ep,
    let ctx :=
      getComprehensiveContext sample_runtime sample_server
        (Some "hello"%string) quiet_console in
    shortTerm ctx = Some short /\ longTerm ctx = Some long /\
    episodic ctx = Some ep /\ context_error ctx = None /\
    partition_within 5 (messages sample_db) (recentMessages short) /\
    partition_within 5 (active_files sample_db) (activeFiles short) /\
    partition_within 3 (milestones sample_db) (lt_milestones long) /\
    partition_within 3 (decisions sample_db) (lt_decisions long) /\
    partition_within 3 (requirements sample_db) (lt_requirements long) /\
    partition_within 5 (episodes sample_db) (recentEpisodes ep) /\
    match semantic ctx with
    | SemanticContent similarMessages similarFiles similarSnippets =>
        truthy_string (Some "hello"%string) = true /\
        similar_within 3 similarMessages /\
        similar_within 2 similarFiles /\
        similar_within 3 (flat_map g_snippets similarSnippets)
    | SemanticEmpty => truthy_string (Some "hello"%string) = false
    | SemanticError _ => False
    end.
Proof.
  exact (context_is_bounded sample_runtime sample_server sample_db
           (Some "hello"%string) quiet_console eq_refl).
Defined.

(** ** The in-memory store *)

Lemma stable_sort_ext {A : Type} (behind behind' : A -> A -> bool)
    (l : list A) :
  (forall x y, behind x y = behind' x y) ->
  stable_sort behind l = stable_sort behind' l.
Proof.
  intros H. induction l as [|x l IH]; [reflexivity|].
  cbn [stable_sort fold_right].
  change (fold_right (insert_by behind) [] l) with (stable_sort behind l).
  change (fold_right (insert_by behind') [] l) with (stable_sort behind' l).
  rewrite IH. generalize (stable_sort behind' l) as s.
  induction s as [|y s IHs]; [reflexivity|]. cbn [insert_by].
  rewrite H, IHs. reflexivity.
Qed.

(** Sorting by [(a, b) => time(b) - time(a)] is [ORDER BY time DESC]. *)
Lemma sort_newest_first_order {A : Type} (time : A -> Z) (l : list A) :
  sort_newest_first time l = order_by_desc time l.
Proof.
  apply stable_sort_ext. intros x y.
  destruct (Z.ltb_spec 0 (time y - time x)), (Z.ltb_spec (time x) (time y));
    try reflexivity; lia.
Qed.

Lemma stable_sort_sorted_id {A : Type} (behind : A -> A -> bool)
    (l : list A) :
  StronglySorted (not_behind behind) l -> stable_sort behind l = l.
Proof.
  intros HS. induction HS as [|a l HS IH HF]; [reflexivity|].
  cbn [stable_sort fold_right].
  change (fold_right (insert_by behind) [] l) with (stable_sort behind l).
  rewrite IH. apply insert_by_front, HF.
Qed.

Lemma order_by_desc_not_behind {A : Type} (key : A -> Z) (l : list A) :
  StronglySorted (not_behind (fun x y => key x <? key y))
    (order_by_desc key l).
Proof.
  apply StronglySorted_weaken with (R := fun x y => key y <= key x).
  - intros a b _ _ H. apply Z.ltb_ge, H.
  - apply order_by_desc_sorted.
Qed.

Lemma order_by_desc_twice {A : Type} (key : A -> Z) (l : list A) :
  order_by_desc key (order_by_desc key l) = order_by_desc key l.
Proof. apply stable_sort_sorted_id, order_by_desc_not_behind. Qed.

Lemma order_by_desc_filter {A : Type} (key : A -> Z) (f : A -> bool)
    (l : list A) :
  filter f (order_by_desc key l) = order_by_desc key (filter f l).
Proof.
  apply stable_sort_filter with (P := fun _ => True).
  - intros x y _ _ H. apply Z.ltb_lt in H. apply Z.ltb_ge. lia.
  - intros x y z _ _ _ H1 H2. apply Z.ltb_ge in H1, H2. apply Z.ltb_ge. lia.
  - apply Forall_forall. trivial.
Qed.

(** The [n] first rows of a descending order: as many as there are, up to
    [n]; in order; and no row that is left out is newer than one that is
    in. *)
Lemma newest_rows {A : Type} (time : A -> Z) (n : nat) (rows : list A) :
  let found := firstn n (order_by_desc time rows) in
  List.length found = Nat.min n (List.length rows) /\
  StronglySorted (fun x y => time y <= time x) found /\
  exists older,
    Permutation rows (found ++ older) /\
    forall x y, In x found -> In y older -> time y <= time x.
Proof.
  cbn zeta. split; [|split].
  - rewrite length_firstn.
    unfold order_by_desc.
    rewrite (Permutation_length (stable_sort_perm _ rows)). reflexivity.
  - apply StronglySorted_firstn, order_by_desc_sorted.
  - exists (skipn n (order_by_desc time rows)). split.
    + rewrite firstn_skipn. symmetry. apply stable_sort_perm.
    + apply sorted_firstn_skipn, order_by_desc_sorted.
Qed.

Lemma findIndex_Some {A : Type} (p : A -> bool) (l : list A) (i : nat) :
  findIndex p l = Some i ->
  exists before x after,
    l = before ++ x :: after /\ List.length before = i /\ p x = true /\
    Forall (fun y => p y = false) before.
Proof.
  revert i. induction l as [|a l IH]; intros i H; [discriminate|].
  cbn [findIndex] in H. destruct (p a) eqn:Ea.
  - injection H as <-. exists [], a, l. repeat split; auto.
  - destruct (findIndex p l) as [j|]; [|discriminate]. injection H as <-.
    destruct (IH j eq_refl) as (before & x & after & -> & Hlen & Hx & Hb).
    exists (a :: before), x, after. cbn [app List.length].
    repeat split; auto.
Qed.

Lemma findIndex_None {A : Type} (p : A -> bool) (l : list A) :
  findIndex p l = None -> Forall (fun y => p y = false) l.
Proof.
  induction l as [|a l IH]; intros H; [constructor|].
  cbn [findIndex] in H. destruct (p a) eqn:Ea; [discriminate|].
  destruct (findIndex p l); [discriminate|]. constructor; auto.
Qed.

Lemma Array_update_middle {A : Type} (f : A -> A) (before after : list A)
    (x : A) :
  Array_update (List.length before) f (before ++ x :: after)
  = before ++ f x :: after.
Proof.
  induction before as [|b before IH]; [reflexivity|].
  cbn [List.length app Array_update]. rewrite IH. reflexivity.
Qed.

(** The active files after [trackActiveFile]: the entry of the file is
    rewritten where it stands, or a new entry is put at the end. *)
Lemma trackActiveFile_files (now : Z) (store : InMemoryStore)
    (filename action : string) (metadata : option string) :
  exists before after,
    mem_activeFiles
      (trackActiveFile_inMemory now store filename action metadata)
    = before ++ mkMemoryFile filename action now metadata :: after /\
    Forall (fun f => mf_filename f <> filename) before /\
    ((after = [] /\ mem_activeFiles store = before) \/
     exists old, mf_filename old = filename /\
                 mem_activeFiles store = before ++ old :: after).
Proof.
  unfold trackActiveFile_inMemory. cbn [mem_activeFiles].
  destruct (findIndex _ (mem_activeFiles store)) as [i|] eqn:E.
  - apply findIndex_Some in E.
    destruct E as (before & old & after & Hl & Hlen & Hold & Hb).
    apply String.eqb_eq in Hold.
    exists before, after. rewrite Hl, <- Hlen, Array_update_middle, Hold.
    split; [reflexivity|]. split; [|right; exists old; auto].
    eapply Forall_impl; [|exact Hb]. cbn beta. intros f Hf.
    apply String.eqb_neq, Hf.
  - apply findIndex_None in E. exists (mem_activeFiles store), [].
    split; [reflexivity|]. split; [|left; auto].
    eapply Forall_impl; [|exact E]. cbn beta. intros f Hf.
    apply String.eqb_neq, Hf.
Qed.

(** X13.  In in-memory mode [trackActiveFile] is an upsert by file name: if
    no two entries of the active files have the same name before the call,
    none do after it; the entry of the tracked file carries the action, the
    metadata and the time of the call and stands where the file's old entry
    stood, or at the end when the file was not tracked yet; all other
    entries stay as they were and where they were.  One episode of context
    'file-tracking' that names the file is appended, and nothing else in the
    store changes. *)
Theorem trackActiveFile_inMemory_upsert (now : Z) (store : InMemoryStore)
    (filename action : string) (metadata : option string) :
  NoDup (map mf_filename (mem_activeFiles store)) ->
  let store' := trackActiveFile_inMemory now store filename action metadata in
  NoDup (map mf_filename (mem_activeFiles store')) /\
  (exists before after,
      mem_activeFiles store'
      = before ++ mkMemoryFile filename action now metadata :: after /\
      ((after = [] /\ mem_activeFiles store = before /\
        ~ In filename (map mf_filename (mem_activeFiles store))) \/
       exists old, mf_filename old = filename /\
                   mem_activeFiles store = before ++ old :: after)) /\
  mem_episodes store'
  = mem_episodes store
    ++ [mkMemoryEpisode "user" action filename now "low"
          (Some "file-tracking"%string)] /\
  mem_messages store' = mem_messages store /\
  mem_milestones store' = mem_milestones store /\
  mem_decisions store' = mem_decisions store /\
  mem_requirements store' = mem_requirements store.
Proof.
  intros ND. cbn zeta.
  destruct (trackActiveFile_files now store filename action metadata)
    as (before & after & Hfiles & Hbefore & Hold).
  split; [|split; [|repeat split]].
  - rewrite Hfiles. destruct Hold as [[-> Hst]|(old & Hname & Hst)];
      rewrite Hst in ND.
    + rewrite map_app. cbn [map mf_filename].
      apply NoDup_app; [exact ND | repeat constructor; intros [] |].
      intros name Hin [<-|[]]. apply in_map_iff in Hin.
      destruct Hin as (f & Hf & Hin). rewrite Forall_forall in Hbefore.
      apply (Hbefore f Hin Hf).
    + rewrite map_app in ND |- *. cbn [map mf_filename] in ND |- *.
      rewrite Hname in ND. exact ND.
  - exists before, after. split; [exact Hfiles|].
    destruct Hold as [[-> Hst]|Hold]; [left|right; exact Hold].
    split; [reflexivity|]. split; [exact Hst|].
    rewrite Hst. intros Hin. apply in_map_iff in Hin.
    destruct Hin as (f & Hf & Hin). rewrite Forall_forall in Hbefore.
    apply (Hbefore f Hin Hf).
Qed.

Lemma trackActiveFile_inMemory_upsert_witness :
  let store' :=
    trackActiveFile_inMemory 2000 sample_store "a.js" "edit" None in
  NoDup (map mf_filename (mem_activeFiles store')) /\
  (exists before after,
      mem_activeFiles store'
      = before ++ mkMemoryFile "a.js" "edit" 2000 None :: after /\
      ((after = [] /\ mem_activeFiles sample_store = before /\
        ~ In "a.js"%string (map mf_filename (mem_activeFiles sample_store))) \/
       exists old, mf_filename old = "a.js"%string /\
                   mem_activeFiles sample_store = before ++ old :: after)) /\
  mem_episodes store'
  = mem_episodes sample_store
    ++ [mkMemoryEpisode "user" "edit" "a.js" 2000 "low"
          (Some "file-tracking"%string)] /\
  mem_messages store' = mem_messages sample_store /\
  mem_milestones store' = mem_milestones sample_store /\
  mem_decisions store' = mem_decisions sample_store /\
  mem_requirements store' = mem_requirements sample_store.
Proof.
  apply (trackActiveFile_inMemory_upsert 2000 sample_store "a.js" "edit" None).
  change (NoDup ["a.js"; "b.js"]%string).
  repeat (constructor; [cbn [In]; intuition discriminate|]). constructor.
Defined.

(** The one row that is newer than all others sorts to the front. *)
Lemma order_by_desc_newest {A : Type} (time : A -> Z) (x : A)
    (before after : list A) :
  Forall (fun y => time y < time x) (before ++ after) ->
  order_by_desc time (before ++ x :: after)
  = x :: order_by_desc time (before ++ after).
Proof.
  unfold order_by_desc. induction before as [|b before IH]; intros H.
  - cbn [app stable_sort fold_right].
    change (fold_right (insert_by (fun x0 y => time x0 <? time y)) [] after)
      with (stable_sort (fun x0 y => time x0 <? time y) after).
    apply insert_by_front. apply stable_sort_Forall.
    eapply Forall_impl; [|exact H]. cbn beta. intros y Hy.
    unfold not_behind. apply Z.ltb_ge. lia.
  - cbn [app] in H. inversion H as [|? ? Hb H']; subst.
    cbn [app stable_sort fold_right].
    change (fold_right (insert_by (fun x0 y => time x0 <? time y)) []
              (before ++ x :: after))
      with (stable_sort (fun x0 y => time x0 <? time y)
              (before ++ x :: after)).
    rewrite (IH H'). cbn [insert_by].
    destruct (Z.ltb_spec (time b) (time x)); [reflexivity | lia].
Qed.

(** X14.  In in-memory mode, when the clock has moved on since every
    earlier access, the file that was tracked last is the first file
    [getActiveFiles] returns, with the action, metadata and time of that
    call; this holds for every limit from 1 on (a limit whose integer part
    is at least 1, or Infinity), the default of 10 included. *)
Theorem tracked_file_comes_first (toISOString : Z -> string) (now : Z)
    (store : InMemoryStore) (filename action : string)
    (metadata : option string) (limit : option float) :
  Forall (fun f => mf_last_accessed f < now) (mem_activeFiles store) ->
  at_least_one (limit_or_default limit) ->
  exists rest,
    fst (getActiveFiles_inMemory toISOString
           (trackActiveFile_inMemory now store filename action metadata)
           limit)
    = (mkMemoryFile filename action now metadata, toISOString now) :: rest.
Proof.
  intros Hold Hlimit.
  destruct (trackActiveFile_files now store filename action metadata)
    as (before & after & Hfiles & _ & Hst).
  unfold getActiveFiles_inMemory. cbn [fst]. rewrite Hfiles.
  rewrite sort_newest_first_order, order_by_desc_newest.
  - fold (limit_or_default limit).
    destruct (Array_slice0_first
                (mkMemoryFile filename action now metadata)
                (order_by_desc mf_last_accessed (before ++ after))
                (limit_or_default limit) Hlimit) as (rest & ->).
    cbn [map mf_last_accessed]. eexists. reflexivity.
  - cbn [mf_last_accessed].
    destruct Hst as [[-> Hst]|(old & _ & Hst)]; rewrite Hst in Hold.
    + rewrite app_nil_r. exact Hold.
    + apply Forall_app in Hold. destruct Hold as [H1 H2].
      inversion H2; subst. apply Forall_app. auto.
Qed.

Lemma tracked_file_comes_first_witness :
  exists rest,
    fst (getActiveFiles_inMemory string_of_Z
           (trackActiveFile_inMemory 2000 sample_store "a.js" "edit" None)
           (Some 1.5%float))
    = (mkMemoryFile "a.js" "edit" 2000 None, string_of_Z 2000) :: rest.
Proof.
  apply (tracked_file_comes_first string_of_Z 2000 sample_store "a.js" "edit"
           None (Some 1.5%float)).
  - repeat constructor.
  - vm_compute. discriminate.
Defined.

Lemma asked_messages (importance : option string)
    (messages : list MemoryMessage) :
  (if truthy_string importance
   then filter (fun m => same_key (Some (mm_importance m)) importance) messages
   else messages)
  = filter (asked_message importance) messages.
Proof.
  unfold asked_message. destruct (truthy_string importance); cbn [negb orb].
  - reflexivity.
  - symmetry. apply forallb_filter_id, forallb_forall. reflexivity.
Qed.

Lemma asked_episodes (context : option string)
    (episodes : list MemoryEpisode) :
  (if truthy_string context
   then filter (fun e => same_key (me_context e) context) episodes
   else episodes)
  = filter (asked_episode context) episodes.
Proof.
  unfold asked_episode. destruct (truthy_string context); cbn [negb orb].
  - reflexivity.
  - symmetry. apply forallb_filter_id, forallb_forall. reflexivity.
Qed.

(** What [getRecentMessages] and [getRecentEpisodes] answer in in-memory
    mode. *)
Lemma getRecentMessages_inMemory_result (toISOString : Z -> string)
    (store : InMemoryStore) (limit : option float)
    (importance : option string) :
  fst (getRecentMessages_inMemory toISOString store limit importance)
  = map (fun msg => (msg, toISOString (mm_created_at msg)))
      (Array_slice0
         (order_by_desc mm_created_at
            (filter (asked_message importance) (mem_messages store)))
         (limit_or_default limit)).
Proof.
  rewrite <- asked_messages.
  unfold getRecentMessages_inMemory, limit_or_default.
  destruct (truthy_string importance); cbn [fst];
    rewrite sort_newest_first_order; reflexivity.
Qed.

Lemma getRecentEpisodes_inMemory_result (toISOString : Z -> string)
    (store : InMemoryStore) (limit : option float)
    (context : option string) :
  fst (getRecentEpisodes_inMemory toISOString store limit context)
  = map (fun ep => (ep, toISOString (me_timestamp ep)))
      (Array_slice0
         (order_by_desc me_timestamp
            (filter (asked_episode context) (mem_episodes store)))
         (limit_or_default limit)).
Proof.
  rewrite <- asked_episodes.
  unfold getRecentEpisodes_inMemory, limit_or_default.
  destruct (truthy_string context); cbn [fst];
    rewrite sort_newest_first_order; reflexivity.
Qed.

(** The newest rows a [slice(0, limit)] keeps of the sorted rows: their
    number for a limit whose integer part is not negative, and for one
    whose integer part is negative. *)
Lemma sliced_newest_rows {A : Type} (time : A -> Z) (limit : float)
    (rows : list A) :
  let found := Array_slice0 (order_by_desc time rows) limit in
  (List.length found <= List.length rows)%nat /\
  (forall k, ToIntegerOrInfinity limit = Integer k -> 0 <= k ->
             List.length found = Nat.min (Z.to_nat k) (List.length rows)) /\
  (forall k, ToIntegerOrInfinity limit = Integer k -> k < 0 ->
             List.length found = (List.length rows - Z.to_nat (- k))%nat) /\
  StronglySorted (fun x y => time y <= time x) found /\
  exists older,
    Permutation rows (found ++ older) /\
    forall x y, In x found -> In y older -> time y <= time x.
Proof.
  cbn zeta. unfold Array_slice0.
  assert (Hlen : List.length (order_by_desc time rows) = List.length rows).
  { unfold order_by_desc.
    apply (Permutation_length (stable_sort_perm _ rows)). }
  rewrite Hlen.
  pose proof (slice_final_le (List.length rows) limit) as Hle.
  destruct (newest_rows time (slice_final (List.length rows) limit) rows)
    as (Hfound & Hsorted & Holder).
  rewrite Nat.min_l in Hfound by exact Hle.
  split; [lia|]. split; [|split; [|split; assumption]].
  - intros k Hk Hpos. rewrite Hfound. unfold slice_final. rewrite Hk.
    destruct (Z.ltb_spec k 0); lia.
  - intros k Hk Hneg. rewrite Hfound. unfold slice_final. rewrite Hk.
    destruct (Z.ltb_spec k 0); lia.
Qed.

(** X15.  In in-memory mode [getRecentMessages] returns the newest messages
    of the importance asked for (of any importance when none is asked for),
    cut by [slice(0, limit)] with the limit of the call or 10: for a limit
    whose integer part [k] is not negative the [min k total] newest, for a
    negative one all but the [-k] oldest.  Each one is a message of the
    store with that importance, with its time rendered; they come newest
    first; and no message that is left out is newer than one that is
    returned. *)
Theorem getRecentMessages_inMemory_newest (toISOString : Z -> string)
    (store : InMemoryStore) (limit : option float)
    (importance : option string) :
  let asked := filter (asked_message importance) (mem_messages store) in
  let result :=
    fst (getRecentMessages_inMemory toISOString store limit importance) in
  (List.length result <= List.length asked)%nat /\
  (forall k, ToIntegerOrInfinity (limit_or_default limit) = Integer k ->
             0 <= k ->
             List.length result = Nat.min (Z.to_nat k) (List.length asked)) /\
  (forall k, ToIntegerOrInfinity (limit_or_default limit) = Integer k ->
             k < 0 ->
             List.length result
             = (List.length asked - Z.to_nat (- k))%nat) /\
  Forall (fun r => In (fst r) (mem_messages store) /\
                   asked_message importance (fst r) = true /\
                   snd r = toISOString (mm_created_at (fst r))) result /\
  StronglySorted (fun x y => mm_created_at y <= mm_created_at x)
    (map fst result) /\
  exists older,
    Permutation asked (map fst result ++ older) /\
    forall x y, In x (map fst result) -> In y older ->
                mm_created_at y <= mm_created_at x.
Proof.
  cbn zeta. rewrite getRecentMessages_inMemory_result.
  set (asked := filter (asked_message importance) (mem_messages store)).
  destruct (sliced_newest_rows mm_created_at (limit_or_default limit) asked)
    as (Hle & Hpos & Hneg & Hsorted & Holder).
  rewrite map_map. cbn [fst]. rewrite map_id, length_map.
  split; [exact Hle|]. split; [exact Hpos|]. split; [exact Hneg|].
  split; [|split; assumption].
  apply Forall_forall. intros r Hr. apply in_map_iff in Hr.
  destruct Hr as (m & <- & Hm). cbn [fst snd].
  apply Array_slice0_In in Hm. unfold order_by_desc in Hm.
  apply stable_sort_In, filter_In in Hm. tauto.
Qed.

(** X16.  In in-memory mode [getRecentEpisodes] returns the newest episodes
    of the context asked for (of any context when none is asked for), cut by
    [slice(0, limit)] with the limit of the call or 10: for a limit whose
    integer part [k] is not negative the [min k total] newest, for a
    negative one all but the [-k] oldest.  Each one is an episode of the
    store with that context, with its time rendered; they come newest
    first; and no episode that is left out is newer than one that is
    returned. *)
Theorem getRecentEpisodes_inMemory_newest (toISOString : Z -> string)
    (store : InMemoryStore) (limit : option float)
    (context : option string) :
  let asked := filter (asked_episode context) (mem_episodes store) in
  let result :=
    fst (getRecentEpisodes_inMemory toISOString store limit context) in
  (List.length result <= List.length asked)%nat /\
  (forall k, ToIntegerOrInfinity (limit_or_default limit) = Integer k ->
             0 <= k ->
             List.length result = Nat.min (Z.to_nat k) (List.length asked)) /\
  (forall k, ToIntegerOrInfinity (limit_or_default limit) = Integer k ->
             k < 0 ->
             List.length result
             = (List.length asked - Z.to_nat (- k))%nat) /\
  Forall (fun r => In (fst r) (mem_episodes store) /\
                   asked_episode context (fst r) = true /\
                   snd r = toISOString (me_timestamp (fst r))) result /\
  StronglySorted (fun x y => me_timestamp y <= me_timestamp x)
    (map fst result) /\
  exists older,
    Permutation asked (map fst result ++ older) /\
    forall x y, In x (map fst result) -> In y older ->
                me_timestamp y <= me_timestamp x.
Proof.
  cbn zeta. rewrite getRecentEpisodes_inMemory_result.
  set (asked := filter (asked_episode context) (mem_episodes store)).
  destruct (sliced_newest_rows me_timestamp (limit_or_default limit) asked)
    as (Hle & Hpos & Hneg & Hsorted & Holder).
  rewrite map_map. cbn [fst]. rewrite map_id, length_map.
  split; [exact Hle|]. split; [exact Hpos|]. split; [exact Hneg|].
  split; [|split; assumption].
  apply Forall_forall. intros r Hr. apply in_map_iff in Hr.
  destruct Hr as (ep & <- & He). cbn [fst snd].
  apply Array_slice0_In in He. unfold order_by_desc in He.
  apply stable_sort_In, filter_In in He. tauto.
Qed.

(** X17.  The in-place sort of the readers cannot be seen from outside.  A
    [getRecentMessages], [getActiveFiles] or [getRecentEpisodes] call in
    in-memory mode leaves every array of the store with the objects it had,
    at most in another order (and with a filter, in the same order); and
    each of the three readers answers after the call exactly what it would
    have answered before it, for every limit and filter. *)
Theorem readers_do_not_disturb (toISOString : Z -> string)
    (store store' : InMemoryStore) (limit : option float)
    (filter_by : option string) :
  store' = snd (getRecentMessages_inMemory toISOString store limit filter_by)
  \/ store' = snd (getActiveFiles_inMemory toISOString store limit)
  \/ store' = snd (getRecentEpisodes_inMemory toISOString store limit
                     filter_by) ->
  (Permutation (mem_messages store') (mem_messages store) /\
   Permutation (mem_activeFiles store') (mem_activeFiles store) /\
   Permutation (mem_episodes store') (mem_episodes store) /\
   mem_milestones store' = mem_milestones store /\
   mem_decisions store' = mem_decisions store /\
   mem_requirements store' = mem_requirements store) /\
  (forall limit' importance,
      fst (getRecentMessages_inMemory toISOString store' limit' importance)
      = fst (getRecentMessages_inMemory toISOString store limit' importance))
  /\
  (forall limit',
      fst (getActiveFiles_inMemory toISOString store' limit')
      = fst (getActiveFiles_inMemory toISOString store limit')) /\
  (forall limit' context,
      fst (getRecentEpisodes_inMemory toISOString store' limit' context)
      = fst (getRecentEpisodes_inMemory toISOString store limit' context)).
Proof.
  intros Hcall.
  assert (Hstore :
    (mem_messages store' = mem_messages store \/
     mem_messages store' = order_by_desc mm_created_at (mem_messages store))
    /\
    (mem_activeFiles store' = mem_activeFiles store \/
     mem_activeFiles store'
     = order_by_desc mf_last_accessed (mem_activeFiles store)) /\
    (mem_episodes store' = mem_episodes store \/
     mem_episodes store' = order_by_desc me_timestamp (mem_episodes store))
    /\
    mem_milestones store' = mem_milestones store /\
    mem_decisions store' = mem_decisions store /\
    mem_requirements store' = mem_requirements store).
  { destruct Hcall as [->|[->| ->]].
    - unfold getRecentMessages_inMemory.
      destruct (truthy_string filter_by); cbn [snd mem_messages
        mem_activeFiles mem_episodes mem_milestones mem_decisions
        mem_requirements]; rewrite ?sort_newest_first_order; auto 10.
    - unfold getActiveFiles_inMemory. cbn [snd mem_messages
        mem_activeFiles mem_episodes mem_milestones mem_decisions
        mem_requirements]. rewrite ?sort_newest_first_order. auto 10.
    - unfold getRecentEpisodes_inMemory.
      destruct (truthy_string filter_by); cbn [snd mem_messages
        mem_activeFiles mem_episodes mem_milestones mem_decisions
        mem_requirements]; rewrite ?sort_newest_first_order; auto 10. }
  destruct Hstore as (Hm & Hf & He & Hms & Hd & Hr).
  split; [|split; [|split]].
  - repeat split; try assumption.
    + destruct Hm as [->| ->]; [reflexivity | apply stable_sort_perm].
    + destruct Hf as [->| ->]; [reflexivity | apply stable_sort_perm].
    + destruct He as [->| ->]; [reflexivity | apply stable_sort_perm].
  - intros limit' importance. rewrite !getRecentMessages_inMemory_result.
    destruct Hm as [->| ->]; [reflexivity|].
    rewrite order_by_desc_filter, order_by_desc_twice. reflexivity.
  - intros limit'. unfold getActiveFiles_inMemory. cbn [fst].
    rewrite !sort_newest_first_order.
    destruct Hf as [->| ->]; [reflexivity|].
    rewrite order_by_desc_twice. reflexivity.
  - intros limit' context. rewrite !getRecentEpisodes_inMemory_result.
    destruct He as [->| ->]; [reflexivity|].
    rewrite order_by_desc_filter, order_by_desc_twice. reflexivity.
Qed.

Lemma readers_do_not_disturb_witness :
  let store' :=
    snd (getRecentMessages_inMemory string_of_Z sample_store None None) in
  (Permutation (mem_messages store') (mem_messages sample_store) /\
   Permutation (mem_activeFiles store') (mem_activeFiles sample_store) /\
   Permutation (mem_episodes store') (mem_episodes sample_store) /\
   mem_milestones store' = mem_milestones sample_store /\
   mem_decisions store' = mem_decisions sample_store /\
   mem_requirements store' = mem_requirements sample_store) /\
  (forall limit' importance,
      fst (getRecentMessages_inMemory string_of_Z store' limit' importance)
      = fst (getRecentMessages_inMemory string_of_Z sample_store limit'
               importance)) /\
  (forall limit',
      fst (getActiveFiles_inMemory string_of_Z store' limit')
      = fst (getActiveFiles_inMemory string_of_Z sample_store limit')) /\
  (forall limit' context,
      fst (getRecentEpisodes_inMemory string_of_Z store' limit' context)
      = fst (getRecentEpisodes_inMemory string_of_Z sample_store limit'
               context)).
Proof.
  exact (readers_do_not_disturb string_of_Z sample_store
           (snd (getRecentMessages_inMemory string_of_Z sample_store None
                   None))
           None None (or_introl eq_refl)).
Defined.

(** X18.  In in-memory mode, when the clock has moved on since every
    earlier message, the message [storeUserMessage] has just stored is the
    first one [getRecentMessages] returns, for every limit from 1 on (a
    limit whose integer part is at least 1, or Infinity; the default of 10
    included) and for no importance filter or the filter of the message's
    own importance ('low' when the call gave none); the [messageId] the call
    reports is the number of messages then in the store. *)
Theorem stored_message_comes_first (toISOString : Z -> string) (now : Z)
    (store : InMemoryStore) (content : string)
    (importance metadata : option string) (limit : option float)
    (filter_by : option string) :
  Forall (fun m => mm_created_at m < now) (mem_messages store) ->
  at_least_one (limit_or_default limit) ->
  (truthy_string filter_by = true ->
   filter_by
   = Some (match importance with Some i => i | None => "low"%string end)) ->
  let stored :=
    mkMemoryMessage "user" content now
      (match importance with Some i => i | None => "low"%string end)
      metadata in
  let call :=
    storeUserMessage_inMemory now store content importance metadata in
  fst call = Z.of_nat (List.length (mem_messages (snd call))) /\
  mem_messages (snd call) = mem_messages store ++ [stored] /\
  exists rest,
    fst (getRecentMessages_inMemory toISOString (snd call) limit filter_by)
    = (stored, toISOString now) :: rest.
Proof.
  intros Hold Hlimit Hfilter. cbn zeta.
  split; [reflexivity|]. split; [reflexivity|].
  rewrite getRecentMessages_inMemory_result.
  unfold storeUserMessage_inMemory. cbn [snd mem_messages].
  rewrite filter_app. cbn [filter].
  set (stored := mkMemoryMessage "user" content now _ metadata).
  assert (Hasked : asked_message filter_by stored = true).
  { unfold asked_message. destruct (truthy_string filter_by) eqn:E;
      [|reflexivity]. rewrite (Hfilter eq_refl). cbn [negb orb].
    apply same_key_refl. }
  rewrite Hasked.
  rewrite (order_by_desc_newest mm_created_at stored
             (filter (asked_message filter_by) (mem_messages store)) []).
  - destruct (Array_slice0_first stored
                (order_by_desc mm_created_at
                   (filter (asked_message filter_by) (mem_messages store)
                    ++ []))
                (limit_or_default limit) Hlimit) as (rest & ->).
    cbn [map]. eexists. reflexivity.
  - rewrite app_nil_r. apply Forall_forall. intros m Hm.
    apply filter_In in Hm. rewrite Forall_forall in Hold. apply Hold. tauto.
Qed.

Lemma stored_message_comes_first_witness :
  let stored := mkMemoryMessage "user" "third" 2000 "low" None in
  let call := storeUserMessage_inMemory 2000 sample_store "third" None None in
  fst call = Z.of_nat (List.length (mem_messages (snd call))) /\
  mem_messages (snd call) = mem_messages sample_store ++ [stored] /\
  exists rest,
    fst (getRecentMessages_inMemory string_of_Z (snd call) None
           (Some "low"%string))
    = (stored, string_of_Z 2000) :: rest.
Proof.
  apply (stored_message_comes_first string_of_Z 2000 sample_store "third" None
           None None (Some "low"%string)).
  - repeat constructor.
  - vm_compute. discriminate.
  - reflexivity.
Defined.

(** ** Code detection *)

Lemma includes_char (s : string) (c : ascii) :
  In c (list_ascii_of_string s) -> includes s (String c "") = true.
Proof.
  induction s as [|a s IH]; intros H; [contradiction|].
  cbn [list_ascii_of_string In] in H. cbn [includes startsWith].
  destruct (Ascii.eqb_spec a c) as [->|Hne].
  - destruct s; reflexivity.
  - destruct H as [H|H]; [contradiction|]. rewrite (IH H).
    apply orb_true_r.
Qed.

Lemma toLowerCase_chars (s : string) :
  list_ascii_of_string (toLowerCase s)
  = map lower_char (list_ascii_of_string s).
Proof.
  induction s as [|a s IH]; [reflexivity|].
  cbn [toLowerCase list_ascii_of_string map]. rewrite IH. reflexivity.
Qed.

Lemma includes_term (codePatterns : list (string -> bool)) (q term : string) :
  In term (codeTerms ++ languages) ->
  includes (toLowerCase q) term = true ->
  isCodeRelatedQuery codePatterns (Some q) = true.
Proof.
  intros Hterm Hinc. unfold isCodeRelatedQuery.
  destruct (negb (truthy_string (Some q))) eqn:Eq.
  - cbn in Eq. apply negb_true_iff, negb_false_iff, String.eqb_eq in Eq.
    subst q. exfalso. revert Hinc.
    assert (Hne : term <> ""%string).
    { intros ->. revert Hterm. unfold codeTerms, languages. cbn [app In].
      intuition discriminate. }
    destruct term; [contradiction|]. discriminate.
  - assert (Hex : existsb (fun t => includes (toLowerCase q) t)
                    (codeTerms ++ languages) = true).
    { apply existsb_exists. exists term. auto. }
    rewrite Hex. reflexivity.
Qed.

(** X19.  [isCodeRelatedQuery] answers [false] for a query that is missing
    or empty, and [true], whatever the regular expressions are, for every
    query whose lower-case form contains one of the code terms or language
    names.  Since 'r' is one of the language names, every query that
    contains the letter r, in either case, counts as code-related. *)
Theorem isCodeRelatedQuery_terms (codePatterns : list (string -> bool))
    (q : string) :
  isCodeRelatedQuery codePatterns None = false /\
  isCodeRelatedQuery codePatterns (Some ""%string) = false /\
  (forall term, In term (codeTerms ++ languages) ->
                includes (toLowerCase q) term = true ->
                isCodeRelatedQuery codePatterns (Some q) = true) /\
  (In "r"%char (list_ascii_of_string q) \/
   In "R"%char (list_ascii_of_string q) ->
   isCodeRelatedQuery codePatterns (Some q) = true).
Proof.
  split; [reflexivity|]. split; [reflexivity|].
  split; [intros term; apply includes_term|].
  intros Hr. apply (includes_term codePatterns q "r").
  - unfold codeTerms, languages. cbn [app In]. tauto.
  - apply includes_char. rewrite toLowerCase_chars.
    destruct Hr as [Hr|Hr].
    + change "r"%char with (lower_char "r"). apply in_map, Hr.
    + change "r"%char with (lower_char "R"). apply in_map, Hr.
Qed.

(** ** The statement adapter *)

Lemma String_split_nonempty (sep : ascii) (s : string) :
  String_split sep s <> [].
Proof.
  destruct s as [|c r]; cbn [String_split]; [discriminate|].
  destruct (Ascii.eqb c sep); [discriminate|].
  destruct (String_split sep r); discriminate.
Qed.

Lemma weave_cons_char (c : ascii) (piece : string) (rest names : list string) :
  weave (String c piece :: rest) names = String c (weave (piece :: rest) names).
Proof.
  cbn [weave]. destruct rest as [|p rest]; [reflexivity|].
  destruct names; reflexivity.
Qed.

Lemma string_of_nat_digits (n : nat) :
  Forall digit_char (list_ascii_of_string (string_of_nat n)).
Proof.
  unfold string_of_nat, string_of_Z.
  assert (Hu : forall d, Forall digit_char
                 (list_ascii_of_string
                    (DecimalString.NilEmpty.string_of_uint d))).
  { induction d; cbn [DecimalString.NilEmpty.string_of_uint
                      list_ascii_of_string];
      constructor; try assumption; unfold digit_char; cbn [In]; tauto. }
  destruct (Z.of_nat n) as [|p|p] eqn:E; [| |lia];
    cbn [Z.to_int DecimalString.NilZero.string_of_int].
  - constructor; [unfold digit_char; cbn [In]; tauto | constructor].
  - unfold DecimalString.NilZero.string_of_uint.
    destruct (Pos.to_uint p); try apply Hu.
    constructor; [unfold digit_char; cbn [In]; tauto | constructor].
Qed.

Lemma string_of_nat_inj (n m : nat) :
  string_of_nat n = string_of_nat m -> n = m.
Proof.
  unfold string_of_nat, string_of_Z. intros H.
  assert (Hnil : forall z, 0 <= z ->
            Z.to_int z <> Decimal.Pos Decimal.Nil /\
            Z.to_int z <> Decimal.Neg Decimal.Nil).
  { intros [|p|p] Hz; [| |lia]; cbn [Z.to_int].
    - split; discriminate.
    - split; [|discriminate]. intros E. injection E as E.
      apply (DecimalPos.Unsigned.to_uint_nonnil p E). }
  apply (f_equal DecimalString.NilZero.int_of_string) in H.
  destruct (Hnil (Z.of_nat n)) as [? ?]; [lia|].
  destruct (Hnil (Z.of_nat m)) as [? ?]; [lia|].
  rewrite !DecimalString.NilZero.isi in H by assumption.
  injection H as H. apply DecimalZ.to_int_inj in H. lia.
Qed.

Lemma append_chars (s t : string) :
  list_ascii_of_string (s ++ t)
  = list_ascii_of_string s ++ list_ascii_of_string t.
Proof.
  induction s as [|c s IH]; [reflexivity|].
  cbn [append list_ascii_of_string app]. rewrite IH. reflexivity.
Qed.

(** The constructor for any start of the counter. *)
Lemma convert_parameters_weave (sql : string) :
  forall k : nat,
    let count := (List.length (String_split "?" sql) - 1)%nat in
    convert_parameters sql k
    = (weave (String_split "?" sql)
         (map (fun i => (":param" ++ string_of_nat i)%string)
            (seq (S k) count)),
       (k + count)%nat).
Proof.
  induction sql as [|c rest IH]; intros k; cbn zeta.
  - cbn. rewrite Nat.add_0_r. reflexivity.
  - cbn [convert_parameters String_split].
    destruct (Ascii.eqb c "?").
    + rewrite (IH (S k)). cbn zeta.
      pose proof (String_split_nonempty "?" rest) as Hne.
      destruct (String_split "?" rest) as [|piece pieces] eqn:E;
        [contradiction|].
      cbn [List.length Nat.sub]. rewrite Nat.sub_0_r.
      cbn [seq map]. f_equal. lia.
    + rewrite (IH k). cbn zeta.
      pose proof (String_split_nonempty "?" rest) as Hne.
      destruct (String_split "?" rest) as [|piece pieces] eqn:E;
        [contradiction|].
      cbn [List.length Nat.sub]. rewrite weave_cons_char. reflexivity.
Qed.

Lemma convert_parameters_chars (sql : string) :
  forall k : nat,
    ~ In "?"%char (list_ascii_of_string (fst (convert_parameters sql k))).
Proof.
  induction sql as [|c rest IH]; intros k; cbn [convert_parameters].
  - intros [].
  - destruct (Ascii.eqb_spec c "?") as [->|Hne].
    + specialize (IH (S k)).
      destruct (convert_parameters rest (S k)) as [converted n].
      cbn [fst] in *. rewrite !append_chars. intros Hin.
      apply in_app_or in Hin. destruct Hin as [Hin|Hin].
      * cbn in Hin. intuition discriminate.
      * apply in_app_or in Hin. destruct Hin as [Hin|Hin]; [|auto].
        pose proof (string_of_nat_digits (S k)) as Hd.
        rewrite Forall_forall in Hd. specialize (Hd _ Hin).
        unfold digit_char in Hd. cbn [In] in Hd. intuition discriminate.
    + specialize (IH k). destruct (convert_parameters rest k) as [converted n].
      cbn [fst list_ascii_of_string In] in *. intuition.
Qed.

Lemma namedParams_from_keys {V : Type} (params : list V) :
  forall i : nat,
    map fst (namedParams_from i params)
    = map (fun j => ("param" ++ string_of_nat j)%string)
        (seq (S i) (List.length params)).
Proof.
  induction params as [|p rest IH]; intros i; [reflexivity|].
  cbn [namedParams_from map fst List.length seq]. rewrite IH.
  replace (i + 1)%nat with (S i) by lia. reflexivity.
Qed.

(** X20.  The [Statement] adapter binds positional parameters by position.
    [paramCount] is the number of question marks in the SQL text; the
    converted text has no question mark left; the k-th question mark, and
    nothing else, is replaced by [:param] and the number k, so that the
    converted text is the pieces between the question marks woven with the
    names; and when [run], [get] or [all] is called with as many arguments
    as there are question marks, the names in the converted text are,
    in order, the keys of the [namedParams] object, which are all
    different. *)
Theorem Statement_binds_by_position {V : Type} (sql : string)
    (params : list V) :
  List.length params = paramCount (Statement_new sql) ->
  paramCount (Statement_new sql)
  = (List.length (String_split "?" sql) - 1)%nat /\
  ~ In "?"%char (list_ascii_of_string (convertedSql (Statement_new sql))) /\
  NoDup (map fst (namedParams params)) /\
  convertedSql (Statement_new sql)
  = weave (String_split "?" sql)
      (map (fun p => (":" ++ fst p)%string) (namedParams params)).
Proof.
  unfold Statement_new. cbn [paramCount convertedSql].
  rewrite (convert_parameters_weave sql 0). cbn zeta. cbn [fst snd Nat.add].
  intros Hlen. split; [reflexivity|].
  split.
  { pose proof (convert_parameters_chars sql 0) as H.
    rewrite (convert_parameters_weave sql 0) in H. exact H. }
  unfold namedParams. split.
  - rewrite namedParams_from_keys. apply NoDup_map_NoDup_ForallPairs.
    + intros a b _ _ E. cbn [append] in E. injection E as E.
      apply string_of_nat_inj, E.
    + apply seq_NoDup.
  - f_equal. rewrite <- (map_map fst (fun k => (":" ++ k)%string)).
    rewrite namedParams_from_keys, map_map, Hlen. reflexivity.
Qed.

Lemma Statement_binds_by_position_witness :
  paramCount (Statement_new "SELECT id FROM vectors WHERE id = ? AND x = ?")
  = (List.length
       (String_split "?" "SELECT id FROM vectors WHERE id = ? AND x = ?")
     - 1)%nat /\
  ~ In "?"%char
      (list_ascii_of_string
         (convertedSql
            (Statement_new "SELECT id FROM vectors WHERE id = ? AND x = ?")))
  /\
  NoDup (map fst (namedParams [7; 8])) /\
  convertedSql (Statement_new "SELECT id FROM vectors WHERE id = ? AND x = ?")
  = weave (String_split "?" "SELECT id FROM vectors WHERE id = ? AND x = ?")
      (map (fun p => (":" ++ fst p)%string) (namedParams [7; 8])).
Proof.
  exact (Statement_binds_by_position
           "SELECT id FROM vectors WHERE id = ? AND x = ?" [7; 8] eq_refl).
Defined.

(** ** The snippet scan *)

Lemma string_append_assoc (a b c : string) :
  ((a ++ b) ++ c)%string = (a ++ b ++ c)%string.
Proof.
  induction a as [|x a IH]; [reflexivity|]. cbn [append]. rewrite IH.
  reflexivity.
Qed.

Lemma String_join_snoc (sep : string) (l : list string) (x : string) :
  l <> [] -> String_join sep (l ++ [x]) = (String_join sep l ++ sep ++ x)%string.
Proof.
  induction l as [|a l IH]; intros H; [contradiction|].
  destruct l as [|b l]; [reflexivity|].
  change (String_join sep ((a :: b :: l) ++ [x]))
    with (a ++ sep ++ String_join sep ((b :: l) ++ [x]))%string.
  rewrite IH by discriminate. cbn [String_join].
  rewrite !string_append_assoc. reflexivity.
Qed.

Lemma firstn_succ_nth {A : Type} (d : A) (k : nat) (l : list A) :
  (k < List.length l)%nat -> firstn (S k) l = firstn k l ++ [nth k l d].
Proof.
  revert k. induction l as [|a l IH]; intros k H; [cbn in H; lia|].
  destruct k as [|k]; [reflexivity|].
  cbn [firstn nth app]. rewrite <- IH by (cbn in H; lia). reflexivity.
Qed.

Lemma nth_skipn {A : Type} (d : A) (n k : nat) (l : list A) :
  nth k (skipn n l) d = nth (n + k) l d.
Proof.
  revert l. induction n as [|n IH]; intros l; [reflexivity|].
  destruct l as [|a l]; [destruct k; reflexivity|]. cbn [skipn Nat.add nth].
  apply IH.
Qed.

(** The lines up to [i] are the lines up to [i - 1] and line [i]. *)
Lemma lines_between_succ (lines : list string) (first i : nat) :
  (first < i < List.length lines)%nat ->
  lines_between lines first i
  = (lines_between lines first (i - 1) ++ line_feed ++ nth i lines ""%string)
    %string.
Proof.
  intros H. unfold lines_between.
  replace (i - first + 1)%nat with (S (i - first)) by lia.
  replace (i - 1 - first + 1)%nat with (i - first)%nat by lia.
  rewrite (firstn_succ_nth ""%string) by (rewrite length_skipn; lia).
  rewrite nth_skipn. replace (first + (i - first))%nat with i by lia.
  apply String_join_snoc.
  destruct (skipn first lines) as [|a l] eqn:E.
  - apply (f_equal (@List.length string)) in E. rewrite length_skipn in E.
    cbn in E. lia.
  - replace (i - first)%nat with (S (i - first - 1)) by lia. discriminate.
Qed.

Lemma lines_between_one (lines : list string) (i : nat) :
  (i < List.length lines)%nat ->
  lines_between lines i i = nth i lines ""%string.
Proof.
  intros H. unfold lines_between. replace (i - i + 1)%nat with 1%nat by lia.
  destruct (skipn i lines) as [|a l] eqn:E.
  - apply (f_equal (@List.length string)) in E. rewrite length_skipn in E.
    cbn in E. lia.
  - cbn [firstn String_join]. rewrite <- (Nat.add_0_r i).
    rewrite <- nth_skipn, E. reflexivity.
Qed.

Lemma StronglySorted_snoc {A : Type} (R : A -> A -> Prop) (l : list A)
    (x : A) :
  StronglySorted R l -> Forall (fun a => R a x) l ->
  StronglySorted R (l ++ [x]).
Proof.
  intros HS HF. induction HS as [|a l HS IH Ha]; cbn [app].
  - repeat constructor.
  - inversion HF as [|? ? Hax HF']; subst. constructor; [auto|].
    apply Forall_app. split; [exact Ha | repeat constructor; exact Hax].
Qed.

(** One round of the loop keeps the invariant. *)
Lemma scan_line_invariant (python : bool) (langPatterns : LangPatterns)
    (lines : list string) (i : nat) (st : ScanState) :
  (i < List.length lines)%nat ->
  scan_invariant lines i st ->
  scan_invariant lines (S i)
    (scan_line python langPatterns (List.length lines - 1) st i
       (nth i lines ""%string)).
Proof.
  intros Hi (Hall & Hsorted & Hends & Hcurrent).
  assert (Hends' : Forall (fun s => (sn_end s < S i)%nat) (found_snippets st)).
  { eapply Forall_impl; [|exact Hends]. cbn beta. lia. }
  unfold scan_line.
  destruct (truthy_string (currentSymbol st)) eqn:Hsym; cbn [negb].
  - destruct (Hcurrent eq_refl) as (Hstart & Hbefore & Hcontent & Htype).
    assert (Hcontent' :
      (currentContent st ++ line_feed ++ nth i lines "")%string
      = lines_between lines (currentStart st) i).
    { rewrite lines_between_succ by lia. rewrite Hcontent. reflexivity. }
    match goal with
    | |- context [if ?b then _ else _] => destruct b
    end.
    + unfold scan_invariant. cbn [found_snippets currentSymbol truthy_string].
      split; [|split; [|split]].
      * apply Forall_app. split; [exact Hall|].
        apply Forall_cons; [|apply Forall_nil].
        unfold snippet_of. cbn [sn_start sn_end sn_content sn_symbol sn_type].
        split; [lia|]. split; [exact Hcontent'|]. split; assumption.
      * apply StronglySorted_snoc; [exact Hsorted|]. exact Hbefore.
      * apply Forall_app. split; [exact Hends'|].
        apply Forall_cons; [|apply Forall_nil]. cbn [sn_end]. lia.
      * discriminate.
    + unfold scan_invariant.
      cbn [found_snippets currentSymbol currentStart currentContent
           currentType].
      split; [exact Hall|]. split; [exact Hsorted|]. split; [exact Hends'|].
      intros _. split; [lia|]. split; [exact Hbefore|].
      split; [|exact Htype]. rewrite Hcontent'. f_equal. lia.
  - destruct (first_match _ _) as [[type symbol]|].
    + unfold scan_invariant.
      cbn [found_snippets currentSymbol currentStart currentContent
           currentType].
      split; [exact Hall|]. split; [exact Hsorted|]. split; [exact Hends'|].
      intros _. split; [lia|]. split; [exact Hends|].
      split; [|discriminate].
      replace (S i - 1)%nat with i by lia. symmetry.
      apply lines_between_one, Hi.
    + split; [exact Hall|]. split; [exact Hsorted|]. split; [exact Hends'|].
      rewrite Hsym. discriminate.
Qed.

Lemma scan_lines_invariant (python : bool) (langPatterns : LangPatterns)
    (lines : list string) :
  forall (rest before : list string) (st : ScanState),
    lines = before ++ rest ->
    scan_invariant lines (List.length before) st ->
    scan_invariant lines (List.length lines)
      (scan_lines python langPatterns (List.length lines - 1) st
         (List.length before) rest).
Proof.
  induction rest as [|line rest IH]; intros before st Hlines Hinv.
  - cbn [scan_lines]. rewrite app_nil_r in Hlines. subst before. exact Hinv.
  - cbn [scan_lines].
    assert (Hnth : nth (List.length before) lines ""%string = line).
    { rewrite Hlines. apply nth_middle. }
    assert (Hi : (List.length before < List.length lines)%nat).
    { rewrite Hlines, length_app. cbn [List.length]. lia. }
    pose proof (scan_line_invariant python langPatterns lines
                  (List.length before) st Hi Hinv) as Hstep.
    rewrite Hnth in Hstep.
    replace (S (List.length before)) with (List.length (before ++ [line]))
      in * by (rewrite length_app; cbn [List.length]; lia).
    apply IH; [|exact Hstep]. rewrite <- app_assoc. exact Hlines.
Qed.

(** X21.  Whatever the language and its patterns, every snippet the scan of
    [extractCodeSnippets] finds covers a range of lines of the text that
    starts at the line of the declaration and extends over at least one
    more line ([start < end]), lies inside the text, and has as content
    exactly those lines joined by line feeds; it has a symbol and a type.
    The snippets come in text order and do not overlap: each starts after
    the one before it has ended.  A text of a single line yields no
    snippet. *)
Theorem extractCodeSnippets_scan_ranges (language : string)
    (langPatterns : LangPatterns) (content : string) :
  let lines := String_split "010"%char content in
  let snippets := extractCodeSnippets_scan language langPatterns content in
  Forall (snippet_of lines) snippets /\
  StronglySorted (fun a b => (sn_end a < sn_start b)%nat) snippets /\
  ((List.length lines <= 1)%nat -> snippets = []).
Proof.
  cbn zeta. unfold extractCodeSnippets_scan.
  set (lines := String_split "010"%char content).
  destruct (scan_lines_invariant (String.eqb language "python") langPatterns
              lines lines [] (mkScanState None 0 None "" 0 []) eq_refl)
    as (Hall & Hsorted & _).
  { unfold scan_invariant. cbn [found_snippets currentSymbol truthy_string].
    repeat split; try constructor; discriminate. }
  cbn [List.length] in Hall, Hsorted.
  split; [exact Hall|]. split; [exact Hsorted|].
  intros Hone. destruct (found_snippets _) as [|s rest]; [reflexivity|].
  inversion Hall as [|? ? Hs _]; subst. destruct Hs as [Hrange _]. lia.
Qed.

(** ** The background queue *)

Lemma processQueue_invariant {T : Type} (q : TaskQueue T) :
  (List.length (awaited q) <= 1)%nat ->
  (isProcessing q = true <-> awaited q <> []) ->
  added q = started q ++ queue q ->
  (exists earlier, started q = earlier ++ awaited q) ->
  queue_invariant (processQueue q) /\
  (queue q <> [] -> isProcessing (processQueue q) = true).
Proof.
  intros Hone Hflag Hadded (earlier & Hstarted). unfold processQueue.
  destruct (isProcessing q) eqn:Hp; cbn [orb].
  - split; [|intros _; exact Hp].
    unfold queue_invariant. rewrite Hp.
    repeat split; auto; try discriminate; try apply Hflag; eauto.
  - assert (Hnone : awaited q = []).
    { destruct (awaited q) as [|t l]; [reflexivity|].
      assert (false = true) by (apply Hflag; discriminate). discriminate. }
    destruct (queue q) as [|task rest] eqn:Hq; cbn [List.length Nat.eqb].
    + split; [|intros H; contradiction].
      unfold queue_invariant. rewrite Hp, Hq, Hnone.
      repeat split; auto; try discriminate; try contradiction.
      exists earlier. rewrite Hstarted, Hnone. reflexivity.
    + split; [|reflexivity].
      unfold queue_invariant.
      cbn [queue isProcessing awaited timeouts added started].
      rewrite Hnone. cbn [app List.length].
      repeat split; auto; try discriminate.
      * rewrite Hadded, <- app_assoc. reflexivity.
      * exists (started q). reflexivity.
Qed.

Lemma queue_event_invariant {T : Type} (q : TaskQueue T) (e : QueueEvent T) :
  queue_invariant q -> queue_invariant (queue_event q e).
Proof.
  intros (Hone & Hflag & Hadded & (earlier & Hstarted) & Hlive).
  destruct e as [task| |]; cbn [queue_event].
  - unfold addTask. cbn [isProcessing].
    destruct (isProcessing q) eqn:Hp; cbn [negb].
    + unfold queue_invariant.
      cbn [queue isProcessing awaited timeouts added started].
      repeat split; auto; try discriminate; try apply Hflag.
      * rewrite Hadded, app_assoc. reflexivity.
      * exists earlier. exact Hstarted.
    + apply processQueue_invariant;
        cbn [queue isProcessing awaited timeouts added started]; auto.
      * rewrite Hadded, app_assoc. reflexivity.
      * exists earlier. exact Hstarted.
  - unfold task_settles. destruct (awaited q) as [|t others] eqn:Ha.
    + unfold queue_invariant. rewrite Ha. repeat split; auto;
        try apply Hflag; eauto.
    + assert (others = []) by (destruct others; [reflexivity|cbn in Hone; lia]).
      subst others. unfold queue_invariant.
      cbn [queue isProcessing awaited timeouts added started].
      repeat split; auto; try discriminate; try contradiction.
      * exists (earlier ++ [t]). rewrite app_nil_r. exact Hstarted.
      * intros Hq _. destruct (queue q); [contradiction|]. cbn. lia.
  - unfold timeout_fires. destruct (timeouts q) as [|n] eqn:Ht.
    + unfold queue_invariant. rewrite Ht. repeat split; auto;
        try apply Hflag; eauto.
    + destruct (processQueue_invariant
                  (mkTaskQueue (queue q) (isProcessing q) (awaited q) n
                     (added q) (started q))) as [Hinv _];
        cbn [queue isProcessing awaited timeouts added started]; eauto.
Qed.

(** X22.  After every history of [addTask] calls, settling tasks and firing
    timeouts, the background queue is in order: at most one task is awaited
    at a time, and [isProcessing] is set exactly while one is; the tasks
    are started in the order they were added, none twice and none dropped:
    the tasks added are those started followed by those still queued; and
    the queue cannot stall: whenever tasks are waiting and none is being
    processed, a timeout that will call [processQueue] is pending. *)
Theorem backgroundTasks_in_order {T : Type} (events : list (QueueEvent T)) :
  let q := queue_after events in
  (List.length (awaited q) <= 1)%nat /\
  (isProcessing q = true <-> awaited q <> []) /\
  added q = started q ++ queue q /\
  (exists earlier, started q = earlier ++ awaited q) /\
  (queue q <> [] -> isProcessing q = false -> (0 < timeouts q)%nat).
Proof.
  cbn zeta. unfold queue_after.
  change (queue_invariant (fold_left queue_event events
                             (@backgroundTasks T))).
  assert (H0 : queue_invariant (@backgroundTasks T)).
  { unfold queue_invariant, backgroundTasks.
    cbn [queue isProcessing awaited timeouts added started].
    repeat split; auto; try discriminate; try contradiction.
    exists []. reflexivity. }
  revert H0. generalize (@backgroundTasks T) as q.
  induction events as [|e events IH]; intros q Hq; [exact Hq|].
  cbn [fold_left]. apply IH, queue_event_invariant, Hq.
Qed.

(** ** Maintenance and the semantic lookup *)

(** Every row a search returns is a stored fingerprint. *)
Lemma findSimilarVectors_stored (st : Server) (d : Database)
    (q : Float32Array) (contentType : option string)
    (limit threshold : float) :
  db st = Some d ->
  Forall (fun r => exists v, In v (vectors d) /\
                             s_content_id r = v_content_id v /\
                             s_content_type r = v_content_type v)
    (findSimilarVectors st q contentType limit threshold).
Proof.
  intros Hdb. unfold findSimilarVectors. rewrite Hdb.
  assert (Hscan :
    Forall (fun r => exists v, In v (vectors d) /\
                               s_content_id r = v_content_id v /\
                               s_content_type r = v_content_type v)
      (findSimilarVectors_scan d q contentType limit threshold)).
  { eapply Forall_impl; [|apply findSimilarVectors_scan_rows].
    cbn beta. intros r (v & Hv & -> & _). exists v.
    cbn [s_content_id s_content_type]. auto. }
  destruct (vector_index st) as [K|]; [|exact Hscan].
  destruct (findSimilarVectors_index K d q contentType limit threshold)
    as [results|] eqn:E; [|exact Hscan].
  destruct (findSimilarVectors_index_rows _ _ _ _ _ _ _ E)
    as (k & n & _ & _ & _ & Hrows).
  eapply Forall_impl; [|exact Hrows]. cbn beta.
  intros r (v & Hv & _ & Hr & _). exists v. rewrite Hr.
  cbn [s_content_id s_content_type]. auto.
Qed.

Lemma find_existsb {A : Type} (p p' : A -> bool) (l : list A) :
  (forall x, p x = p' x) ->
  existsb p l = true -> exists x, find p' l = Some x.
Proof.
  intros Hext. induction l as [|a l IH]; [discriminate|].
  cbn [existsb find]. rewrite <- Hext.
  destruct (p a); [eauto | exact IH].
Qed.

(** The details of a fingerprint whose owner exists. *)
Lemma item_detail_owner (toISOString : Z -> string) (d : Database)
    (v : VectorRow) (r : SimilarRow) :
  owner_exists d v = true ->
  s_content_id r = v_content_id v -> s_content_type r = v_content_type v ->
  s_content_type r = "user_message"%string \/
  s_content_type r = "assistant_message"%string \/
  s_content_type r = "code_file"%string ->
  item_detail toISOString d r <> NoDetail.
Proof.
  intros Hown Hid Htype Hkind. unfold owner_exists in Hown.
  apply andb_prop in Hown. destruct Hown as [Hown _].
  apply andb_prop in Hown. destruct Hown as [Hmsg Hfile].
  unfold item_detail. rewrite Hid.
  unfold type_in, message_types in Hmsg, Hfile. rewrite <- Htype in Hmsg, Hfile.
  destruct Hkind as [E|[E|E]]; rewrite E in *;
    cbn [existsb String.eqb Ascii.eqb Bool.eqb orb negb] in Hmsg, Hfile |- *.
  - destruct (find_existsb _ (fun m => Zpos (m_id m) =? v_content_id v)
                (messages d) (fun m => Z.eqb_sym _ _) Hmsg) as (m & Hm).
    rewrite Hm. discriminate.
  - destruct (find_existsb _ (fun m => Zpos (m_id m) =? v_content_id v)
                (messages d) (fun m => Z.eqb_sym _ _) Hmsg) as (m & Hm).
    rewrite Hm. discriminate.
  - destruct (find_existsb _ (fun f => Zpos (cf_id f) =? v_content_id v)
                (code_files d) (fun f => Z.eqb_sym _ _) Hfile) as (f & Hf).
    rewrite Hf. discriminate.
Qed.

(** X23.  After a maintenance run with default options in database mode, on
    a table with distinct ids, the semantic lookup has no dangling
    references to messages or files: every item [findSimilarItems] returns
    that points to a user message, an assistant message or a code file
    carries the details of that row, for every query, limit and
    threshold. *)
Theorem no_dangling_items_after_maintenance (toISOString : Z -> string)
    (st : Server) (d : Database) (q : Float32Array) (contentType : string)
    (alternativeType : option string) (limit threshold : float) :
  db st = Some d -> useInMemory st = false ->
  NoDup (map v_id (vectors d)) ->
  Forall (fun i => message_or_file i -> has_detail i)
    (findSimilarItems toISOString
       (snd (performVectorMaintenance st no_options)) q contentType
       alternativeType limit threshold).
Proof.
  intros Hdb Hmem ND.
  destruct (maintenance_default_run st d Hdb Hmem ND)
    as (n1 & n2 & vs2 & Hrun & Hfold & _).
  assert (ND1 : NoDup (map v_id (filter (owner_exists d) (vectors d))))
    by apply NoDup_map_filter, ND.
  destruct (collapse_all_duplicates _ ND1) as (_ & _ & Hsub & _).
  rewrite Hfold in Hsub. cbn [fst] in Hsub.
  rewrite Hrun. cbn [snd].
  set (st' := with_db st (with_vectors d vs2)).
  assert (Hdb' : db st' = Some (with_vectors d vs2)) by reflexivity.
  assert (Hstored : forall contentType',
    Forall (fun r => exists v, In v vs2 /\
                               s_content_id r = v_content_id v /\
                               s_content_type r = v_content_type v)
      (findSimilarVectors st' q contentType' limit threshold)).
  { intros contentType'.
    apply (findSimilarVectors_stored st' _ q contentType' limit threshold Hdb'). }
  unfold findSimilarItems. rewrite Hdb'.
  apply Forall_forall. intros i Hi. apply in_map_iff in Hi.
  destruct Hi as (r & <- & Hr). unfold message_or_file, has_detail.
  cbn [si_type si_detail]. intros Hkind.
  assert (Hrow : exists v, In v vs2 /\ s_content_id r = v_content_id v /\
                           s_content_type r = v_content_type v).
  { destruct (truthy_string alternativeType).
    - unfold Array_sort in Hr.
      apply Array_slice0_In, stable_sort_In, in_app_or in Hr.
      destruct Hr as [Hr|Hr];
        [pose proof (Hstored (Some contentType)) as HF
        |pose proof (Hstored alternativeType) as HF];
        rewrite Forall_forall in HF; apply HF, Hr.
    - pose proof (Hstored (Some contentType)) as HF.
      rewrite Forall_forall in HF. apply HF, Hr. }
  destruct Hrow as (v & Hv & Hid & Htype).
  apply Hsub, filter_In in Hv. destruct Hv as [_ Hown].
  pose proof (item_detail_owner toISOString (with_vectors d vs2) v r Hown Hid
                Htype Hkind) as Hdetail.
  destruct (item_detail toISOString (with_vectors d vs2) r);
    [contradiction | exact I..].
Qed.

Lemma no_dangling_items_after_maintenance_witness :
  Forall (fun i => message_or_file i -> has_detail i)
    (findSimilarItems string_of_Z
       (snd (performVectorMaintenance sample_server no_options)) sample_query
       "user_message" None 3 0).
Proof.
  exact (no_dangling_items_after_maintenance string_of_Z sample_server
           sample_db sample_query "user_message" None 3 0 eq_refl
           eq_refl unique_sample_ids).
Defined.

(** ** Text normalisation *)

Lemma lower_char_twice (c : ascii) : lower_char (lower_char c) = lower_char c.
Proof. destruct c as [[] [] [] [] [] [] [] []]; reflexivity. Qed.

Lemma lower_char_space (c : ascii) :
  is_white_space (lower_char c) = is_white_space c.
Proof. destruct c as [[] [] [] [] [] [] [] []]; reflexivity. Qed.

Lemma trimStart_chars (s : string) :
  list_ascii_of_string (trimStart s) = drop_spaces (list_ascii_of_string s).
Proof.
  induction s as [|c s IH]; [reflexivity|].
  cbn [trimStart list_ascii_of_string drop_spaces].
  destruct (is_white_space c); [exact IH | reflexivity].
Qed.

Lemma string_rev_chars (s : string) :
  forall acc,
    list_ascii_of_string (string_rev s acc)
    = rev (list_ascii_of_string s) ++ list_ascii_of_string acc.
Proof.
  induction s as [|c s IH]; intros acc; [reflexivity|].
  cbn [string_rev list_ascii_of_string rev]. rewrite IH, <- app_assoc.
  reflexivity.
Qed.

Lemma trim_chars (s : string) :
  list_ascii_of_string (trim s)
  = rev (drop_spaces (rev (drop_spaces (list_ascii_of_string s)))).
Proof.
  unfold trim. rewrite string_rev_chars, trimStart_chars, string_rev_chars,
    trimStart_chars. cbn [list_ascii_of_string]. rewrite !app_nil_r.
  reflexivity.
Qed.

Lemma drop_spaces_split (l : list ascii) :
  exists spaces, l = spaces ++ drop_spaces l.
Proof.
  induction l as [|c l IH]; [exists []; reflexivity|]. cbn [drop_spaces].
  destruct (is_white_space c); [|exists []; reflexivity].
  destruct IH as [spaces IH]. exists (c :: spaces). cbn [app].
  rewrite <- IH. reflexivity.
Qed.

Lemma drop_spaces_length (l : list ascii) :
  (List.length (drop_spaces l) <= List.length l)%nat.
Proof.
  induction l as [|c l IH]; [reflexivity|]. cbn [drop_spaces].
  destruct (is_white_space c); cbn [List.length]; lia.
Qed.

Lemma drop_spaces_twice (l : list ascii) :
  drop_spaces (drop_spaces l) = drop_spaces l.
Proof.
  induction l as [|c l IH]; [reflexivity|]. cbn [drop_spaces].
  destruct (is_white_space c) eqn:E; [exact IH|].
  cbn [drop_spaces]. rewrite E. reflexivity.
Qed.

(** Taking the spaces off the end leaves the front as it is. *)
Lemma drop_spaces_end (a : list ascii) :
  drop_spaces a = a ->
  drop_spaces (rev (drop_spaces (rev a))) = rev (drop_spaces (rev a)).
Proof.
  intros Ha. destruct (drop_spaces_split (rev a)) as [spaces Hsplit].
  apply (f_equal (@rev ascii)) in Hsplit.
  rewrite rev_involutive, rev_app_distr in Hsplit.
  destruct (rev (drop_spaces (rev a))) as [|x t]; [reflexivity|].
  cbn [drop_spaces]. destruct (is_white_space x) eqn:E; [|reflexivity].
  exfalso. rewrite Hsplit in Ha. cbn [app drop_spaces] in Ha. rewrite E in Ha.
  pose proof (drop_spaces_length (t ++ rev spaces)) as Hlen.
  rewrite Ha in Hlen. cbn [List.length] in Hlen. lia.
Qed.

Lemma drop_spaces_lower (l : list ascii) :
  drop_spaces (map lower_char l) = map lower_char (drop_spaces l).
Proof.
  induction l as [|c l IH]; [reflexivity|]. cbn [map drop_spaces].
  rewrite lower_char_space. destruct (is_white_space c); [exact IH|].
  reflexivity.
Qed.

Lemma normalizedText_chars (s : string) :
  list_ascii_of_string (normalizedText s)
  = map lower_char
      (rev (drop_spaces (rev (drop_spaces (list_ascii_of_string s))))).
Proof.
  unfold normalizedText. rewrite trim_chars, toLowerCase_chars.
  rewrite drop_spaces_lower, <- map_rev, drop_spaces_lower, <- map_rev.
  reflexivity.
Qed.

(** X24.  The fingerprint of a text depends on its normal form only, the
    text in lower case without the white space around it: two texts with
    the same normal form get the same vector, for every engine and every
    number of dimensions.  The normal form of a text is its own normal
    form, so every text gets the fingerprint of its normal form: the
    fingerprint ignores case and the white space at both ends. *)
Theorem createEmbedding_normal_form (M : MathObject) (t t' : string)
    (dimensions : nat) (c : Console) :
  normalizedText (normalizedText t) = normalizedText t /\
  fst (createEmbedding M (Some t) dimensions c)
  = fst (createEmbedding M (Some (normalizedText t)) dimensions c) /\
  (normalizedText t = normalizedText t' ->
   fst (createEmbedding M (Some t) dimensions c)
   = fst (createEmbedding M (Some t') dimensions c)).
Proof.
  assert (Hnorm : normalizedText (normalizedText t) = normalizedText t).
  { rewrite <- (string_of_list_ascii_of_string
                  (normalizedText (normalizedText t))).
    rewrite <- (string_of_list_ascii_of_string (normalizedText t)) at 2.
    f_equal. rewrite (normalizedText_chars (normalizedText t)).
    rewrite normalizedText_chars.
    set (a := drop_spaces (list_ascii_of_string t)).
    assert (Ha : drop_spaces a = a) by apply drop_spaces_twice.
    rewrite drop_spaces_lower, <- map_rev, drop_spaces_lower, <- map_rev.
    rewrite map_map.
    rewrite (drop_spaces_end a Ha), rev_involutive, drop_spaces_twice.
    apply map_ext, lower_char_twice. }
  assert (Hsame : forall u u',
    normalizedText u = normalizedText u' ->
    fst (createEmbedding M (Some u) dimensions c)
    = fst (createEmbedding M (Some u') dimensions c)).
  { intros u u' E. unfold createEmbedding, createEmbedding_try. cbn [fst].
    unfold normalizedText in E. rewrite E. reflexivity. }
  split; [exact Hnorm|]. split; [|apply Hsame].
  apply Hsame. symmetry. exact Hnorm.
Qed.

(** ** Raising the limit of a search *)

Lemma is_prefix_refl {A : Type} (l : list A) : is_prefix l l.
Proof. exists []. symmetry. apply app_nil_r. Qed.

Lemma is_prefix_firstn {A : Type} (n m : nat) (l : list A) :
  (n <= m)%nat -> is_prefix (firstn n l) (firstn m l).
Proof.
  intros H. exists (firstn (m - n) (skipn n l)).
  rewrite <- (firstn_skipn n (firstn m l)) at 1.
  rewrite firstn_firstn, Nat.min_l by exact H.
  f_equal. rewrite skipn_firstn_comm. reflexivity.
Qed.

(** X25.  On a store without [vector_top_k], raising the limit of a
    similarity search only appends results: for the same store, query,
    content type and threshold, and limits whose integer parts are
    [0 <= k <= k'], the rows [findSimilarVectors] returns for the smaller
    limit are an initial segment of the rows it returns for the larger. *)
Theorem findSimilarVectors_limit_monotone (st : Server) (q : Float32Array)
    (contentType : option string) (limit limit' threshold : float)
    (k k' : Z) :
  vector_index st = None ->
  ToIntegerOrInfinity limit = Integer k ->
  ToIntegerOrInfinity limit' = Integer k' ->
  0 <= k <= k' ->
  is_prefix (findSimilarVectors st q contentType limit threshold)
    (findSimilarVectors st q contentType limit' threshold).
Proof.
  intros Hnone Hk Hk' Hle. unfold findSimilarVectors. rewrite Hnone.
  destruct (db st) as [d|]; [|apply is_prefix_refl].
  unfold findSimilarVectors_scan.
  rewrite <- (Z2Nat.id k) in Hk by lia.
  rewrite <- (Z2Nat.id k') in Hk' by lia.
  rewrite (Array_slice0_count _ _ _ Hk), (Array_slice0_count _ _ _ Hk').
  apply is_prefix_firstn. lia.
Qed.

Lemma findSimilarVectors_limit_monotone_witness :
  is_prefix (findSimilarVectors sample_server sample_query None 1 0)
    (findSimilarVectors sample_server sample_query None 2.5 0).
Proof.
  apply (findSimilarVectors_limit_monotone sample_server sample_query None 1
           2.5 0 1 2); [reflexivity | reflexivity | reflexivity | lia].
Defined.

(** ** The model at work *)

Example bits_of_one : bits_of_f32 1%float = 0x3f800000.
Proof. vm_compute. reflexivity. Qed.

Example fround_one_tenth :
  Math_fround 0x1.999999999999ap-4%float = 0x1.99999ap-4%float.
Proof. vm_compute. reflexivity. Qed.

Example fround_overflow : Math_fround 0x1p+128%float = infinity.
Proof. vm_compute. reflexivity. Qed.

Example trim_lower : trim (toLowerCase "  Hello World  ") = "hello world"%string.
Proof. vm_compute. reflexivity. Qed.

Example cosine_same_direction :
  cosineSimilarity sample_query (Float32Array_from [2; 0]%float) = 1%float.
Proof. vm_compute. reflexivity. Qed.

Example cosine_zero_norm :
  cosineSimilarity sample_query (Float32Array_new 2) = 0%float.
Proof. vm_compute. reflexivity. Qed.

Example cosine_length_mismatch :
  cosineSimilarity sample_query (Float32Array_from [1]%float) = 0%float.
Proof. vm_compute. reflexivity. Qed.

Example integer_parts :
  map ToIntegerOrInfinity [2.5; -1; -0.5; nan; infinity; neg_infinity]%float
  = [Integer 2; Integer (-1); Integer 0; Integer 0; PlusInfinity;
     MinusInfinity].
Proof. vm_compute. reflexivity. Qed.

Example slices_of_three :
  map (Array_slice0 [1; 2; 3]) [2.5; -1; 0.5; 10; nan; -5; infinity]%float
  = [[1; 2]; [1; 2]; []; [1; 2; 3]; []; []; [1; 2; 3]].
Proof. vm_compute. reflexivity. Qed.

Example integers_of_statements :
  map sql_integer [2; 2.5; -1; nan; 0x1p+63; -0x1p+63]%float
  = [Some 2; None; Some (-1); None; None; Some (- 2 ^ 63)].
Proof. vm_compute. reflexivity. Qed.

Example sort_numbers :
  Array_sort (fun a b => (b - a)%float) [1; 3; 2; 3]%float = [3; 3; 2; 1]%float.
Proof. vm_compute. reflexivity. Qed.

Example embedding_of_non_string :
  fst (createEmbedding sample_Math None 3 quiet_console)
  = Normal (Float32Array_new 3).
Proof. vm_compute. reflexivity. Qed.

(** The scan reads every stored vector as the empty one: the first row of
    the sample store holds the very vector of the query, and the scan gives
    it, like every row, the similarity 0. *)
Example scan_of_sample_store :
  findSimilarVectors sample_server sample_query None 10 0.5%float = [] /\
  map (fun r => (s_id r, s_similarity r))
    (findSimilarVectors sample_server sample_query None 10 0)
  = [(1%positive, 0%float); (2%positive, 0%float); (3%positive, 0%float)].
Proof. vm_compute. split; reflexivity. Qed.

Example scan_with_negative_limit :
  map s_id (findSimilarVectors sample_server sample_query None (-1) 0)
  = [1; 2]%positive.
Proof. vm_compute. reflexivity. Qed.

Example index_of_sample_store :
  map s_id
    (findSimilarVectors sample_server_indexed sample_query None 10 0.5%float)
  = [1; 2; 3]%positive.
Proof. vm_compute. reflexivity. Qed.

Example maintenance_of_sample_store :
  option_map (fun d => map v_id (vectors d))
    (db (snd (performVectorMaintenance sample_server no_options)))
  = Some [1; 3]%positive /\
  orphansRemoved (fst (performVectorMaintenance sample_server no_options))
  = 1%nat.
Proof. vm_compute. split; reflexivity. Qed.

Example delete_existing_vector :
  fst (manageVector 5000 5001 sample_server
         (mkArgs (Some "delete"%string) None None VectorMissing None (Some 2)
            None None None))
  = mkToolResult (DeleteResult 2 true 5000) false.
Proof. vm_compute. reflexivity. Qed.

Example update_missing_vector :
  fst (manageVector 5000 5001 sample_server
         (mkArgs (Some "update"%string) None None (VectorArray [1%float]) None
            (Some 7) None None None))
  = error_result "Vector with ID 7 not found".
Proof. vm_compute. reflexivity. Qed.

(** The rowid of a deleted fingerprint is not given out again, and the
    first fingerprint of an empty table gets the rowid 1. *)
Example store_after_delete :
  let store :=
    mkArgs (Some "store"%string) (Some 10) (Some "user_message"%string)
      (VectorArray [0; 1]%float) None None None None None in
  let delete :=
    mkArgs (Some "delete"%string) None None VectorMissing None (Some 3) None
      None None in
  option_map (fun d => map v_id (vectors d))
    (db (snd (manageVector 5002 5003
                (snd (manageVector 5000 5001 sample_server delete)) store)))
  = Some [1; 2; 4]%positive /\
  option_map (fun d => map v_id (vectors d))
    (db (snd (manageVector 5000 5001 (mkServer (Some twenty_db) false None)
                store)))
  = Some [1%positive].
Proof. vm_compute. split; reflexivity. Qed.

(** The scenario of the specification: twenty messages with increasing time
    stamps and no query give the five most recent, newest first. *)
Example twenty_messages_five_most_recent :
  option_map (fun st => map (fun i => m_id (source i)) (recentMessages st))
    (shortTerm
       (getComprehensiveContext sample_runtime
          (mkServer (Some twenty_db) false None) None quiet_console))
  = Some [20; 19; 18; 17; 16]%positive.
Proof. vm_compute. reflexivity. Qed.

Example snippets_of_sample_text :
  extractCodeSnippets_scan "javascript" sample_patterns sample_text
  = [ mkSnippet (Some "f"%string) (Some FunctionSymbol) 0 2
        ("function f() {" ++ line_feed ++ "  return 1;" ++ line_feed ++ "}") ].
Proof. reflexivity. Qed.

Example statement_of_update :
  Statement_new "UPDATE vectors SET vector = ? WHERE id = ?"
  = mkStatement "UPDATE vectors SET vector = ? WHERE id = ?"
      "UPDATE vectors SET vector = :param1 WHERE id = :param2" 2.
Proof. reflexivity. Qed.

Example queue_of_three_tasks :
  queue_after [ AddTask 1; AddTask 2; TaskSettles; AddTask 3; TimeoutFires;
                TaskSettles; TimeoutFires ]
  = mkTaskQueue [] true [3] 0 [1; 2; 3] [1; 2; 3].
Proof. reflexivity. Qed.

Example hello_is_no_code :
  isCodeRelatedQuery [] (Some "Hello"%string) = false.
Proof. reflexivity. Qed.

Example groups_of_sample_snippets :
  map (fun g => (g_file_path g, g_relevance g, map si_id (g_snippets g)))
    (groupSimilarSnippetsByFile sample_snippets)
  = [ (Some "a.js"%string, 0.875%float, [1; 3]);
      (Some "b.js"%string, 0.75%float, [2]) ].
Proof. reflexivity. Qed.

Example track_known_file :
  mem_activeFiles (trackActiveFile_inMemory 2000 sample_store "a.js" "edit"
                     None)
  = [ mkMemoryFile "a.js" "edit" 2000 None;
      mkMemoryFile "b.js" "edit" 1001 None ].
Proof. reflexivity. Qed.

Example newest_message_of_sample_store :
  map fst (fst (getRecentMessages_inMemory string_of_Z sample_store
                  (Some 1%float) None))
  = [ mkMemoryMessage "user" "second" 1001 "high" None ].
Proof. reflexivity. Qed.
